(** * Cybersecurity news aggregator: ingestion, classification, aggregation

    A shallow embedding of the pipeline in [scraper.py], [classifier.py],
    [utils.py], [threat_map.py] and [models.py], and the properties of its
    specification that are checked against it.

    Conventions of the embedding.
    - Python [str] is [string], the UTF-8 encoding of the text.  Whitespace
      is that of Python's [str] (the 29 code points of [str.isspace], the
      ASCII ones and U+0085, U+00A0, U+1680, U+2000 to U+200A, U+2028,
      U+2029, U+202F, U+205F, U+3000), recognised on the encoding; slicing
      counts bytes, which is Python's slicing on ASCII text.
    - Python [int] is [Z], a float literal of
      a table is the decimal it is written as, in [Q]; a [dict] used as a
      table is a [gmap string _], a [dict] or [Counter] whose insertion order
      is observable is an association list.
    - A value that may be [None] is an [option].
    - Code that may raise returns an [outcome]; code that mutates state and
      may raise lives in the monad [py], in which the state survives an
      exception exactly as a Python local does when a [try] block is left.
    - A [datetime] is a number of seconds, a row id a [nat].
    - Everything outside the repository (HTTP, the HTML parser, the
      inference service, the geocoder, the faults of the store and the
      order it gives to rows of equal time) is a function argument, so that
      every statement is quantified over every behaviour of it. *)

From stdpp Require Import gmap strings list sorting.
From Stdlib Require Import QArith.
Close Scope Q_scope.

(** ** Python runtime *)

Module python.

(** The exception classes the modelled code can meet.  All of them derive
    from [Exception], which is what every handler in the repository
    catches. *)
Inductive exn :=
| KeyError (key : string)
| TypeError
| AttributeError
| JSONDecodeError
| IntegrityError
| RequestException
| OperationalError
| RuntimeError.

Inductive outcome (A : Type) :=
| Returned (a : A)
| Raised (e : exn).
Arguments Returned {A} a.
Arguments Raised {A} e.

Definition is_raised {A} (o : outcome A) : bool :=
  match o with Raised _ => true | Returned _ => false end.

(** Stateful code that may raise: the state reached so far is kept when an
    exception leaves the computation. *)
Definition py (S A : Type) : Type := S → S * outcome A.

Definition ret {S A} (a : A) : py S A := λ s, (s, Returned a).

Definition bind {S A B} (m : py S A) (k : A → py S B) : py S B :=
  λ s, match m s with
       | (s', Returned a) => k a s'
       | (s', Raised e) => (s', Raised e)
       end.

Definition raise {S A} (e : exn) : py S A := λ s, (s, Raised e).

Definition lift {S A} (o : outcome A) : py S A := λ s, (s, o).

Definition get {S} : py S S := λ s, (s, Returned s).

Definition modify {S} (f : S → S) : py S unit := λ s, (f s, Returned tt).

(** [try: body except Exception: handler]. *)
Definition try_except {S A} (body : py S A) (handler : exn → py S A) : py S A :=
  λ s, match body s with
       | (s', Returned a) => (s', Returned a)
       | (s', Raised e) => handler e s'
       end.

(** [try: body finally: cleanup]. *)
Definition try_finally {S A} (body : py S A) (cleanup : py S unit) : py S A :=
  λ s, match body s with
       | (s', Returned a) =>
           match cleanup s' with
           | (s'', Returned _) => (s'', Returned a)
           | (s'', Raised e) => (s'', Raised e)
           end
       | (s', Raised e) =>
           match cleanup s' with
           | (s'', Returned _) => (s'', Raised e)
           | (s'', Raised e') => (s'', Raised e')
           end
       end.

(** [for x in xs: body x]. *)
Fixpoint for_each {S A} (xs : list A) (body : A → py S unit) : py S unit :=
  match xs with
  | [] => ret tt
  | x :: xs' => bind (body x) (λ _, for_each xs' body)
  end.

(** Truth value of a possibly-[None] string: [None] and [""] are falsy. *)
Definition truthy (s : option string) : bool :=
  match s with
  | Some (String _ _) => true
  | _ => false
  end.

End python.

Import python.

Declare Scope py_scope.
Delimit Scope py_scope with py.
Notation "x <- m ;; k" := (bind m (λ x, k))
  (at level 100, m at next level, right associativity) : py_scope.
Notation "m ;; k" := (bind m (λ _, k))
  (at level 100, right associativity) : py_scope.

(** Unfolds the plumbing of [py] in the goal and the hypotheses. *)
Ltac run_py :=
  unfold bind, ret, lift, get, modify, raise in *; simpl in *.

(** ** The parts of [pandas] and [collections] the pipeline uses *)

Module pandas.

(** A frame in [records] orientation: one dict per row, a cell being a
    string or null ([None], [NaN]). *)
Definition record : Type := gmap string (option string).
Definition DataFrame : Type := list record.

(** [df.empty]: there is no row, or there is no column. *)
Definition empty (df : DataFrame) : bool :=
  forallb (λ r : record, bool_decide (r = ∅)) df.

Definition has_column (df : DataFrame) (c : string) : bool :=
  existsb (λ r : record, bool_decide (is_Some (r !! c))) df.

(** [df[c]]: the column, null where a row has no such key; [KeyError] when
    no row has it. *)
Definition column (df : DataFrame) (c : string) : outcome (list (option string)) :=
  if has_column df c then Returned ((λ r : record, mjoin (r !! c)) <$> df)
  else Raised (KeyError c).

(** [series.dropna()]. *)
Definition dropna (series : list (option string)) : list string :=
  omap id series.

(** Inputs for concrete runs: a row that has only a threat type, a batch
    of three classified rows, a batch whose threat types are all null. *)
Definition threat_row (threat_type : option string) : record :=
  {[ "threat_type" := threat_type ]}.

Definition example_batch : DataFrame :=
  [ threat_row (Some "Phishing"); threat_row (Some "Phishing");
    threat_row (Some "Ransomware") ].

Definition null_batch : DataFrame := [ threat_row None; threat_row None ].

End pandas.

Module collections.

(** A [Counter]: a dict from element to count, in insertion order. *)
Definition Counter : Type := list (string * nat).

(** [c[x] = c.get(x, 0) + 1]. *)
Fixpoint count_element (x : string) (c : Counter) : Counter :=
  match c with
  | [] => [(x, 1)]
  | (k, n) :: rest =>
      if String.eqb k x then (k, S n) :: rest else (k, n) :: count_element x rest
  end.

(** [Counter(iterable)]. *)
Definition Counter_of (iterable : list string) : Counter :=
  fold_left (λ c x, count_element x c) iterable [].

(** [sorted(items, key=itemgetter(1), reverse=True)]: a stable sort, so
    items of equal count keep the order they had. *)
Fixpoint insert_by_count (x : string * nat) (sorted : list (string * nat))
    : list (string * nat) :=
  match sorted with
  | [] => [x]
  | y :: rest =>
      if x.2 <? y.2 then y :: insert_by_count x rest else x :: y :: rest
  end.

Definition sorted_by_count (items : list (string * nat)) : list (string * nat) :=
  foldr insert_by_count [] items.

(** [c.most_common(n)], which is [heapq.nlargest(n, c.items(), key=count)],
    documented as the first [n] items of the stable descending sort. *)
Definition most_common (n : nat) (c : Counter) : list (string * nat) :=
  take n (sorted_by_count c).

(** Vocabulary of the statements about counting: how often an element
    occurs, and when it is first encountered.  [encountered_before l t1 t2]
    says that [t1] occurs in [l] at a place before which [t2] has not
    occurred, that is, the first [t1] comes before the first [t2]. *)
Definition occurrences (t : string) (l : list string) : nat :=
  length (filter (λ x, x = t) l).

Definition encountered_before (l : list string) (t1 t2 : string) : Prop :=
  t1 ≠ t2 ∧ ∃ p q, l = p ++ t1 :: q ∧ t2 ∉ p.

(** More frequent first, and among equally frequent ones the one
    encountered first. *)
Definition ranks_before (l : list string) (t1 t2 : string) : Prop :=
  occurrences t2 l < occurrences t1 l
  ∨ (occurrences t1 l = occurrences t2 l ∧ encountered_before l t1 t2).

(** What a [Counter] built from [l] holds: the elements of [l] once each,
    in the order they are first encountered, with their numbers of
    occurrences. *)
Record counted (c : Counter) (l : list string) : Prop := mk_counted {
  counted_keys : ∀ t, t ∈ c.*1 ↔ t ∈ l;
  counted_count : ∀ t n, (t, n) ∈ c → n = occurrences t l;
  counted_nodup : NoDup c.*1;
  counted_order : StronglySorted (encountered_before l) c.*1
}.

(** The order of a stable descending sort by count of items that were in
    the order [P]. *)
Definition count_then (P : relation string) : relation (string * nat) :=
  λ a b, b.2 < a.2 ∨ (a.2 = b.2 ∧ P a.1 b.1).

End collections.

(** ** [threat_map.py] *)

Module threat_map.

Definition coords : Type := Q * Q.

(** The [default_coords] table of [get_coordinates]. *)
Definition default_coords : gmap string coords :=
  list_to_map
    [ ("Kenya", (-1.2921, 36.8219)%Q);
      ("Global", (0, 0)%Q);
      ("USA", (37.0902, -95.7129)%Q);
      ("UK", (51.5074, -0.1278)%Q);
      ("EU", (50.8503, 4.3517)%Q);
      ("Africa", (0.0236, 37.9062)%Q);
      ("Asia", (34.0479, 100.6197)%Q);
      ("Europe", (54.5260, 15.2551)%Q);
      ("North America", (54.5260, -105.2551)%Q);
      ("South America", (-8.7832, -55.4915)%Q);
      ("Australia", (-25.2744, 133.7751)%Q) ].

(** What one [geolocator.geocode(region)] call can do. *)
Inductive geocode_outcome :=
| Located (latitude longitude : Q)
| NoLocation
| GeocoderRateLimited
| GeocoderTimedOut
| GeocoderUnavailable
| Unexpected.

(** The effects of [get_coordinates] on the outside world. *)
Inductive effect :=
| Sleep (seconds : nat)
| Geocode (region : string).

Definition global_fallback : coords := default (0, 0)%Q (default_coords !! "Global").

(** The body of [get_coordinates], below the [lru_cache] decorator: the
    coordinates returned and the external effects performed, in order. *)
Definition get_coordinates_body (geocode : string → geocode_outcome)
    (region : string) : coords * list effect :=
  match default_coords !! region with
  | Some c => (c, [])
  | None =>
      match geocode region with
      | Located lat lon => ((lat, lon), [Sleep 1; Geocode region])
      | NoLocation => (global_fallback, [Sleep 1; Geocode region])
      | GeocoderRateLimited => (global_fallback, [Sleep 1; Geocode region; Sleep 2])
      | GeocoderTimedOut | GeocoderUnavailable | Unexpected =>
          (global_fallback, [Sleep 1; Geocode region])
      end
  end.

(** [functools.lru_cache(maxsize=128)]: entries most recently used first. *)
Definition maxsize : nat := 128.

Definition lru := list (string * coords).

Fixpoint cache_get (key : string) (cache : lru) : option coords :=
  match cache with
  | [] => None
  | (k, v) :: rest => if String.eqb k key then Some v else cache_get key rest
  end.

Fixpoint cache_remove (key : string) (cache : lru) : lru :=
  match cache with
  | [] => []
  | (k, v) :: rest =>
      if String.eqb k key then cache_remove key rest else (k, v) :: cache_remove key rest
  end.

(** The decorated [get_coordinates]: a hit returns the stored pair and runs
    nothing; a miss runs the body and stores its result, evicting the least
    recently used entry when the cache is full. *)
Definition get_coordinates (geocode : string → geocode_outcome)
    (cache : lru) (region : string) : coords * lru * list effect :=
  match cache_get region cache with
  | Some c => (c, (region, c) :: cache_remove region cache, [])
  | None =>
      let '(c, effects) := get_coordinates_body geocode region in
      (c, take maxsize ((region, c) :: cache), effects)
  end.

(** The cache after a history of calls, each with the geocoder behaviour of
    its moment, starting from the empty cache of a fresh process. *)
Fixpoint cache_after (history : list ((string → geocode_outcome) * string)) : lru :=
  match history with
  | [] => []
  | (geocode, region) :: earlier =>
      (get_coordinates geocode (cache_after earlier) region).1.2
  end.

(** Vocabulary of the statement about the cache: every cached pair of a
    region of the table is the table's pair. *)
Definition cache_sound (cache : lru) : Prop :=
  ∀ k v c, (k, v) ∈ cache → default_coords !! k = Some c → v = c.

(** The [severity_mapping] and [category_modifiers] tables. *)
Definition severity_mapping : gmap string Z :=
  list_to_map
    [ ("Ransomware", 5); ("Zero-day Vulnerability", 5); ("Data Breach", 4);
      ("Supply Chain Attack", 4); ("Phishing", 3); ("Social Engineering", 3);
      ("DDoS", 2); ("Insider Threat", 3); ("APT", 5); ("Malware", 4);
      ("Other", 1) ]%Z.

Definition category_modifiers : gmap string Z :=
  list_to_map
    [ ("Critical Infrastructure", 1); ("Government", 1);
      ("Healthcare", 1); ("Financial", 1) ]%Z.

(** [dict.get(key, d)] for a key that may be [None]. *)
Definition dict_get (table : gmap string Z) (key : option string) (d : Z) : Z :=
  match key with
  | Some k => default d (table !! k)
  | None => d
  end.

Definition calculate_threat_severity (threat_type category : option string) : Z :=
  let base_severity := dict_get severity_mapping threat_type 1 in
  if truthy category then
    let modifier := dict_get category_modifiers category 0 in
    Z.min 5 (base_severity + modifier)
  else base_severity.

(** The reference definition of the specification, in its words: the base
    severity is the table value, 1 outside the table; a category among the
    four sensitive ones adds 1, capped at 5. *)
Definition sensitive_categories : list string :=
  ["Critical Infrastructure"; "Government"; "Healthcare"; "Financial"].

Definition base_severity_reference (threat_type : option string) : Z :=
  match threat_type with
  | Some t => match severity_mapping !! t with Some v => v | None => 1 end
  | None => 1
  end.

Definition severity_reference (threat_type category : option string) : Z :=
  match category with
  | Some c =>
      if bool_decide (c ∈ sensitive_categories)
      then Z.min 5 (base_severity_reference threat_type + 1)
      else base_severity_reference threat_type
  | None => base_severity_reference threat_type
  end.

(** *** [create_threat_map]: what is computed for the map

    The map object and its markers belong to the rendering library; what
    follows is what the function computes and hands to it: the first pass
    over the rows, which groups the threats by region, and, for the second
    pass, the order of a region's threats and the colour and the radius of
    its marker.  A null region is the key [None]. *)

Import pandas.

(** An entry of a region's [threats] list. *)
Module Threat.
Record t := mk {
  title : option string;
  threat_type : option string;
  severity : Z;
  source : option string;
  url : option string
}.
End Threat.

(** A value of the [region_threats] dict. *)
Record region_data := mk_region_data {
  threats : list Threat.t;
  max_severity : Z;
  count : Z
}.

(** The [region_threats] dict, in insertion order. *)
Definition region_dict : Type := list (option string * region_data).

Fixpoint region_lookup (region : option string) (d : region_dict) : option region_data :=
  match d with
  | [] => None
  | (k, data) :: rest =>
      if bool_decide (k = region) then Some data else region_lookup region rest
  end.

(** [d[region] = f(d[region])] for a key that is present. *)
Fixpoint region_update (region : option string) (f : region_data → region_data)
    (d : region_dict) : region_dict :=
  match d with
  | [] => []
  | (k, data) :: rest =>
      if bool_decide (k = region) then (k, f data) :: rest
      else (k, data) :: region_update region f rest
  end.

(** [article[c]] on a row of the frame: [KeyError] when the frame has no
    such column; and [article.get(c)]. *)
Definition row_getitem (news_data : DataFrame) (article : record) (c : string)
    : outcome (option string) :=
  if has_column news_data c then Returned (mjoin (article !! c))
  else Raised (KeyError c).

Definition row_get (article : record) (c : string) : option string :=
  mjoin (article !! c).

Definition and_then {A B} (o : outcome A) (k : A → outcome B) : outcome B :=
  match o with
  | Returned a => k a
  | Raised e => Raised e
  end.

(** The updates of the dict for one article: the region gets an empty
    entry when met for the first time, then the threat is appended, the
    maximum raised and the count incremented. *)
Definition record_threat (region_threats : region_dict) (region : option string)
    (threat : Threat.t) : region_dict :=
  let region_threats :=
    match region_lookup region region_threats with
    | None => region_threats ++ [(region, mk_region_data [] 0 0)]
    | Some _ => region_threats
    end in
  region_update region
    (λ data, mk_region_data (threats data ++ [threat])
               (Z.max (max_severity data) (Threat.severity threat))
               (count data + 1))
    region_threats.

(** The body of the loop of the first pass. *)
Definition collect_row (news_data : DataFrame) (region_threats : region_dict)
    (article : record) : outcome region_dict :=
  and_then (row_getitem news_data article "region") (λ region,
  and_then (row_getitem news_data article "threat_type") (λ threat_type,
  let severity := calculate_threat_severity threat_type (row_get article "category") in
  and_then (row_getitem news_data article "title") (λ title,
  and_then (row_getitem news_data article "source") (λ source,
  and_then (row_getitem news_data article "url") (λ url,
  Returned (record_threat region_threats region
              (Threat.mk title threat_type severity source url))))))).

Fixpoint collect_rows (news_data : DataFrame) (rows : list record)
    (region_threats : region_dict) : outcome region_dict :=
  match rows with
  | [] => Returned region_threats
  | article :: rest =>
      match collect_row news_data region_threats article with
      | Returned region_threats' => collect_rows news_data rest region_threats'
      | Raised e => Raised e
      end
  end.

(** The first pass of [create_threat_map]; an empty frame gives a map
    without markers before any row is read. *)
Definition region_threats (news_data : DataFrame) : outcome region_dict :=
  if empty news_data then Returned [] else collect_rows news_data news_data [].

(** The colour and the radius of a region's marker. *)
Definition severity_colors : gmap Z string :=
  list_to_map
    [ (1, "lightgray"); (2, "blue"); (3, "orange"); (4, "red"); (5, "darkred") ]%Z.

Definition marker_color (max_severity : Z) : string :=
  default "lightgray" (severity_colors !! max_severity).

Definition marker_radius (max_severity : Z) : Z := 10 + max_severity * 2.

(** [sorted(data['threats'], key=lambda x: x['severity'], reverse=True)]: a
    stable sort, threats of equal severity keep their order. *)
Fixpoint insert_by_severity (x : Threat.t) (sorted : list Threat.t) : list Threat.t :=
  match sorted with
  | [] => [x]
  | y :: rest =>
      if (Threat.severity x <? Threat.severity y)%Z
      then y :: insert_by_severity x rest
      else x :: y :: rest
  end.

Definition sorted_by_severity (items : list Threat.t) : list Threat.t :=
  foldr insert_by_severity [] items.

(** Vocabulary of the statements about the first pass: the entry a row
    gives, the rows of a region, and the columns the pass reads by label. *)
Definition threat_of (article : record) : Threat.t :=
  Threat.mk (row_get article "title") (row_get article "threat_type")
    (calculate_threat_severity (row_get article "threat_type")
       (row_get article "category"))
    (row_get article "source") (row_get article "url").

Definition rows_of (region : option string) (rows : list record) : list record :=
  filter (λ article, row_get article "region" = region) rows.

Definition read_columns : list string :=
  ["region"; "threat_type"; "title"; "source"; "url"].

Definition total_count (d : region_dict) : Z :=
  foldr (λ data n, count data + n)%Z 0%Z d.*2.

Definition highest (severities : list Z) : Z := foldr Z.max 0%Z severities.

(** What the dict holds after the rows [rows]: every region of a row once,
    with the threats of its rows in row order, their number and their
    highest severity. *)
Record grouped (d : region_dict) (rows : list record) : Prop := mk_grouped {
  grouped_nodup : NoDup d.*1;
  grouped_keys : ∀ region,
    region ∈ d.*1 ↔ ∃ article, article ∈ rows ∧ row_get article "region" = region;
  grouped_data : ∀ region data,
    (region, data) ∈ d →
    threats data = threat_of <$> rows_of region rows
    ∧ count data = Z.of_nat (length (rows_of region rows))
    ∧ max_severity data = highest (Threat.severity <$> threats data);
  grouped_total : total_count d = Z.of_nat (length rows)
}.

(** An input for concrete runs: two rows of one region and one of
    another. *)
Definition map_row (region threat_type category : string) : record :=
  list_to_map
    [ ("region", Some region); ("threat_type", Some threat_type);
      ("category", Some category); ("title", Some "A title");
      ("source", Some "Example"); ("url", Some "https://example.test/a") ].

Definition map_batch : DataFrame :=
  [ map_row "Kenya" "Phishing" "Financial";
    map_row "Europe" "DDoS" "Privacy";
    map_row "Kenya" "Ransomware" "Healthcare" ].

Definition map_dict : region_dict :=
  match region_threats map_batch with
  | Returned d => d
  | Raised _ => []
  end.

Definition kenya_data : region_data :=
  default (mk_region_data [] 0 0) (region_lookup (Some "Kenya") map_dict).

End threat_map.

(** ** [models.py] *)

(** The two mapped classes, and the session that [get_db] yields.  The
    store behind the session is the persistence collaborator of the
    pipeline; what is taken from it is that it is transactional: the rows
    others can read are changed by a commit that succeeds, and by nothing
    else.  A primary key is the largest one in the table plus one, and one
    clock value stamps the rows of one flush; no statement depends on
    either. *)
Module models.

(** The values of the dicts that [to_dict] builds: an integer, a string or
    [None].  A [datetime] is a number of seconds; [isoformat] below is
    [datetime.isoformat]. *)
Inductive value :=
| VNone
| VInt (n : nat)
| VStr (s : string).

Definition of_int (i : option nat) : value := from_option VInt VNone i.
Definition of_str (s : option string) : value := from_option VStr VNone s.

(** A mapped object of table [news_articles].  Every attribute may be
    [None] on the Python side; the table's constraints are checked when the
    object is flushed. *)
Module NewsArticle.
Record t := mk {
  id : option nat;
  title : option string;
  url : option string;
  source : option string;
  region : option string;
  summary : option string;
  category : option string;
  created_at : option nat;
  threat_type : option string
}.

(** [self.to_dict()]: [None] has no [isoformat]. *)
Definition to_dict (isoformat : nat → string) (self : t)
    : outcome (gmap string value) :=
  match created_at self with
  | Some time =>
      Returned (list_to_map
        [ ("id", of_int (id self));
          ("title", of_str (title self));
          ("url", of_str (url self));
          ("source", of_str (source self));
          ("region", of_str (region self));
          ("summary", of_str (summary self));
          ("category", of_str (category self));
          ("threat_type", of_str (threat_type self));
          ("created_at", VStr (isoformat time)) ])
  | None => Raised AttributeError
  end.
End NewsArticle.

(** A mapped object of table [security_recommendations]. *)
Module SecurityRecommendation.
Record t := mk {
  id : option nat;
  threat_type : option string;
  recommendation : option string;
  created_at : option nat
}.

Definition to_dict (isoformat : nat → string) (self : t)
    : outcome (gmap string value) :=
  match created_at self with
  | Some time =>
      Returned (list_to_map
        [ ("id", of_int (id self));
          ("threat_type", of_str (threat_type self));
          ("recommendation", of_str (recommendation self));
          ("created_at", VStr (isoformat time)) ])
  | None => Raised AttributeError
  end.
End SecurityRecommendation.

(** The persisted store: the committed rows of the two tables. *)
Record database := mk_database {
  news_articles : list NewsArticle.t;
  security_recommendations : list SecurityRecommendation.t
}.

(** The calls made on a session, in the order they are made. *)
Inductive db_op := Query | Delete | Add | Commit | Rollback | Close.

(** A session of [SessionLocal] ([autocommit=False], [autoflush=False]):
    [committed] is the store, [view] the rows as the open transaction sees
    them, [new_articles] and [new_recommendations] the objects added and not
    yet flushed, [log] the calls made so far. *)
Record session := mk_session {
  committed : database;
  view : database;
  new_articles : list NewsArticle.t;
  new_recommendations : list SecurityRecommendation.t;
  log : list db_op
}.

(** [next(get_db())]: a fresh session on the store. *)
Definition get_db (store : database) : session :=
  mk_session store store [] [] [].

(** [ORDER BY created_at DESC]: the store returns the rows in an order of
    its choice among the descending ones; an [ordering] is that choice,
    for the rows of either table. *)
Definition ordering : Type := ∀ A : Type, (A → option nat) → list A → list A.

(** [created_at >= cutoff] in a WHERE clause: not true of NULL. *)
Definition not_before (cutoff : nat) (time : option nat) : bool :=
  match time with
  | Some t => cutoff <=? t
  | None => false
  end.

Section session.

(** [fails k] tells whether the [k]-th call made on the session fails for a
    reason of the store's own (connection lost, disk full, lock timeout);
    [now] is the value of [datetime.utcnow] when rows are written. *)
Variable fails : nat → bool.
Variable now : nat.

Definition attempt (op : db_op) : py session unit :=
  λ s, let s' := mk_session (committed s) (view s) (new_articles s)
                   (new_recommendations s) (log s ++ [op]) in
       if fails (length (log s)) then (s', Raised OperationalError)
       else (s', Returned tt).

(** [db.query(NewsArticle).filter_by(url=u).first()].  With
    [autoflush=False] the query reads the rows of the transaction and does
    not see the objects that were added and not yet flushed. *)
Definition query_first_by_url (u : option string) : py session (option NewsArticle.t) :=
  (attempt Query ;;
   s <- get ;;
   ret (List.find (λ r, bool_decide (NewsArticle.url r = u)) (news_articles (view s))))%py.

(** [db.query(NewsArticle).filter(NewsArticle.created_at >= cutoff)
       .order_by(desc(NewsArticle.created_at)).all()]. *)
Definition recent_articles (order_by_desc : ordering) (cutoff : nat)
    : py session (list NewsArticle.t) :=
  (attempt Query ;;
   s <- get ;;
   ret (order_by_desc _ NewsArticle.created_at
          (filter (λ r, not_before cutoff (NewsArticle.created_at r) = true)
             (news_articles (view s)))))%py.

(** [db.query(SecurityRecommendation)
       .order_by(desc(SecurityRecommendation.created_at)).limit(n).all()]. *)
Definition latest_recommendations (order_by_desc : ordering) (n : nat)
    : py session (list SecurityRecommendation.t) :=
  (attempt Query ;;
   s <- get ;;
   ret (take n (order_by_desc _ SecurityRecommendation.created_at
                  (security_recommendations (view s)))))%py.

(** [db.add(obj)]: the object becomes pending. *)
Definition add_article (a : NewsArticle.t) : py session unit :=
  (attempt Add ;;
   modify (λ s, mk_session (committed s) (view s) (new_articles s ++ [a])
                  (new_recommendations s) (log s)))%py.

Definition add_recommendation (r : SecurityRecommendation.t) : py session unit :=
  (attempt Add ;;
   modify (λ s, mk_session (committed s) (view s) (new_articles s)
                  (new_recommendations s ++ [r]) (log s)))%py.

(** [db.query(SecurityRecommendation).delete()]: a bulk DELETE, executed at
    once inside the open transaction. *)
Definition delete_recommendations : py session unit :=
  (attempt Delete ;;
   modify (λ s, mk_session (committed s)
                  (mk_database (news_articles (view s)) [])
                  (new_articles s) (new_recommendations s) (log s)))%py.

(** The next value of an integer primary key. *)
Definition next_id (ids : list (option nat)) : nat :=
  S (foldr (λ i m, Nat.max (default 0 i) m) 0 ids).

(** INSERT of one pending article: [title], [url] and [source] are NOT NULL,
    [url] is UNIQUE; [id] is assigned, [region] and [created_at] take their
    column defaults when they were not given. *)
Definition insert_article (rows : list NewsArticle.t) (a : NewsArticle.t)
    : outcome (list NewsArticle.t) :=
  match NewsArticle.title a, NewsArticle.url a, NewsArticle.source a with
  | Some _, Some u, Some _ =>
      if bool_decide (Some u ∈ NewsArticle.url <$> rows) then Raised IntegrityError
      else Returned (rows ++
             [NewsArticle.mk
                (Some (default (next_id (NewsArticle.id <$> rows)) (NewsArticle.id a)))
                (NewsArticle.title a) (NewsArticle.url a) (NewsArticle.source a)
                (Some (default "Global" (NewsArticle.region a)))
                (NewsArticle.summary a) (NewsArticle.category a)
                (Some (default now (NewsArticle.created_at a)))
                (NewsArticle.threat_type a)])
  | _, _, _ => Raised IntegrityError
  end.

(** INSERT of one pending recommendation: [threat_type] and
    [recommendation] are NOT NULL. *)
Definition insert_recommendation (rows : list SecurityRecommendation.t)
    (r : SecurityRecommendation.t) : outcome (list SecurityRecommendation.t) :=
  match SecurityRecommendation.threat_type r, SecurityRecommendation.recommendation r with
  | Some _, Some _ =>
      Returned (rows ++
        [SecurityRecommendation.mk
           (Some (default (next_id (SecurityRecommendation.id <$> rows))
                    (SecurityRecommendation.id r)))
           (SecurityRecommendation.threat_type r)
           (SecurityRecommendation.recommendation r)
           (Some (default now (SecurityRecommendation.created_at r)))])
  | _, _ => Raised IntegrityError
  end.

Fixpoint insert_all {A} (insert : list A → A → outcome (list A))
    (rows : list A) (pending : list A) : outcome (list A) :=
  match pending with
  | [] => Returned rows
  | x :: rest =>
      match insert rows x with
      | Returned rows' => insert_all insert rows' rest
      | Raised e => Raised e
      end
  end.

(** The flush at the start of [commit]: every pending object is inserted,
    in the order it was added. *)
Definition flush : py session unit :=
  λ s, match insert_all insert_article (news_articles (view s)) (new_articles s) with
       | Raised e => (s, Raised e)
       | Returned articles =>
           match insert_all insert_recommendation
                   (security_recommendations (view s)) (new_recommendations s) with
           | Raised e => (s, Raised e)
           | Returned recommendations =>
               (mk_session (committed s) (mk_database articles recommendations)
                  [] [] (log s), Returned tt)
           end
       end.

(** [db.commit()]: flush, then make the transaction's rows the store. *)
Definition commit : py session unit :=
  (attempt Commit ;;
   flush ;;
   modify (λ s, mk_session (view s) (view s) [] [] (log s)))%py.

(** [db.rollback()]: the transaction's changes and the pending objects are
    dropped. *)
Definition rollback : py session unit :=
  (attempt Rollback ;;
   modify (λ s, mk_session (committed s) (committed s) [] [] (log s)))%py.

(** [db.close()]: what was not committed is lost. *)
Definition close : py session unit :=
  (attempt Close ;;
   modify (λ s, mk_session (committed s) (committed s) [] [] (log s)))%py.

End session.

(** Inputs for concrete runs: a store with no row, a store that holds one
    recommendation, a store that works until its [n]-th call. *)
Definition empty_store : database := mk_database [] [].

Definition advised_store : database :=
  mk_database []
    [ SecurityRecommendation.mk (Some 1) (Some "DDoS")
        (Some "Put a rate limiter in front of the service.") (Some 0) ].

Definition fails_at (n : nat) : nat → bool := λ k, Nat.eqb k n.

(** What [ORDER BY created_at DESC] promises: the same rows, and no row
    before one that is newer.  Rows without a time may come anywhere. *)
Definition newer_first {A} (key : A → option nat) : relation A :=
  λ a b, ∀ x y, key a = Some x → key b = Some y → y ≤ x.

Record descending (order_by_desc : ordering) : Prop := mk_descending {
  descending_perm : ∀ A key (rows : list A), order_by_desc A key rows ≡ₚ rows;
  descending_sorted : ∀ A key (rows : list A),
    StronglySorted (newer_first key) (order_by_desc A key rows)
}.

(** An ordering for concrete runs: a stable sort, rows without a time
    last. *)
Fixpoint insert_newer {A} (key : A → option nat) (x : A) (sorted : list A) : list A :=
  match sorted with
  | [] => [x]
  | y :: rest =>
      if from_option S 0 (key x) <? from_option S 0 (key y)
      then y :: insert_newer key x rest
      else x :: y :: rest
  end.

Definition stable_descending : ordering :=
  λ A key rows, foldr (insert_newer key) [] rows.

End models.

(** ** [scraper.py] *)

Module scraper.

(** An entry of the registry: [{'url': ..., 'region': ...}]. *)
Record source_info := mk_source { url : string; region : string }.

(** The registry, in the order the dict is written and iterated. *)
Definition SOURCES : list (string * source_info) :=
  [ ("Krebs on Security", mk_source "https://krebsonsecurity.com" "North America");
    ("The Hacker News", mk_source "https://thehackernews.com" "Global");
    ("Bleeping Computer", mk_source "https://www.bleepingcomputer.com" "North America");
    ("Security Week", mk_source "https://www.securityweek.com" "North America");
    ("Dark Reading", mk_source "https://www.darkreading.com" "North America");
    ("Threatpost", mk_source "https://threatpost.com" "North America");
    ("CSO Online", mk_source "https://www.csoonline.com" "North America");
    ("Naked Security", mk_source "https://nakedsecurity.sophos.com" "Europe");
    ("Kenya Cybersecurity Report", mk_source "https://www.serianu.com/blog" "Kenya");
    ("Kenya Tech News", mk_source "https://techweez.com/category/security" "Kenya");
    ("Business Daily Security",
       mk_source "https://www.businessdailyafrica.com/bd/corporate/technology" "Kenya");
    ("The Standard Tech", mk_source "https://www.standardmedia.co.ke/tech" "Kenya");
    ("ZDNet Security", mk_source "https://www.zdnet.com/security" "Global");
    ("Infosecurity Magazine", mk_source "https://www.infosecurity-magazine.com" "Europe");
    ("SC Magazine", mk_source "https://www.scmagazine.com" "North America");
    ("The Register Security", mk_source "https://www.theregister.com/security" "Europe");
    ("Cyber Scoop", mk_source "https://www.cyberscoop.com" "North America");
    ("The Record", mk_source "https://therecord.media" "Global");
    ("IT Security Guru", mk_source "https://www.itsecurityguru.org" "Europe");
    ("Security Affairs", mk_source "https://securityaffairs.com" "Europe");
    ("The Stack Asia", mk_source "https://thestack.technology/category/security" "Asia");
    ("Security Brief Asia", mk_source "https://securitybrief.asia" "Asia");
    ("IT News Africa", mk_source "https://www.itnewsafrica.com/category/security" "Africa") ].

(** An attribute value of a parsed tag: a string, or a list of strings for
    a multi-valued attribute. *)
Inductive attr_value :=
| AttrStr (s : string)
| AttrList (values : list string).

(** A parsed document as the scraper sees it: the tag a title selector
    finds, with its attributes and its text; a candidate element, which
    answers [select_one]; the document, which answers [select].  A query
    may raise. *)
Record Tag := mk_tag {
  attrs : gmap string attr_value;
  text : string
}.

Record Element := mk_element {
  select_one : string → outcome (option Tag)
}.

Record Soup := mk_soup {
  select : string → outcome (list Element)
}.

(** The outside world of the scraper: [requests.get(url, timeout=10)] and
    the text of its response, the [html.parser] of [BeautifulSoup], and the
    two calls of [trafilatura]. *)
Record web := mk_web {
  requests_get : string → outcome string;
  BeautifulSoup : string → outcome Soup;
  fetch_url : string → outcome (option string);
  extract : option string → outcome (option string)
}.

(** An article dict as [scrape_source] builds it. *)
Record Article := mk_article {
  article_title : string;
  article_url : string;
  article_source : string;
  article_region : string;
  article_summary : string
}.

(** *** Whitespace

    The whitespace characters of a Python [str], by the bytes of their
    UTF-8 encoding: one byte for U+0009 to U+000D, U+001C to U+001F and
    U+0020; two bytes for U+0085 (C2 85) and U+00A0 (C2 A0); three bytes
    for U+1680 (E1 9A 80), U+2000 to U+200A (E2 80 80 to E2 80 8A), U+2028,
    U+2029 and U+202F (E2 80 A8, E2 80 A9, E2 80 AF), U+205F (E2 81 9F) and
    U+3000 (E3 80 80). *)
Definition space1 (a : Ascii.ascii) : bool :=
  let x := Ascii.N_of_ascii a in
  ((9 <=? x) && (x <=? 13) || (28 <=? x) && (x <=? 32))%N.

Definition space2 (a b : Ascii.ascii) : bool :=
  let x := Ascii.N_of_ascii a in
  let y := Ascii.N_of_ascii b in
  ((x =? 194) && ((y =? 133) || (y =? 160)))%N.

Definition space3 (a b c : Ascii.ascii) : bool :=
  let x := Ascii.N_of_ascii a in
  let y := Ascii.N_of_ascii b in
  let z := Ascii.N_of_ascii c in
  ((x =? 225) && (y =? 154) && (z =? 128)
   || (x =? 226) && (y =? 128)
      && ((128 <=? z) && (z <=? 138) || (z =? 168) || (z =? 169) || (z =? 175))
   || (x =? 226) && (y =? 129) && (z =? 159)
   || (x =? 227) && (y =? 128) && (z =? 128))%N.

(** The number of bytes of the whitespace character a string starts with,
    [0] when it starts with none. *)
Definition space_width (s : string) : nat :=
  match s with
  | String a rest =>
      if space1 a then 1
      else match rest with
           | String b rest' =>
               if space2 a b then 2
               else match rest' with
                    | String c _ => if space3 a b c then 3 else 0
                    | EmptyString => 0
                    end
           | EmptyString => 0
           end
  | EmptyString => 0
  end.

(** The character U+0020. *)
Definition space : Ascii.ascii := Ascii.ascii_of_nat 32.

(** A word that a split has read is kept when it is not empty. *)
Definition push (w : string) (ws : list string) : list string :=
  match w with
  | EmptyString => ws
  | String _ _ => w :: ws
  end.

(** [s.split()]: the maximal runs without whitespace.  [split_go inside s]
    reads [s], of which the first [inside] bytes finish a whitespace
    character, and returns the run that [s] starts with and the runs after
    it. *)
Fixpoint split_go (inside : nat) (s : string) : string * list string :=
  match s with
  | EmptyString => (EmptyString, [])
  | String a rest =>
      match inside with
      | S n => split_go n rest
      | O =>
          match space_width s with
          | S n => let (w, ws) := split_go n rest in (EmptyString, push w ws)
          | O => let (w, ws) := split_go 0 rest in (String a w, ws)
          end
      end
  end.

Definition split (s : string) : list string :=
  let (w, ws) := split_go 0 s in push w ws.

(** [s.lstrip()]. *)
Fixpoint lstrip_go (inside : nat) (s : string) : string :=
  match s with
  | EmptyString => EmptyString
  | String a rest =>
      match inside with
      | S n => lstrip_go n rest
      | O =>
          match space_width s with
          | S n => lstrip_go n rest
          | O => s
          end
      end
  end.

Definition lstrip (s : string) : string := lstrip_go 0 s.

(** [s.rstrip()]: a suffix that is all whitespace is dropped. *)
Fixpoint rstrip (s : string) : string :=
  match s with
  | EmptyString => EmptyString
  | String a rest =>
      match lstrip s with
      | EmptyString => EmptyString
      | String _ _ => String a (rstrip rest)
      end
  end.

(** [s.strip()]. *)
Definition strip (s : string) : string := rstrip (lstrip s).

Definition clean_text (text : option string) : string :=
  match text with
  | None | Some EmptyString => ""
  | Some s => String.concat " " (split s)
  end.

Definition scrape_article (w : web) (url : string) : string :=
  match fetch_url w url with
  | Raised _ => ""
  | Returned downloaded =>
      match extract w downloaded with
      | Raised _ => ""
      | Returned text => clean_text text
      end
  end.

(** What [extract_url] may be handed. *)
Inductive object :=
| ObjStr (s : string)
| ObjTag (t : Tag)
| ObjOther.

Definition extract_url (element : object) : attr_value :=
  match element with
  | ObjStr s => AttrStr s
  | ObjTag t => default (AttrStr "") (attrs t !! "href")
  | ObjOther => AttrStr ""
  end.

Definition selectors : list string :=
  ["article"; ".post"; ".article"; ".news-item"; ".story"; ".entry"].

Definition title_selectors : list string :=
  ["h1 a"; "h2 a"; "h3 a"; ".title a"; ".headline a"].

(** [e.select_one(s1) or e.select_one(s2) or ...]: a tag is always truthy,
    so the first selector that finds one wins, and the selectors after it
    are not evaluated. *)
Fixpoint select_first (e : Element) (candidates : list string) : outcome (option Tag) :=
  match candidates with
  | [] => Returned None
  | s :: rest =>
      match select_one e s with
      | Raised x => Raised x
      | Returned (Some t) => Returned (Some t)
      | Returned None => select_first e rest
      end
  end.

(** The local state of [scrape_source]: the list [articles], and, for the
    statements about the search, the selectors handed to [soup.select] so
    far. *)
Record state := mk_state {
  articles : list Article;
  consulted : list string
}.

Definition consult (selector : string) : py state unit :=
  modify (λ st, mk_state (articles st) (consulted st ++ [selector])).

Definition append (a : Article) : py state unit :=
  modify (λ st, mk_state (articles st ++ [a]) (consulted st)).

Section scrape_source.
Variable w : web.
Variable source_name : string.
Variable info : source_info.

(** The body of the loop over the matched elements. *)
Definition scrape_element (article : Element) : py state unit :=
  (title_element <- lift (select_first article title_selectors) ;;
   match title_element with
   | None => ret tt
   | Some tag =>
       match extract_url (ObjTag tag) with
       | AttrStr (String _ _ as href) =>
           let link := if String.prefix "http" href then href else url info +:+ href in
           append (mk_article (strip (text tag)) link source_name (region info)
                     (scrape_article w link))
       | _ => ret tt
       end
   end)%py.

(** The loop over the selectors, with its [break]. *)
Fixpoint scan (soup : Soup) (remaining : list string) : py state unit :=
  match remaining with
  | [] => ret tt
  | selector :: rest =>
      (consult selector ;;
       articles_elements <- lift (select soup selector) ;;
       match articles_elements with
       | [] => scan soup rest
       | _ :: _ =>
           for_each (take 5 articles_elements) scrape_element ;;
           st <- get ;;
           match articles st with
           | [] => scan soup rest
           | _ :: _ => ret tt
           end
       end)%py
  end.

(** The [try] block of [scrape_source]. *)
Definition scrape_source_try : py state unit :=
  (response <- lift (requests_get w (url info)) ;;
   soup <- lift (BeautifulSoup w response) ;;
   scan soup selectors)%py.

(** The whole body: [articles = []], the guarded block, [return articles]. *)
Definition scrape_source_run : state * outcome unit :=
  try_except scrape_source_try (λ _, ret tt) (mk_state [] []).

Definition scrape_source : list Article := articles scrape_source_run.1.

Definition selectors_consulted : list string := consulted scrape_source_run.1.

(** Vocabulary of the statements about the search: what one selector
    contributes, that is the query and the loop over at most five of the
    elements it matched. *)
Definition harvest (soup : Soup) (selector : string) : py state unit :=
  (articles_elements <- lift (select soup selector) ;;
   for_each (take 5 articles_elements) scrape_element)%py.

(** The search as the specification words it: the first selector that
    matches any element is the last one consulted. *)
Definition stops_at_first_match : Prop :=
  ∀ response soup before selector after elements,
    requests_get w (url info) = Returned response →
    BeautifulSoup w response = Returned soup →
    selectors = before ++ selector :: after →
    (∀ s, s ∈ before → select soup s = Returned []) →
    select soup selector = Returned elements → elements ≠ [] →
    selectors_consulted = before ++ [selector].

(** Failure as the specification words it: a source for which something
    raises yields the empty list. *)
Definition failure_yields_nothing : Prop :=
  (∃ e, (scrape_source_try (mk_state [] [])).2 = Raised e) →
  scrape_source = [].

End scrape_source.

(** The loop of [scrape_all_sources] over the futures, in registry order:
    each future holds the result of [scrape_source] for its source, whose
    run depends on the web only. *)
Definition collect (w : web) (sources : list (string * source_info)) : list Article :=
  fold_left
    (λ all_articles (entry : string * source_info),
       match scrape_source w entry.1 entry.2 with
       | [] => all_articles
       | found => all_articles ++ found
       end)
    sources [].

Definition scrape_all_sources (w : web) : list Article := collect w SOURCES.

(** Vocabulary of the statements about text: a string in which no
    whitespace character starts, and a word, which is such a string that is
    not empty. *)
Fixpoint space_free (s : string) : bool :=
  match s with
  | EmptyString => true
  | String _ rest => Nat.eqb (space_width s) 0 && space_free rest
  end.

Definition is_word (w : string) : Prop := w ≠ "" ∧ space_free w = true.

(** Vocabulary of the statements about provenance: an article that carries
    the name and the region of a source. *)
Definition from_source (name : string) (info : source_info) (a : Article) : Prop :=
  article_source a = name ∧ article_region a = region info.

(** Vocabulary of the statements about urls: an article whose url is not
    empty and starts with "http". *)
Definition http_url (a : Article) : Prop :=
  article_url a ≠ "" ∧ String.prefix "http" (article_url a) = true.

(** Small documents for concrete runs: a title link, an element without a
    title link, an element with one under a given title selector, an element
    whose query raises, a document given by what each selector matches, and
    a web that serves one document and no article text. *)
Definition link (href text : string) : Tag :=
  mk_tag {[ "href" := AttrStr href ]} text.

Definition untitled : Element := mk_element (λ _, Returned None).

Definition titled (title_selector : string) (tag : Tag) : Element :=
  mk_element (λ s, if String.eqb s title_selector then Returned (Some tag)
                   else Returned None).

Definition broken : Element := mk_element (λ _, Raised RuntimeError).

Definition page (matches : list (string * list Element)) : Soup :=
  mk_soup (λ s, Returned
    (default [] (snd <$> List.find (λ m, String.eqb m.1 s) matches))).

Definition serving (soup : Soup) : web :=
  mk_web (λ _, Returned "") (λ _, Returned soup)
    (λ _, Returned None) (λ _, Returned None).

Definition example_source : source_info := mk_source "https://example.test" "Global".

(** A web on which every request fails. *)
Definition offline : web :=
  mk_web (λ _, Raised RequestException) (λ _, Raised RuntimeError)
    (λ _, Raised RequestException) (λ _, Raised RuntimeError).

(** The first selector matches an element that has no title link; the
    second matches one that has. *)
Definition untitled_then_titled : Soup :=
  page [ ("article", [untitled]);
         (".post", [titled "h2 a" (link "/story" " Story ")]) ].

(** The first selector matches two elements; the first has a title link,
    the query on the second raises. *)
Definition titled_then_broken : Soup :=
  page [ ("article", [titled "h2 a" (link "/story" "Story"); broken]) ].

End scraper.

(** ** [utils.py] *)

Module utils.
Import models pandas collections.

(** [item[key]] and [item.get(key, d)] on a row dict. *)
Definition getitem (item : record) (key : string) : outcome (option string) :=
  match item !! key with
  | Some v => Returned v
  | None => Raised (KeyError key)
  end.

Definition get_default (item : record) (key : string) (d : string) : option string :=
  match item !! key with
  | Some v => v
  | None => Some d
  end.

Section save_to_db.
Variable fails : nat → bool.
Variable now : nat.

(** The body of the [for] loop of [save_to_db]. *)
Definition save_item (item : record) : py session unit :=
  (u <- lift (getitem item "url") ;;
   existing <- query_first_by_url fails u ;;
   match existing with
   | Some _ => ret tt
   | None =>
       item_title <- lift (getitem item "title") ;;
       item_url <- lift (getitem item "url") ;;
       item_source <- lift (getitem item "source") ;;
       item_summary <- lift (getitem item "summary") ;;
       add_article fails
         (NewsArticle.mk None item_title item_url item_source
            (get_default item "region" "Global")
            item_summary
            (get_default item "category" "Uncategorized")
            None
            (get_default item "threat_type" "Other"))
   end)%py.

(** [save_to_db(news_items)] on a store: the session it leaves behind (its
    [committed] field is the store afterwards) and whether it raised. *)
Definition save_to_db (news_items : list record) (store : database)
    : session * outcome unit :=
  let db := get_db store in
  try_finally
    (try_except
       (for_each news_items save_item ;; commit fails now)%py
       (λ _, rollback fails))
    (close fails)
    db.

Definition store_after_save (news_items : list record) (store : database) : database :=
  committed (save_to_db news_items store).1.

End save_to_db.

(** Vocabulary of the statements about the article table: the [url] column,
    the rows with a given url, the uniqueness of [url] in the store, an item
    that carries the fields of an article as the scraper builds it, and a
    store that works. *)
Definition urls (rows : list NewsArticle.t) : list (option string) :=
  NewsArticle.url <$> rows.

Definition with_url (u : string) (rows : list NewsArticle.t) : list NewsArticle.t :=
  filter (λ r, NewsArticle.url r = Some u) rows.

Definition url_unique (store : database) : Prop :=
  NoDup (urls (news_articles store)).

Definition is_article (item : record) : Prop :=
  (∃ t, item !! "title" = Some (Some t))
  ∧ (∃ u, item !! "url" = Some (Some u))
  ∧ (∃ s, item !! "source" = Some (Some s))
  ∧ is_Some (item !! "summary").

Definition no_faults : nat → bool := λ _, false.

(** Vocabulary of the statements about what is stored: the object that
    [save_to_db] builds from an item, the items of a batch whose url the
    rows do not have, and a row that stores an object at a given time. *)
Definition new_article (item : record) : NewsArticle.t :=
  NewsArticle.mk None (mjoin (item !! "title")) (mjoin (item !! "url"))
    (mjoin (item !! "source")) (get_default item "region" "Global")
    (mjoin (item !! "summary")) (get_default item "category" "Uncategorized")
    None (get_default item "threat_type" "Other").

Definition unknown (rows : list NewsArticle.t) (items : list record) : list record :=
  filter (λ item, mjoin (item !! "url") ∉ urls rows) items.

Record stores (now : nat) (a r : NewsArticle.t) : Prop := mk_stores {
  stores_id : is_Some (NewsArticle.id r);
  stores_title : NewsArticle.title r = NewsArticle.title a;
  stores_url : NewsArticle.url r = NewsArticle.url a;
  stores_source : NewsArticle.source r = NewsArticle.source a;
  stores_region :
    NewsArticle.region r = Some (default "Global" (NewsArticle.region a));
  stores_summary : NewsArticle.summary r = NewsArticle.summary a;
  stores_category : NewsArticle.category r = NewsArticle.category a;
  stores_created_at :
    NewsArticle.created_at r = Some (default now (NewsArticle.created_at a));
  stores_threat_type : NewsArticle.threat_type r = NewsArticle.threat_type a
}.

(** An input for concrete runs: a classified article as the pipeline hands
    it to [save_to_db]. *)
Definition example_item : record :=
  list_to_map
    [ ("title", Some "Patch now"); ("url", Some "https://example.test/patch");
      ("source", Some "Example"); ("region", Some "Global");
      ("summary", Some "A flaw was found."); ("category", Some "Vulnerability");
      ("threat_type", Some "Zero-day Vulnerability") ].

(** A second article with the url of [example_item], as another source
    that links to the same story gives it. *)
Definition example_repost : record :=
  list_to_map
    [ ("title", Some "Vendors urge patching");
      ("url", Some "https://example.test/patch");
      ("source", Some "Another Example"); ("region", Some "Europe");
      ("summary", Some "The same flaw, reported again.");
      ("category", Some "Vulnerability");
      ("threat_type", Some "Zero-day Vulnerability") ].

(** [[f(x) for x in xs]] where [f] may raise. *)
Fixpoint comprehension {A B} (f : A → outcome B) (xs : list A) : outcome (list B) :=
  match xs with
  | [] => Returned []
  | x :: rest =>
      match f x with
      | Returned y =>
          match comprehension f rest with
          | Returned ys => Returned (y :: ys)
          | Raised e => Raised e
          end
      | Raised e => Raised e
      end
  end.

(** [timedelta(hours=n)], in seconds. *)
Definition hours (n : nat) : nat := n * 3600.
Arguments hours : simpl never.

Section reading.
Variable fails : nat → bool.
Variable order_by_desc : ordering.
Variable isoformat : nat → string.

(** [datetime.utcnow()] when the function runs. *)
Variable now : nat.

(** [load_news_from_db()] on a store: the session it leaves behind and the
    frame it returns, in records orientation (the empty frame has no
    row). *)
Definition load_news_from_db (store : database)
    : session * outcome (list (gmap string value)) :=
  let db := get_db store in
  try_finally
    (try_except
       (let cutoff := now - hours 24 in
        articles <- recent_articles fails order_by_desc cutoff ;;
        match articles with
        | [] => ret []
        | _ :: _ =>
            news_data <- lift (comprehension (NewsArticle.to_dict isoformat) articles) ;;
            ret news_data
        end)%py
       (λ _, ret []))
    (close fails)
    db.

(** [get_security_recommendations()] on a store. *)
Definition get_security_recommendations (store : database)
    : session * outcome (list (gmap string value)) :=
  let db := get_db store in
  try_finally
    (try_except
       (recommendations <- latest_recommendations fails order_by_desc 3 ;;
        lift (comprehension (SecurityRecommendation.to_dict isoformat)
                recommendations))%py
       (λ _, ret []))
    (close fails)
    db.

End reading.

(** An entry [{"threat": ..., "count": ...}] of the trending list. *)
Record trending := mk_trending { threat : string; count : nat }.

Definition get_trending_threats (df : DataFrame) : outcome (list trending) :=
  if empty df then Returned []
  else
    match column df "threat_type" with
    | Raised e => Raised e
    | Returned series =>
        let threat_counts := Counter_of (dropna series) in
        Returned ((λ tc : string * nat, mk_trending tc.1 tc.2)
                    <$> most_common 3 threat_counts)
    end.

(** Vocabulary of the statement about trending threats: the non-null
    threat types of a batch, in row order (none when the frame has no such
    column). *)
Definition threat_types (df : DataFrame) : list string :=
  match column df "threat_type" with
  | Returned series => dropna series
  | Raised _ => []
  end.

End utils.

(** ** [classifier.py] *)

Module classifier.
Import models pandas collections.

(** Python values as [json.loads] builds them and as an article dict holds
    them. *)
#[local] Unset Elimination Schemes.
Inductive pyval :=
| PNone
| PBool (b : bool)
| PInt (z : Z)
| PStr (s : string)
| PList (items : list pyval)
| PDict (items : list (string * pyval)).
#[local] Set Elimination Schemes.

(** An article dict, mutated in place by [classify_article]. *)
Definition article : Type := gmap string pyval.

Definition getitem (key : string) : py article pyval :=
  λ a, match a !! key with
       | Some v => (a, Returned v)
       | None => (a, Raised (KeyError key))
       end.

Definition setitem (key : string) (v : pyval) : py article unit :=
  modify (λ a : article, <[key := v]> a).

(** [v[:n]]. *)
Definition slice_to (n : nat) (v : pyval) : outcome pyval :=
  match v with
  | PStr s => Returned (PStr (String.substring 0 n s))
  | PList items => Returned (PList (take n items))
  | _ => Raised TypeError
  end.

(** [result.get(key, d)]: only a dict has [get]. *)
Definition result_get (result : pyval) (key : string) (d : pyval) : outcome pyval :=
  match result with
  | PDict items =>
      Returned (default d (snd <$> List.find (λ kv, String.eqb kv.1 key) items))
  | _ => Raised AttributeError
  end.

Definition nl : string := String (Ascii.ascii_of_nat 10) "".
Definition dq : string := String (Ascii.ascii_of_nat 34) "".

(** A request to [client.chat.completions.create]. *)
Record chat_request := mk_request {
  model : string;
  content : string;
  response_format : option string
}.

Section inference.

(** The inference service: [create request] is what the call does, the text
    of [response.choices[0].message.content] (possibly [None]) or an
    exception.  [json_loads] is [json.loads] and [str] is the text an
    f-string inserts for a value that is not a string. *)
Variable create : chat_request → outcome (option string).
Variable json_loads : string → outcome pyval.
Variable str : pyval → string.

Definition format (v : pyval) : string :=
  match v with
  | PStr s => s
  | _ => str v
  end.

Definition classification_prompt (title content : pyval) : string :=
  String.concat nl
    [ "";
      "        Title: " +:+ format title;
      "        Content: " +:+ format content;
      "";
      "        Classify this cybersecurity news article into these categories and identify the main threat type.";
      "        Return the response as a JSON object with format:";
      "        {";
      "            " +:+ dq +:+ "category" +:+ dq +:+ ": " +:+ dq +:+ "category_name" +:+ dq +:+ ",";
      "            " +:+ dq +:+ "threat_type" +:+ dq +:+ ": " +:+ dq +:+ "main_threat_type" +:+ dq;
      "        }";
      "";
      "        Categories:";
      "        - Malware & Threats";
      "        - Data Breach";
      "        - Vulnerability";
      "        - Privacy";
      "        - Security Research";
      "        - Industry News";
      "";
      "        Threat Types:";
      "        - Phishing";
      "        - Ransomware";
      "        - Data Breach";
      "        - Social Engineering";
      "        - Zero-day Vulnerability";
      "        - Supply Chain Attack";
      "        - DDoS";
      "        - Insider Threat";
      "        - Other";
      "        " ].

(** [json.loads(response.choices[0].message.content)]. *)
Definition parse_content (content : option string) : outcome pyval :=
  match content with
  | Some text => json_loads text
  | None => Raised TypeError
  end.

(** The [try] block of [classify_article]. *)
Definition classify_article_try : py article article :=
  (title <- getitem "title" ;;
   summary <- getitem "summary" ;;
   head <- lift (slice_to 1000 summary) ;;
   let prompt := classification_prompt title head in
   response <- lift (create (mk_request "gpt-3.5-turbo" prompt (Some "json_object"))) ;;
   result <- lift (parse_content response) ;;
   category <- lift (result_get result "category" (PStr "Uncategorized")) ;;
   setitem "category" category ;;
   threat_type <- lift (result_get result "threat_type" (PStr "Other")) ;;
   setitem "threat_type" threat_type ;;
   get)%py.

(** The [except Exception] block of [classify_article]. *)
Definition classify_article_except : py article article :=
  (setitem "category" (PStr "Uncategorized") ;;
   setitem "threat_type" (PStr "Other") ;;
   get)%py.

Definition classify_article : py article article :=
  try_except classify_article_try (λ _, classify_article_except).

(** Vocabulary of the statements: the article with the two fallback
    fields. *)
Definition uncategorized (a : article) : article :=
  <["threat_type" := PStr "Other"]> (<["category" := PStr "Uncategorized"]> a).

Definition classification_request (title head : pyval) : chat_request :=
  mk_request "gpt-3.5-turbo" (classification_prompt title head) (Some "json_object").

Definition recommendation_prompt (threat_type : string) : string :=
  String.concat nl
    [ "";
      "        Generate practical cybersecurity recommendations to protect against "
        +:+ threat_type +:+ " attacks.";
      "        Focus on actionable steps that both individuals and organizations can take.";
      "        Keep it concise but comprehensive (3-5 bullet points).";
      "        " ].

Definition standard_measures (threat_type : string) : string :=
  String.concat nl
    [ "Standard protection measures against " +:+ threat_type +:+ ":";
      "- Use strong passwords";
      "- Enable two-factor authentication";
      "- Keep systems updated";
      "- Use antivirus software" ].

Definition generate_recommendations (threat_type : string) : option string :=
  match create (mk_request "gpt-3.5-turbo" (recommendation_prompt threat_type) None) with
  | Returned text => text
  | Raised _ => Some (standard_measures threat_type)
  end.

Variable fails : nat → bool.
Variable now : nat.

(** The object built for one top threat. *)
Definition new_rec (threat : string) : SecurityRecommendation.t :=
  let recommendation := generate_recommendations threat in
  SecurityRecommendation.mk None (Some threat) recommendation None.

(** The inner [try] block of [update_recommendations]: the replacement. *)
Definition replace_recommendations (top_threats : list string) : py session unit :=
  (delete_recommendations fails ;;
   for_each top_threats (λ threat, add_recommendation fails (new_rec threat)) ;;
   commit fails now)%py.

(** [update_recommendations(articles_df)] on a store: the store afterwards
    and the calls that were made on a session, in order. *)
Definition update_recommendations (articles_df : DataFrame) (store : database)
    : database * list db_op :=
  if empty articles_df then (store, [])
  else
    match column articles_df "threat_type" with
    | Raised _ => (store, [])
    | Returned series =>
        let threat_counts := Counter_of (dropna series) in
        let top_threats := fst <$> most_common 3 threat_counts in
        match top_threats with
        | [] => (store, [])
        | _ :: _ =>
            let db := get_db store in
            let db' :=
              (try_except
                 (try_finally
                    (try_except (replace_recommendations top_threats)
                       (λ _, rollback fails))
                    (close fails))
                 (λ _, ret tt) db).1 in
            (committed db', log db')
        end
    end.

End inference.

(** Vocabulary of the statements: the top threats of a batch (none when the
    frame has no [threat_type] column), and the calls that write. *)
Definition top_threats (articles_df : DataFrame) : list string :=
  match column articles_df "threat_type" with
  | Returned series => fst <$> most_common 3 (Counter_of (dropna series))
  | Raised _ => []
  end.

Definition writes (op : db_op) : bool :=
  match op with
  | Delete | Add | Commit => true
  | Query | Rollback | Close => false
  end.

(** Inputs for concrete runs: an inference service that cannot be reached,
    one that answers every request with the same text, a parser that rejects
    everything, a formatter, and a scraped article. *)
Definition unreachable : chat_request → outcome (option string) :=
  λ _, Raised RequestException.

Definition answering (text : string) : chat_request → outcome (option string) :=
  λ _, Returned (Some text).

Definition rejecting : string → outcome pyval := λ _, Raised JSONDecodeError.

Definition blank : pyval → string := λ _, "".

Definition example_article : article :=
  <["title" := PStr "Patch now"]> (<["summary" := PStr "A flaw was found."]> ∅).

End classifier.

(** * Properties *)

(** ** Severity scoring *)

Section severity.
Import threat_map.

Lemma severity_mapping_range t v :
  severity_mapping !! t = Some v → (1 ≤ v ≤ 5)%Z.
Proof.
  intros H. apply elem_of_list_to_map_2 in H.
  repeat (apply elem_of_cons in H as [H|H]; [injection H as _ ->; lia|]).
  by apply elem_of_nil in H.
Qed.

Lemma base_severity_range t : (1 ≤ dict_get severity_mapping t 1 ≤ 5)%Z.
Proof.
  destruct t as [t|]; simpl; [|lia].
  destruct (severity_mapping !! t) as [v|] eqn:E; simpl; [|lia].
  by eapply severity_mapping_range.
Qed.

Lemma category_modifiers_lookup c :
  category_modifiers !! c =
  if bool_decide (c ∈ sensitive_categories) then Some 1%Z else None.
Proof.
  unfold category_modifiers, sensitive_categories. simpl.
  case_bool_decide as Hin.
  - repeat (apply elem_of_cons in Hin as [->|Hin]; [by simplify_map_eq|]).
    by apply elem_of_nil in Hin.
  - rewrite !lookup_insert_ne; [done|..]; intros <-; apply Hin; set_solver.
Qed.

Lemma sensitive_truthy c : c ∈ sensitive_categories → truthy (Some c) = true.
Proof.
  unfold sensitive_categories. intros Hin.
  repeat (apply elem_of_cons in Hin as [->|Hin]; [done|]).
  by apply elem_of_nil in Hin.
Qed.

(** C2. [calculate_threat_severity] is the reference definition of the
    specification (table value, 1 outside the table, plus 1 capped at 5 for
    the four sensitive categories); so every result lies in [1,5], a threat
    type outside the table scores 1 on its own, and Ransomware in Healthcare
    scores 5. *)
Theorem calculate_threat_severity_reference :
  (∀ threat_type category,
     calculate_threat_severity threat_type category
     = severity_reference threat_type category)
  ∧ (∀ threat_type category,
       (1 ≤ calculate_threat_severity threat_type category ≤ 5)%Z)
  ∧ (∀ t, severity_mapping !! t = None →
          base_severity_reference (Some t) = 1%Z
          ∧ calculate_threat_severity (Some t) None = 1%Z)
  ∧ calculate_threat_severity (Some "Ransomware") (Some "Healthcare") = 5%Z.
Proof.
  split_and!.
  - intros t c. unfold calculate_threat_severity, severity_reference.
    assert (dict_get severity_mapping t 1 = base_severity_reference t) as <-.
    { destruct t as [t|]; simpl; [|done]. by destruct (severity_mapping !! t). }
    pose proof (base_severity_range t) as Hb.
    destruct c as [c|]; [|done].
    cbn [dict_get]. rewrite category_modifiers_lookup.
    case_bool_decide as Hin.
    + by rewrite (sensitive_truthy c Hin).
    + destruct (truthy (Some c)); simpl; lia.
  - intros t c. unfold calculate_threat_severity.
    pose proof (base_severity_range t) as Hb.
    destruct (truthy c); [|done].
    destruct c as [c|]; cbn [dict_get]; [|lia].
    rewrite category_modifiers_lookup. case_bool_decide; simpl; lia.
  - intros t Ht. unfold calculate_threat_severity. simpl. by rewrite Ht.
  - done.
Qed.

(** The third part of the statement is not vacuous: a threat type the
    classifier was never told about is outside the table. *)
Lemma calculate_threat_severity_reference_witness :
  severity_mapping !! "Cryptojacking" = None
  ∧ base_severity_reference (Some "Cryptojacking") = 1%Z
  ∧ calculate_threat_severity (Some "Cryptojacking") None = 1%Z.
Proof.
  split; [reflexivity|].
  apply (proj1 (proj2 (proj2 calculate_threat_severity_reference))).
  reflexivity.
Defined.

End severity.

(** ** Coordinate lookup *)

Section coordinates.
Import threat_map.

Lemma cache_get_elem key cache v : cache_get key cache = Some v → (key, v) ∈ cache.
Proof.
  induction cache as [|[k w] rest IH]; simpl; [done|].
  destruct (String.eqb k key) eqn:E.
  - apply String.eqb_eq in E as ->. intros Hv. simplify_eq. left.
  - intros Hv. right. auto.
Qed.

Lemma cache_remove_subseteq key cache : cache_remove key cache ⊆ cache.
Proof.
  induction cache as [|[k w] rest IH]; simpl; [done|].
  destruct (String.eqb k key).
  - intros x Hx. right. by apply IH.
  - intros x [->|Hx]%elem_of_cons; [left|right; by apply IH].
Qed.

Lemma get_coordinates_body_table geocode region c :
  default_coords !! region = Some c →
  get_coordinates_body geocode region = (c, []).
Proof. intros H. unfold get_coordinates_body. by rewrite H. Qed.

Lemma get_coordinates_sound geocode cache region :
  cache_sound cache → cache_sound (get_coordinates geocode cache region).1.2.
Proof.
  intros Hs k v c. unfold get_coordinates.
  destruct (cache_get region cache) as [w|] eqn:Hget; simpl.
  - intros [Heq|Hin]%elem_of_cons Hk.
    + simplify_eq. eapply Hs; [by apply cache_get_elem|done].
    + eapply Hs; [|done]. by eapply cache_remove_subseteq.
  - destruct (get_coordinates_body geocode region) as [w effects] eqn:Hbody. simpl.
    intros Hin Hk. apply elem_of_cons in Hin as [Heq|Hin].
    + simplify_eq. rewrite (get_coordinates_body_table _ _ _ Hk) in Hbody. congruence.
    + eapply Hs; [|done]. by eapply subseteq_take.
Qed.

Lemma cache_after_sound history : cache_sound (cache_after history).
Proof.
  induction history as [|[geocode region] earlier IH]; simpl.
  - intros k v c Hin. by apply elem_of_nil in Hin.
  - by apply get_coordinates_sound.
Qed.

(** C9. Whatever was looked up before in the process and whatever the
    geocoder would answer, [get_coordinates "Kenya"] returns the pair
    (-1.2921, 36.8219) of the built-in table and performs no external
    effect: no geocoding call and no delay. *)
Theorem get_coordinates_Kenya history geocode :
  (get_coordinates geocode (cache_after history) "Kenya").1.1 = (-1.2921, 36.8219)%Q
  ∧ (get_coordinates geocode (cache_after history) "Kenya").2 = []
  ∧ get_coordinates_body geocode "Kenya" = ((-1.2921, 36.8219)%Q, []).
Proof.
  assert (default_coords !! "Kenya" = Some (-1.2921, 36.8219)%Q) as Hk by reflexivity.
  split_and!; [| |by apply get_coordinates_body_table].
  - unfold get_coordinates.
    destruct (cache_get "Kenya" (cache_after history)) as [w|] eqn:Hget; simpl.
    + eapply cache_after_sound; [by apply cache_get_elem|done].
    + by rewrite (get_coordinates_body_table _ _ _ Hk).
  - unfold get_coordinates.
    destruct (cache_get "Kenya" (cache_after history)) as [w|] eqn:Hget; simpl; [done|].
    by rewrite (get_coordinates_body_table _ _ _ Hk).
Qed.

End coordinates.

(** ** Sessions: what can change the store *)

Section sessions.
Import models.
Variable fails : nat → bool.
Variable now : nat.

Lemma attempt_frame op s :
  committed (attempt fails op s).1 = committed s
  ∧ view (attempt fails op s).1 = view s
  ∧ new_articles (attempt fails op s).1 = new_articles s
  ∧ new_recommendations (attempt fails op s).1 = new_recommendations s
  ∧ log (attempt fails op s).1 = log s ++ [op].
Proof. unfold attempt. by destruct (fails _). Qed.

Lemma attempt_outcome op s :
  (attempt fails op s).2 =
  if fails (length (log s)) then Raised OperationalError else Returned tt.
Proof. unfold attempt. by destruct (fails _). Qed.

Lemma rollback_committed s : committed (rollback fails s).1 = committed s.
Proof.
  unfold rollback. run_py.
  destruct (attempt fails Rollback s) as [s' [[]|e]] eqn:E; simpl;
    by rewrite <- (proj1 (attempt_frame Rollback s)), E.
Qed.

Lemma close_committed s : committed (close fails s).1 = committed s.
Proof.
  unfold close. run_py.
  destruct (attempt fails Close s) as [s' [[]|e]] eqn:E; simpl;
    by rewrite <- (proj1 (attempt_frame Close s)), E.
Qed.

(** A commit either succeeds, and the store becomes the rows of the
    transaction with every pending object inserted, or raises, and the store
    is as it was. *)
Lemma commit_cases s :
  (∃ articles recommendations,
      (commit fails now s).2 = Returned tt
      ∧ fails (length (log s)) = false
      ∧ insert_all (insert_article now) (news_articles (view s)) (new_articles s)
        = Returned articles
      ∧ insert_all (insert_recommendation now)
          (security_recommendations (view s)) (new_recommendations s)
        = Returned recommendations
      ∧ committed (commit fails now s).1 = mk_database articles recommendations)
  ∨ ((∃ e, (commit fails now s).2 = Raised e)
     ∧ committed (commit fails now s).1 = committed s).
Proof.
  unfold commit, flush, attempt. run_py.
  destruct (fails (length (log s))); simpl; [right; eauto|].
  destruct (insert_all (insert_article now) _ _) as [articles|e] eqn:Ea; simpl;
    [|right; eauto].
  destruct (insert_all (insert_recommendation now) _ _) as [recs|e] eqn:Er; simpl;
    [|right; eauto].
  left. by exists articles, recs.
Qed.

(** Guarded by [except: rollback] and [finally: close], a block leaves the
    store it reached: nothing after the block writes to it. *)
Lemma guarded_committed (body : py session unit) s :
  committed
    (try_finally (try_except body (λ _, rollback fails)) (close fails) s).1
  = committed (body s).1.
Proof.
  unfold try_finally, try_except.
  destruct (body s) as [s1 [[]|e]]; simpl.
  - destruct (close fails s1) as [s2 [[]|e2]] eqn:E; simpl;
      by rewrite <- (close_committed s1), E.
  - destruct (rollback fails s1) as [s2 [[]|e2]] eqn:E2; simpl;
      (destruct (close fails s2) as [s3 [[]|e3]] eqn:E3; simpl;
       rewrite <- (rollback_committed s1), E2; simpl;
       by rewrite <- (close_committed s2), E3).
Qed.

Lemma insert_all_nil {A} (insert : list A → A → outcome (list A)) rows :
  insert_all insert rows [] = Returned rows.
Proof. done. Qed.

End sessions.

(** ** Saving articles *)

Section saving.
Import models pandas utils.

Lemma insert_article_cases now rows a rows' :
  insert_article now rows a = Returned rows' →
  ∃ r, rows' = rows ++ [r]
       ∧ NewsArticle.url r = NewsArticle.url a
       ∧ NewsArticle.url r ∉ urls rows.
Proof.
  unfold insert_article.
  destruct (NewsArticle.title a), (NewsArticle.url a) as [u|] eqn:Hu,
    (NewsArticle.source a); try done.
  case_bool_decide as Hin; [done|]. intros Hr. simplify_eq.
  eexists. split; [done|]. by simpl.
Qed.

(** Flushing pending articles only appends rows, none of which has a url
    that a row before it has. *)
Lemma insert_all_articles now pending : ∀ rows rows',
  insert_all (insert_article now) rows pending = Returned rows' →
  ∃ added, rows' = rows ++ added
           ∧ (∀ r, r ∈ added → NewsArticle.url r ∉ urls rows)
           ∧ (NoDup (urls rows) → NoDup (urls rows')).
Proof.
  induction pending as [|a pending IH]; intros rows rows'; simpl.
  - intros ?; simplify_eq. exists []. rewrite app_nil_r. set_solver.
  - destruct (insert_article now rows a) as [rows1|] eqn:E1; [|done].
    apply insert_article_cases in E1 as (r & -> & Hurl & Hfresh).
    intros (added & -> & Hadded & Hnd)%IH.
    exists (r :: added). split; [by rewrite <- app_assoc|]. split.
    + intros r' [->|Hr']%elem_of_cons; [done|].
      intros Hin. apply (Hadded r' Hr'). unfold urls. rewrite fmap_app.
      apply elem_of_app. by left.
    + intros Hrows. apply Hnd. unfold urls. rewrite fmap_app. simpl.
      apply NoDup_app. split; [done|]. split.
      * intros x Hx [->|[]%elem_of_nil]%elem_of_cons. done.
      * apply NoDup_singleton.
Qed.

Lemma with_url_app u rows added :
  with_url u (rows ++ added) = with_url u rows ++ with_url u added.
Proof. apply filter_app. Qed.

Lemma with_url_fresh u rows :
  (∀ r, r ∈ rows → NewsArticle.url r ≠ Some u) → with_url u rows = [].
Proof.
  intros H. unfold with_url. induction rows as [|r rows IH]; [done|].
  rewrite filter_cons_False; [|apply H; left].
  apply IH. intros r' Hr'. apply H. by right.
Qed.

Lemma with_url_unique u rows :
  NoDup (urls rows) → Some u ∈ urls rows → length (with_url u rows) = 1.
Proof.
  unfold urls, with_url. induction rows as [|r rows IH]; simpl.
  - by intros _ ?%elem_of_nil.
  - intros [Hr Hnd]%NoDup_cons Hin.
    destruct (decide (NewsArticle.url r = Some u)) as [Heq|Hne].
    + rewrite filter_cons_True by done. simpl. f_equal.
      fold (with_url u rows). rewrite with_url_fresh; [done|].
      intros r' Hr' Heq'. apply Hr. rewrite Heq, <- Heq'.
      by apply list_elem_of_fmap_2.
    + rewrite filter_cons_False by done. apply IH; [done|].
      by apply elem_of_cons in Hin as [?|?].
Qed.

Section with_faults.
Variable fails : nat → bool.
Variable now : nat.

Lemma save_item_frame item s :
  committed (save_item fails item s).1 = committed s
  ∧ view (save_item fails item s).1 = view s
  ∧ new_recommendations (save_item fails item s).1 = new_recommendations s.
Proof.
  unfold save_item, query_first_by_url, add_article, bind, lift, ret, get, modify.
  destruct (getitem item "url") as [u|]; [|done].
  pose proof (attempt_frame fails Query s) as (Hc & Hv & _ & Hr & _).
  destruct (attempt fails Query s) as [s1 [[]|]]; simpl in *; [|done].
  destruct (List.find _ _); [done|].
  destruct (getitem item "title"); [|done].
  destruct (getitem item "source"); [|done].
  destruct (getitem item "summary"); [|done].
  pose proof (attempt_frame fails Add s1) as (Hc' & Hv' & _ & Hr' & _).
  destruct (attempt fails Add s1) as [s2 [[]|]]; simpl in *; split_and!; congruence.
Qed.

Lemma save_items_frame items : ∀ s,
  committed (for_each items (save_item fails) s).1 = committed s
  ∧ view (for_each items (save_item fails) s).1 = view s
  ∧ new_recommendations (for_each items (save_item fails) s).1 = new_recommendations s.
Proof.
  induction items as [|item items IH]; intros s; simpl; [done|].
  unfold bind. pose proof (save_item_frame item s) as (Hc & Hv & Hr).
  destruct (save_item fails item s) as [s1 [[]|]]; simpl in *; [|done].
  destruct (IH s1) as (Hc' & Hv' & Hr'). split_and!; congruence.
Qed.

(** Whatever the batch and whatever fails, the store after [save_to_db] is
    the store before, or the store before with the pending articles of the
    batch flushed into it. *)
Lemma save_to_db_store items store :
  store_after_save fails now items store = store
  ∨ ∃ pending articles,
      insert_all (insert_article now) (news_articles store) pending = Returned articles
      ∧ store_after_save fails now items store
        = mk_database articles (security_recommendations store).
Proof.
  unfold store_after_save, save_to_db. rewrite guarded_committed.
  unfold bind.
  pose proof (save_items_frame items (get_db store)) as (Hc & Hv & Hr).
  destruct (for_each items (save_item fails) (get_db store)) as [s1 [[]|]];
    simpl in *; [|by left].
  destruct (commit_cases fails now s1) as
    [(articles & recs & _ & _ & Ha & Hrec & ->)|[_ ->]]; [|by left].
  right. exists (new_articles s1), articles.
  rewrite Hv in Ha, Hrec. rewrite Hr in Hrec. simpl in Hrec. by simplify_eq.
Qed.

Lemma save_to_db_existing items store u :
  Some u ∈ urls (news_articles store) →
  with_url u (news_articles (store_after_save fails now items store))
  = with_url u (news_articles store).
Proof.
  intros Hin. destruct (save_to_db_store items store)
    as [->|(pending & articles & Hflush & ->)]; [done|]. simpl.
  apply insert_all_articles in Hflush as (added & -> & Hadded & _).
  rewrite with_url_app, (with_url_fresh u added), app_nil_r; [done|].
  intros r Hr Heq. apply (Hadded r Hr). by rewrite Heq.
Qed.

Lemma save_to_db_unique items store :
  url_unique store → url_unique (store_after_save fails now items store).
Proof.
  intros Hu. destruct (save_to_db_store items store)
    as [->|(pending & articles & Hflush & ->)]; [done|].
  apply insert_all_articles in Hflush as (added & -> & _ & Hnd).
  by apply Hnd.
Qed.

Lemma save_to_db_keeps_url items store u :
  Some u ∈ urls (news_articles store) →
  Some u ∈ urls (news_articles (store_after_save fails now items store)).
Proof.
  intros Hin. destruct (save_to_db_store items store)
    as [->|(pending & articles & Hflush & ->)]; [done|].
  apply insert_all_articles in Hflush as (added & -> & _ & _). simpl.
  unfold urls. rewrite fmap_app. apply elem_of_app. by left.
Qed.

End with_faults.

(** On a store that works, saving one article whose url is new adds one row
    with that url. *)
Lemma save_new_article now item u store :
  is_article item → item !! "url" = Some (Some u) →
  Some u ∉ urls (news_articles store) →
  ∃ r, NewsArticle.url r = Some u
       ∧ news_articles (store_after_save no_faults now [item] store)
         = news_articles store ++ [r].
Proof.
  intros ((t & Ht) & _ & (src & Hs) & (sm & Hsm)) Hu Hfresh.
  unfold store_after_save, save_to_db. rewrite guarded_committed.
  unfold for_each, save_item, query_first_by_url, add_article, commit, flush,
    attempt, no_faults, getitem, bind, lift, ret, get, modify. simpl.
  rewrite Hu, Ht, Hs, Hsm. simpl.
  destruct (List.find _ _) as [r|] eqn:Hfind.
  { apply find_some in Hfind as [Hr Heq]. apply bool_decide_eq_true in Heq.
    exfalso. apply Hfresh. rewrite <- Heq. apply list_elem_of_fmap_2.
    by apply list_elem_of_In. }
  simpl. unfold insert_article. simpl.
  rewrite bool_decide_eq_false_2 by done. simpl.
  eexists. split; [|done]. done.
Qed.

(** On a store that works, what [save_to_db] stores is decided by its loop
    and by the flush of what the loop left pending. *)
Lemma save_to_db_working now items store :
  store_after_save no_faults now items store
  = match for_each items (save_item no_faults) (get_db store) with
    | (db, Returned _) =>
        match insert_all (insert_article now) (news_articles store)
                (new_articles db) with
        | Returned articles => mk_database articles (security_recommendations store)
        | Raised _ => store
        end
    | (_, Raised _) => store
    end.
Proof.
  unfold store_after_save, save_to_db. rewrite guarded_committed. unfold bind.
  pose proof (save_items_frame no_faults items (get_db store)) as (Hc & Hv & Hr).
  destruct (for_each items (save_item no_faults) (get_db store)) as [s1 [[]|e]];
    simpl in *; [|done].
  unfold commit, flush, attempt, bind, modify, no_faults. simpl.
  rewrite Hv, Hr. simpl.
  by destruct (insert_all (insert_article now) _ _).
Qed.

Lemma insert_all_urls now pending : ∀ rows rows',
  insert_all (insert_article now) rows pending = Returned rows' →
  urls rows' = urls rows ++ (NewsArticle.url <$> pending).
Proof.
  induction pending as [|a pending IH]; intros rows rows'; simpl.
  - intros ?; simplify_eq. by rewrite app_nil_r.
  - destruct (insert_article now rows a) as [rows1|] eqn:E1; [|done].
    apply insert_article_cases in E1 as (r & -> & Hurl & _).
    intros ->%IH. unfold urls. rewrite fmap_app, <- app_assoc. simpl.
    by rewrite Hurl.
Qed.

(** Whether a flush succeeds does not depend on the clock. *)
Lemma insert_all_clock now1 now2 pending : ∀ rows1 rows2,
  urls rows1 = urls rows2 →
  is_raised (insert_all (insert_article now1) rows1 pending)
  = is_raised (insert_all (insert_article now2) rows2 pending).
Proof.
  induction pending as [|a pending IH]; intros rows1 rows2 Hurls; simpl; [done|].
  destruct (insert_article now1 rows1 a) as [rows1'|] eqn:E1;
    destruct (insert_article now2 rows2 a) as [rows2'|] eqn:E2.
  - apply IH.
    apply insert_article_cases in E1 as (r1 & -> & Hr1 & _).
    apply insert_article_cases in E2 as (r2 & -> & Hr2 & _).
    unfold urls in *. rewrite !fmap_app, Hurls. simpl. by rewrite Hr1, Hr2.
  - exfalso. revert E1 E2. unfold insert_article. fold (urls rows1) (urls rows2).
    rewrite Hurls. by repeat case_match.
  - exfalso. revert E1 E2. unfold insert_article. fold (urls rows1) (urls rows2).
    rewrite Hurls. by repeat case_match.
  - done.
Qed.

Lemma find_by_url (u : option string) rows :
  u ∈ urls rows →
  ∃ r, List.find (λ r, bool_decide (NewsArticle.url r = u)) rows = Some r.
Proof.
  intros (r & -> & Hr)%list_elem_of_fmap.
  destruct (List.find _ rows) as [r'|] eqn:E; [by eexists|].
  apply list_elem_of_In in Hr.
  pose proof (find_none _ _ E r Hr) as Hnone. simpl in Hnone.
  by rewrite bool_decide_eq_true_2 in Hnone.
Qed.

(** When the loop completes on a store that works, every item of the batch
    has a url that the transaction already had or that an object left
    pending has. *)
Lemma save_items_pending items : ∀ s s',
  for_each items (save_item no_faults) s = (s', Returned tt) →
  ∃ added,
    new_articles s' = new_articles s ++ added
    ∧ ∀ item, item ∈ items →
        ∃ u, item !! "url" = Some u
             ∧ (u ∈ urls (news_articles (view s))
                ∨ u ∈ NewsArticle.url <$> added).
Proof.
  induction items as [|item items IH]; intros s s'; simpl.
  - unfold ret. intros ?; simplify_eq. exists []. rewrite app_nil_r.
    split; [done|]. by intros item ?%elem_of_nil.
  - unfold bind at 1.
    destruct (save_item no_faults item s) as [s1 [[]|e]] eqn:Hitem; [|done].
    intros (added & Hadded & Hitems)%IH.
    revert Hitem.
    unfold save_item, query_first_by_url, add_article, attempt, no_faults,
      getitem, bind, lift, ret, get, modify. simpl.
    destruct (item !! "url") as [u|] eqn:Hu; [|done]. simpl.
    destruct (List.find _ _) as [r|] eqn:Hfind.
    + intros ?; simplify_eq. simpl in *. exists added. split; [done|].
      intros item' [->|Hin]%elem_of_cons; [|by apply Hitems].
      exists u. split; [done|]. left.
      apply find_some in Hfind as [Hr Heq]. apply bool_decide_eq_true in Heq.
      rewrite <- Heq. apply list_elem_of_fmap_2. by apply list_elem_of_In.
    + destruct (item !! "title"); [|done]. destruct (item !! "source"); [|done].
      destruct (item !! "summary"); [|done]. simpl.
      intros ?; simplify_eq. simpl in *.
      eexists (_ :: added). split; [by rewrite Hadded, <- app_assoc|].
      intros item' [->|Hin]%elem_of_cons.
      * exists u. split; [done|]. right. simpl. left.
      * destruct (Hitems item' Hin) as (u' & Hu' & [?|?]);
          exists u'; (split; [done|]); [by left|right; by right].
Qed.

(** When the transaction already has the url of every item, the loop
    completes and leaves nothing pending. *)
Lemma save_items_known items : ∀ s,
  (∀ item, item ∈ items →
     ∃ u, item !! "url" = Some u ∧ u ∈ urls (news_articles (view s))) →
  ∃ s', for_each items (save_item no_faults) s = (s', Returned tt)
        ∧ new_articles s' = new_articles s.
Proof.
  induction items as [|item items IH]; intros s Hknown; simpl.
  - by exists s.
  - destruct (Hknown item) as (u & Hu & Hin); [left|].
    destruct (find_by_url u _ Hin) as [r Hfind].
    unfold bind at 1.
    unfold save_item, query_first_by_url, attempt, no_faults,
      getitem, bind, lift, ret, get, modify. simpl.
    rewrite Hu. simpl. rewrite Hfind.
    apply (IH (mk_session (committed s) (view s) (new_articles s)
                 (new_recommendations s) (log s ++ [Query]))).
    intros item' Hitem'. apply Hknown. by right.
Qed.

Lemma save_to_db_idempotent now1 now2 items store :
  store_after_save no_faults now2 items (store_after_save no_faults now1 items store)
  = store_after_save no_faults now1 items store.
Proof.
  rewrite (save_to_db_working now1 items store).
  destruct (for_each items (save_item no_faults) (get_db store))
    as [db [[]|e]] eqn:Hloop.
  - destruct (insert_all (insert_article now1) (news_articles store) (new_articles db))
      as [articles|e] eqn:Hflush.
    + apply save_items_pending in Hloop as (added & Hadded & Hitems).
      simpl in Hadded. apply insert_all_urls in Hflush as Hurls.
      rewrite save_to_db_working.
      destruct (save_items_known items
                  (get_db (mk_database articles (security_recommendations store))))
        as (db' & -> & Hnone).
      { intros item Hitem. destruct (Hitems item Hitem) as (u & Hu & Hin).
        exists u. split; [done|]. simpl. rewrite Hurls, Hadded.
        apply elem_of_app. by destruct Hin; [left|right]. }
      by rewrite Hnone.
    + rewrite save_to_db_working, Hloop.
      pose proof (insert_all_clock now2 now1 (new_articles db)
                    (news_articles store) (news_articles store) eq_refl) as Hclock.
      rewrite Hflush in Hclock.
      by destruct (insert_all (insert_article now2) _ _).
  - by rewrite save_to_db_working, Hloop.
Qed.

(** X26. Across calls, saving is idempotent on url.  Whatever the batch and
    whatever fails, for an item whose url the store already has, the rows
    with that url are after [save_to_db] exactly the rows before: none is
    added and none is altered; and [url] stays unique across the store.  On
    a store that works, saving a batch a second time changes nothing; and
    after two articles with the same url are saved by two calls, one after
    the other, the store has exactly one row with that url. *)
Theorem save_to_db_idempotent_on_url :
  (∀ fails now items store item u,
     item ∈ items → item !! "url" = Some (Some u) →
     Some u ∈ urls (news_articles store) →
     with_url u (news_articles (store_after_save fails now items store))
     = with_url u (news_articles store))
  ∧ (∀ fails now items store,
       url_unique store → url_unique (store_after_save fails now items store))
  ∧ (∀ now1 now2 items store,
       store_after_save no_faults now2 items
         (store_after_save no_faults now1 items store)
       = store_after_save no_faults now1 items store)
  ∧ (∀ now1 now2 first second u store,
       url_unique store → is_article first → is_article second →
       first !! "url" = Some (Some u) → second !! "url" = Some (Some u) →
       length (with_url u (news_articles
                 (store_after_save no_faults now2 [second]
                    (store_after_save no_faults now1 [first] store)))) = 1).
Proof.
  split_and!.
  - intros fails now items store item u _ _. apply save_to_db_existing.
  - intros fails now items store. apply save_to_db_unique.
  - apply save_to_db_idempotent.
  - intros now1 now2 first second u store Hu Hfirst Hsecond Hu1 Hu2.
    destruct (decide (Some u ∈ urls (news_articles store))) as [Hin|Hfresh].
    + rewrite !save_to_db_existing;
        [by apply with_url_unique|done|by apply save_to_db_keeps_url].
    + destruct (save_new_article now1 first u store Hfirst Hu1 Hfresh)
        as (r & Hr & Hrows).
      rewrite save_to_db_existing.
      * rewrite Hrows, with_url_app, (with_url_fresh u (news_articles store)).
        -- unfold with_url. by rewrite filter_cons_True.
        -- intros r' Hr' Heq. apply Hfresh. rewrite <- Heq.
           by apply list_elem_of_fmap_2.
      * rewrite Hrows. unfold urls. rewrite fmap_app, <- Hr.
        apply elem_of_app. right. simpl. left.
Qed.

Lemma example_item_is_article : is_article example_item.
Proof. unfold is_article. split_and!; by eexists. Qed.

(** Two saves of the same article on an empty store that works. *)
Lemma save_to_db_idempotent_on_url_witness :
  length (with_url "https://example.test/patch"
            (news_articles
               (store_after_save no_faults 2 [example_item]
                  (store_after_save no_faults 1 [example_item] empty_store)))) = 1.
Proof.
  apply (proj2 (proj2 (proj2 save_to_db_idempotent_on_url))).
  - constructor.
  - apply example_item_is_article.
  - apply example_item_is_article.
  - reflexivity.
  - reflexivity.
Defined.

(** The check for an existing article reads the store, not the objects
    added earlier in the same call: a batch that holds a new url twice adds
    both objects, the commit violates the uniqueness of [url], and nothing
    of the batch is stored. *)
Remark save_to_db_same_url_in_one_batch now item u store :
  is_article item → item !! "url" = Some (Some u) →
  Some u ∉ urls (news_articles store) →
  store_after_save no_faults now [item; item] store = store.
Proof.
  intros ((t & Ht) & _ & (src & Hs) & (sm & Hsm)) Hu Hfresh.
  unfold store_after_save, save_to_db. rewrite guarded_committed.
  unfold for_each, save_item, query_first_by_url, add_article, commit, flush,
    attempt, no_faults, getitem, bind, lift, ret, get, modify. simpl.
  rewrite Hu, Ht, Hs, Hsm. simpl.
  destruct (List.find _ _) as [r|] eqn:Hfind.
  { apply find_some in Hfind as [Hr Heq]. apply bool_decide_eq_true in Heq.
    exfalso. apply Hfresh. rewrite <- Heq. apply list_elem_of_fmap_2.
    by apply list_elem_of_In. }
  simpl. rewrite Hfind. simpl. unfold insert_article. simpl.
  rewrite bool_decide_eq_false_2 by done. simpl.
  rewrite bool_decide_eq_true_2; [done|].
  rewrite fmap_app. apply elem_of_app. right. simpl. left.
Qed.

(** C3. The claim fails on the code for two articles with the same url
    that are saved by one call, which is how the pipeline saves a scraped
    batch.  Both are well-formed and the store has neither: each passes the
    existence check, which does not see the object added before it, both
    are added, the commit violates the uniqueness of [url] and is rolled
    back, and the store has no row with that url, where the claim says
    exactly one.  Saved by two calls, the same two articles leave one
    row. *)
Theorem save_to_db_same_url_loses_batch :
  is_article example_item ∧ is_article example_repost
  ∧ example_item !! "url" = example_repost !! "url"
  ∧ log (save_to_db no_faults 1 [example_item; example_repost] empty_store).1
    = [Query; Add; Query; Add; Commit; Rollback; Close]
  ∧ store_after_save no_faults 1 [example_item; example_repost] empty_store
    = empty_store
  ∧ length (with_url "https://example.test/patch"
              (news_articles
                 (store_after_save no_faults 1 [example_item; example_repost]
                    empty_store))) = 0
  ∧ length (with_url "https://example.test/patch"
              (news_articles
                 (store_after_save no_faults 2 [example_repost]
                    (store_after_save no_faults 1 [example_item] empty_store))))
    = 1.
Proof.
  split; [apply example_item_is_article|].
  split; [unfold is_article; split_and!; by eexists|].
  split; [done|].
  split; [by vm_compute|].
  split; [by vm_compute|].
  split; by vm_compute.
Qed.

End saving.

(** ** Classification *)

Section classification.
Import classifier.
Variable create : chat_request → outcome (option string).
Variable json_loads : string → outcome pyval.
Variable str : pyval → string.

(** An exception leaves the [try] block before the article is touched. *)
Lemma classify_article_try_raised a e :
  (classify_article_try create json_loads str a).2 = Raised e →
  (classify_article_try create json_loads str a).1 = a.
Proof.
  unfold classify_article_try, getitem, setitem, bind, lift, get, modify.
  destruct (a !! "title"); [|done].
  destruct (a !! "summary") as [summary|]; [|done].
  destruct (slice_to 1000 summary); [|done].
  destruct (create _) as [content|]; [|done].
  destruct (parse_content json_loads content) as [result|]; [|done].
  destruct result; done.
Qed.

Lemma classify_article_raised a e :
  (classify_article_try create json_loads str a).2 = Raised e →
  classify_article create json_loads str a
  = (uncategorized a, Returned (uncategorized a)).
Proof.
  intros He. pose proof (classify_article_try_raised a e He) as Ha.
  unfold classify_article, try_except.
  destruct (classify_article_try create json_loads str a) as [a' [r|e']];
    simpl in *; [done|].
  by subst a'.
Qed.

(** C1. [classify_article] never raises and returns the article it was
    given, mutated.  Whenever an exception leaves its guarded block the
    article comes back with category "Uncategorized" and threat type
    "Other", its other fields untouched; this is the case when the call to
    the inference service raises, and when its response is not JSON. *)
Theorem classify_article_fallback :
  (∀ a, (classify_article create json_loads str a).2
        = Returned (classify_article create json_loads str a).1)
  ∧ (∀ a e, (classify_article_try create json_loads str a).2 = Raised e →
       classify_article create json_loads str a
       = (uncategorized a, Returned (uncategorized a)))
  ∧ (∀ a title summary head e,
       a !! "title" = Some title → a !! "summary" = Some summary →
       slice_to 1000 summary = Returned head →
       create (classification_request str title head) = Raised e →
       classify_article create json_loads str a
       = (uncategorized a, Returned (uncategorized a)))
  ∧ (∀ a title summary head content e,
       a !! "title" = Some title → a !! "summary" = Some summary →
       slice_to 1000 summary = Returned head →
       create (classification_request str title head) = Returned content →
       parse_content json_loads content = Raised e →
       classify_article create json_loads str a
       = (uncategorized a, Returned (uncategorized a)))
  ∧ (∀ a, uncategorized a !! "category" = Some (PStr "Uncategorized")
          ∧ uncategorized a !! "threat_type" = Some (PStr "Other")
          ∧ ∀ field, field ≠ "category" → field ≠ "threat_type" →
                     uncategorized a !! field = a !! field).
Proof.
  split_and!.
  - intros a. unfold classify_article, try_except.
    destruct (classify_article_try create json_loads str a) as [a' [r|e]] eqn:E;
      simpl; [|done].
    revert E.
    unfold classify_article_try, getitem, setitem, bind, lift, get, modify.
    repeat case_match; intros; simplify_eq; done.
  - apply classify_article_raised.
  - intros a title summary head e Ht Hs Hh Hc.
    apply (classify_article_raised a e).
    unfold classify_article_try, getitem, bind, lift.
    rewrite Ht, Hs, Hh. unfold classification_request in Hc. by rewrite Hc.
  - intros a title summary head content e Ht Hs Hh Hc Hp.
    apply (classify_article_raised a e).
    unfold classify_article_try, getitem, bind, lift.
    rewrite Ht, Hs, Hh. unfold classification_request in Hc. by rewrite Hc, Hp.
  - intros a. unfold uncategorized, article in *. split_and!.
    + by simplify_map_eq.
    + by simplify_map_eq.
    + intros field H1 H2. by simplify_map_eq.
Qed.

End classification.

(** The fallback on a concrete run: the service cannot be reached. *)
Lemma classify_article_fallback_witness :
  classifier.classify_article classifier.unreachable classifier.rejecting
    classifier.blank classifier.example_article
  = (classifier.uncategorized classifier.example_article,
     Returned (classifier.uncategorized classifier.example_article)).
Proof.
  apply (proj1 (proj2 (proj2
           (classify_article_fallback classifier.unreachable classifier.rejecting
              classifier.blank)))
           classifier.example_article
           (classifier.PStr "Patch now") (classifier.PStr "A flaw was found.")
           (classifier.PStr "A flaw was found.") RequestException).
  - reflexivity.
  - reflexivity.
  - reflexivity.
  - reflexivity.
Defined.

(** ** Replacing the recommendations *)

Section recommendations.
Import models pandas collections classifier.
Variable create : chat_request → outcome (option string).
Variable fails : nat → bool.
Variable now : nat.

Lemma rollback_log s : log (rollback fails s).1 = log s ++ [Rollback].
Proof.
  unfold rollback, bind, modify.
  pose proof (attempt_frame fails Rollback s) as (_ & _ & _ & _ & Hl).
  by destruct (attempt fails Rollback s) as [s' [[]|e]].
Qed.

Lemma close_log s : log (close fails s).1 = log s ++ [Close].
Proof.
  unfold close, bind, modify.
  pose proof (attempt_frame fails Close s) as (_ & _ & _ & _ & Hl).
  by destruct (attempt fails Close s) as [s' [[]|e]].
Qed.

Lemma commit_log s : log (commit fails now s).1 = log s ++ [Commit].
Proof.
  unfold commit, flush, bind, modify.
  pose proof (attempt_frame fails Commit s) as (_ & _ & _ & _ & Hl).
  destruct (attempt fails Commit s) as [s' [[]|e]]; simpl in *; [|done].
  destruct (insert_all (insert_article now) _ _); [|done].
  by destruct (insert_all (insert_recommendation now) _ _).
Qed.

(** The calls a guarded block leaves in the log: its own, then [rollback]
    if it raised, then [close]. *)
Lemma guarded_log (body : py session unit) s :
  log (try_finally (try_except body (λ _, rollback fails)) (close fails) s).1
  = log (body s).1 ++ (if is_raised (body s).2 then [Rollback; Close] else [Close]).
Proof.
  unfold try_finally, try_except.
  destruct (body s) as [s1 [[]|e]]; simpl.
  - pose proof (close_log s1) as Hc.
    by destruct (close fails s1) as [s2 [[]|e2]].
  - pose proof (rollback_log s1) as Hr.
    destruct (rollback fails s1) as [s2 [[]|e2]]; simpl in *;
      pose proof (close_log s2) as Hc;
      destruct (close fails s2) as [s3 [[]|e3]]; simpl in *;
      by rewrite Hc, Hr, <- app_assoc.
Qed.

Lemma swallow_state (body : py session unit) (s : session) :
  (try_except body (λ _, ret tt) s).1 = (body s).1.
Proof. unfold try_except, ret. by destruct (body s) as [s1 [[]|e]]. Qed.

(** The loop of insertions: it only adds pending objects and [Add] calls;
    when it completes, every object is pending and no call failed. *)
Lemma add_recommendations_run (f : string → SecurityRecommendation.t) threats :
  ∀ s s' o,
  for_each threats (λ threat, add_recommendation fails (f threat)) s = (s', o) →
  committed s' = committed s ∧ view s' = view s
  ∧ new_articles s' = new_articles s
  ∧ (∃ j, log s' = log s ++ replicate j Add)
  ∧ (o = Returned tt →
       new_recommendations s' = new_recommendations s ++ (f <$> threats)
       ∧ ∀ k, length (log s) ≤ k → k < length (log s') → fails k = false).
Proof.
  induction threats as [|t threats IH]; intros s s' o; simpl.
  - unfold ret. intros ?; simplify_eq. split_and!; try done.
    + exists 0. by rewrite app_nil_r.
    + intros _. rewrite app_nil_r. split; [done|]. lia.
  - unfold bind at 1, add_recommendation, attempt, bind, modify.
    destruct (fails (length (log s))) eqn:Hf; simpl.
    + intros ?; simplify_eq. simpl. split_and!; try done. by exists 1.
    + intros (Hc & Hv & Ha & [j Hl] & Ho)%IH. simpl in *.
      split_and!; try done.
      * exists (S j). by rewrite Hl, <- app_assoc.
      * intros ->. destruct (Ho eq_refl) as [Hn Hk]. split.
        -- by rewrite Hn, <- app_assoc.
        -- intros k Hle Hlt. destruct (decide (k = length (log s))) as [->|Hne];
             [done|]. apply Hk; [|done]. rewrite length_app. simpl. lia.
Qed.

Lemma writes_replicate_Add j : Forall (λ op, writes op = true) (replicate j Add).
Proof. induction j; simpl; by constructor. Qed.

(** The replacement on a fresh session: it makes only writing calls; if it
    completes, none of them failed and the store holds exactly the rows
    inserted for the top threats; if it raises, the store is as it was. *)
Lemma replace_recommendations_run top store s' o :
  replace_recommendations create fails now top (get_db store) = (s', o) →
  Forall (λ op, writes op = true) (log s')
  ∧ match o with
    | Returned _ =>
        (∀ k, k < length (log s') → fails k = false)
        ∧ ∃ recs,
            insert_all (insert_recommendation now) [] (new_rec create <$> top)
            = Returned recs
            ∧ committed s' = mk_database (news_articles store) recs
    | Raised _ => committed s' = store
    end.
Proof.
  unfold replace_recommendations. unfold bind at 1.
  unfold delete_recommendations, attempt, bind at 1, modify. simpl.
  destruct (fails 0) eqn:Hf0; simpl.
  { intros ?; simplify_eq. simpl. split; [|done]. by repeat constructor. }
  unfold bind at 1.
  destruct (for_each top _ _) as [s2 o2] eqn:Hloop.
  apply add_recommendations_run in Hloop as (Hc & Hv & Ha & [j Hl] & Ho).
  simpl in *. destruct o2 as [[]|e]; simpl.
  - destruct (Ho eq_refl) as [Hn Hk].
    pose proof (commit_log s2) as Hlog.
    assert (length (log s2) = S j) as Hlen
      by (rewrite Hl; simpl; by rewrite length_replicate).
    destruct (commit_cases fails now s2) as
      [(articles & recs & Hret & Hfc & Hia & Hir & Hcm)|[[e He] Hcm]];
      destruct (commit fails now s2) as [s3 o3]; simpl in *;
      intros ?; simplify_eq; rewrite Hlog, Hl.
    + split.
      { apply Forall_app. split; [|by repeat constructor].
        apply Forall_cons. split; [done|]. apply writes_replicate_Add. }
      split.
      * intros k Hk'. rewrite length_app in Hk'. simpl in Hk'.
        rewrite length_replicate in Hk'.
        destruct (decide (k = 0)) as [->|]; [done|].
        destruct (decide (k = S j)) as [->|]; [by rewrite <- Hlen|].
        apply Hk; lia.
      * exists recs. rewrite Hv, Hn in Hir. rewrite Hv, Ha in Hia.
        simpl in *. simplify_eq. split; [done|]. by rewrite Hcm.
    + split.
      { apply Forall_app. split; [|by repeat constructor].
        apply Forall_cons. split; [done|]. apply writes_replicate_Add. }
      congruence.
  - intros ?; simplify_eq. rewrite Hl. split.
    + apply Forall_cons. split; [done|]. apply writes_replicate_Add.
    + congruence.
Qed.

Lemma update_recommendations_unfold articles_df store :
  update_recommendations create fails now articles_df store
  = if empty articles_df then (store, [])
    else match top_threats articles_df with
         | [] => (store, [])
         | _ :: _ =>
             let db' :=
               (try_except
                  (try_finally
                     (try_except
                        (replace_recommendations create fails now
                           (top_threats articles_df))
                        (λ _, rollback fails))
                     (close fails))
                  (λ _, ret tt) (get_db store)).1 in
             (committed db', log db')
         end.
Proof.
  unfold update_recommendations, top_threats.
  destruct (empty articles_df); [done|].
  by destruct (column articles_df "threat_type").
Qed.

(** C4. The replacement is atomic.  If a call that writes (the delete, an
    insert or the commit) fails during [update_recommendations], a rollback
    is issued and the store is afterwards what it was before.  In every
    case the store afterwards is either the store before or the store with
    the recommendation table replaced in full by the rows of the top
    threats: there is no partial replacement. *)
Theorem update_recommendations_atomic articles_df store :
  (∀ k op,
      (update_recommendations create fails now articles_df store).2 !! k = Some op →
      writes op = true → fails k = true →
      (update_recommendations create fails now articles_df store).1 = store
      ∧ Rollback ∈ (update_recommendations create fails now articles_df store).2)
  ∧ ((update_recommendations create fails now articles_df store).1 = store
     ∨ ∃ recs,
         insert_all (insert_recommendation now) []
           (new_rec create <$> top_threats articles_df) = Returned recs
         ∧ (update_recommendations create fails now articles_df store).1
           = mk_database (news_articles store) recs).
Proof.
  rewrite update_recommendations_unfold.
  destruct (empty articles_df); [split; [intros k op Hop; cbn [snd] in Hop; by rewrite lookup_nil in Hop|by left]|].
  destruct (top_threats articles_df) as [|t top] eqn:Htop;
    [split; [intros k op Hop; cbn [snd] in Hop; by rewrite lookup_nil in Hop|by left]|].
  cbn zeta. rewrite swallow_state. cbn [fst snd].
  rewrite guarded_committed, guarded_log.
  destruct (replace_recommendations create fails now (t :: top) (get_db store))
    as [s1 o1] eqn:E.
  apply replace_recommendations_run in E as [Hw Ho]. cbn [fst snd].
  destruct o1 as [[]|e]; cbn [is_raised].
  - destruct Ho as (Hk & recs & Hrecs & Hc). split; [|right; eauto].
    intros k op Hop Hwr Hf. exfalso.
    apply lookup_app_Some in Hop as [Hop|[Hle Hop]].
    + apply lookup_lt_Some in Hop. rewrite (Hk k Hop) in Hf. done.
    + apply list_lookup_singleton_Some in Hop as [_ <-]. done.
  - split; [|by left]. intros k op _ _ _. split; [done|].
    apply elem_of_app. right. left.
Qed.

Lemma dropna_all_null (df : DataFrame) c :
  (∀ r, r ∈ df → mjoin (r !! c) = None) →
  dropna ((λ r : record, mjoin (r !! c)) <$> df) = [].
Proof.
  induction df as [|r df IH]; intros H; [done|].
  unfold dropna in *. simpl. rewrite (H r) by left. simpl.
  apply IH. intros r' Hr'. apply H. by right.
Qed.

(** C7. For a batch that is empty, or whose [threat_type] values are all
    null, [update_recommendations] returns before it opens a session: no
    call is made on the store, neither a deletion nor an insertion, and the
    store is what it was. *)
Theorem update_recommendations_no_threats articles_df store :
  empty articles_df = true
  ∨ (∀ r, r ∈ articles_df → mjoin (r !! "threat_type") = None) →
  update_recommendations create fails now articles_df store = (store, []).
Proof.
  intros H. rewrite update_recommendations_unfold.
  destruct (empty articles_df); [done|]. destruct H as [|H]; [done|].
  unfold top_threats, column.
  destruct (has_column articles_df "threat_type"); [|done].
  by rewrite dropna_all_null.
Qed.

End recommendations.

Section recommendation_runs.
Import models pandas classifier.

(** A run in which the second insert fails: the old recommendation is
    still there. *)
Lemma update_recommendations_atomic_witness :
  (update_recommendations (answering "Use a password manager.") (fails_at 2) 9
     example_batch advised_store).1 = advised_store
  ∧ Rollback ∈ (update_recommendations (answering "Use a password manager.")
                  (fails_at 2) 9 example_batch advised_store).2.
Proof.
  apply (proj1 (update_recommendations_atomic (answering "Use a password manager.")
                  (fails_at 2) 9 example_batch advised_store) 2 Add).
  - reflexivity.
  - reflexivity.
  - reflexivity.
Defined.

(** A run on a batch whose threat types are all null. *)
Lemma update_recommendations_no_threats_witness :
  update_recommendations unreachable utils.no_faults 9 null_batch advised_store
  = (advised_store, []).
Proof.
  apply update_recommendations_no_threats. right. intros r Hr.
  apply elem_of_cons in Hr as [Hr|Hr]; [by rewrite Hr|].
  apply elem_of_cons in Hr as [Hr|Hr]; [by rewrite Hr|].
  by apply elem_of_nil in Hr.
Defined.

End recommendation_runs.

(** ** Scraping one source *)

Section scraping.
Import scraper.
Variable w : web.
Variable source_name : string.
Variable info : source_info.

(** What an element does to the state does not depend on the state: it
    appends the article it yields, if any. *)
Lemma scrape_element_effect e :
  ∃ new o, ∀ arts c,
    scrape_element w source_name info e (mk_state arts c)
    = (mk_state (arts ++ new) c, o).
Proof.
  unfold scrape_element, bind, lift, ret, append, modify.
  destruct (select_first e title_selectors) as [[tag|]|x].
  - destruct (extract_url (ObjTag tag)) as [[|a href]|values].
    + exists [], (Returned tt). intros. by rewrite app_nil_r.
    + eexists [_], (Returned tt). intros. done.
    + exists [], (Returned tt). intros. by rewrite app_nil_r.
  - exists [], (Returned tt). intros. by rewrite app_nil_r.
  - exists [], (Raised x). intros. by rewrite app_nil_r.
Qed.

Lemma scrape_elements_effect elements :
  ∃ new o, ∀ arts c,
    for_each elements (scrape_element w source_name info) (mk_state arts c)
    = (mk_state (arts ++ new) c, o).
Proof.
  induction elements as [|e elements (new2 & o2 & IH)]; simpl.
  - exists [], (Returned tt). intros. unfold ret. by rewrite app_nil_r.
  - destruct (scrape_element_effect e) as (new1 & o1 & H1).
    destruct o1 as [[]|x].
    + exists (new1 ++ new2), o2. intros. unfold bind.
      by rewrite H1, IH, app_assoc.
    + exists new1, (Raised x). intros. unfold bind. by rewrite H1.
Qed.

Lemma harvest_effect soup selector :
  ∃ new o, ∀ arts c,
    harvest w source_name info soup selector (mk_state arts c)
    = (mk_state (arts ++ new) c, o).
Proof.
  unfold harvest, bind, lift.
  destruct (select soup selector) as [elements|x].
  - apply scrape_elements_effect.
  - exists [], (Raised x). intros. by rewrite app_nil_r.
Qed.

Lemma harvest_from_empty soup selector st o :
  harvest w source_name info soup selector (mk_state [] []) = (st, o) →
  ∀ arts c,
    harvest w source_name info soup selector (mk_state arts c)
    = (mk_state (arts ++ articles st) c, o).
Proof.
  destruct (harvest_effect soup selector) as (new & o' & H).
  rewrite H. intros ? arts c. simplify_eq. simpl. apply H.
Qed.

(** One turn of the loop over the selectors, entered with no article yet:
    it stops when the selector's harvest raised or left an article, and goes
    on to the next selector otherwise. *)
Lemma scan_step soup selector rest c st o :
  harvest w source_name info soup selector (mk_state [] []) = (st, o) →
  scan w source_name info soup (selector :: rest) (mk_state [] c)
  = match o, articles st with
    | Returned _, [] =>
        scan w source_name info soup rest (mk_state [] (c ++ [selector]))
    | _, _ => (mk_state (articles st) (c ++ [selector]), o)
    end.
Proof.
  intros H. pose proof (harvest_from_empty _ _ _ _ H [] (c ++ [selector])) as H'.
  revert H'. clear H. simpl. generalize (articles st). intros new.
  unfold harvest, bind, lift, consult, modify, get. simpl.
  destruct (select soup selector) as [[|e elements]|x]; simpl.
  - unfold ret. intros ?; by simplify_eq.
  - intros ->. destruct o as [[]|x]; [|done]. by destruct new.
  - intros ?; by simplify_eq.
Qed.

(** The search stops at the first selector whose harvest raises or leaves
    an article; the selectors before it, which left nothing, were consulted
    and passed. *)
Lemma scan_stops soup selector after st o before : ∀ c,
  (∀ s, s ∈ before →
     harvest w source_name info soup s (mk_state [] [])
     = (mk_state [] [], Returned tt)) →
  harvest w source_name info soup selector (mk_state [] []) = (st, o) →
  articles st ≠ [] ∨ is_raised o = true →
  scan w source_name info soup (before ++ selector :: after) (mk_state [] c)
  = (mk_state (articles st) (c ++ before ++ [selector]), o).
Proof.
  induction before as [|s before IH]; intros c Hbefore Hsel Hstop.
  - simpl app. rewrite (scan_step _ _ _ _ _ _ Hsel).
    destruct o as [[]|x]; [|done].
    destruct (articles st); [|done]. by destruct Hstop.
  - rewrite <- app_comm_cons.
    rewrite (scan_step _ _ _ _ _ _ (Hbefore s ltac:(left))). simpl.
    rewrite IH; [|by intros; apply Hbefore; right|done|done].
    by rewrite <- app_assoc.
Qed.

(** [scrape_source] never raises. *)
Lemma scrape_source_run_returns :
  (scrape_source_run w source_name info).2 = Returned tt.
Proof.
  unfold scrape_source_run, try_except, ret.
  by destruct (scrape_source_try _ _ _ _) as [st [[]|x]].
Qed.

Lemma scrape_source_run_state :
  (scrape_source_run w source_name info).1
  = (scrape_source_try w source_name info (mk_state [] [])).1.
Proof.
  unfold scrape_source_run, try_except, ret.
  by destruct (scrape_source_try _ _ _ _) as [st [[]|x]].
Qed.

Lemma scrape_source_try_parsed response soup :
  requests_get w (url info) = Returned response →
  BeautifulSoup w response = Returned soup →
  scrape_source_try w source_name info (mk_state [] [])
  = scan w source_name info soup selectors (mk_state [] []).
Proof.
  intros Hget Hparse. unfold scrape_source_try, bind, lift.
  by rewrite Hget, Hparse.
Qed.

End scraping.

(** ** The search over the selectors *)

Section search.
Import scraper.

(** C5, as its statement stands, fails: on a page whose first selector
    matches an element without a title link, the second selector is
    consulted, and it is the one that provides the article. *)
Lemma scrape_source_first_match_counterexample :
  select untitled_then_titled "article" = Returned [untitled]
  ∧ selectors_consulted (serving untitled_then_titled) "Example" example_source
    = ["article"; ".post"]
  ∧ scrape_source (serving untitled_then_titled) "Example" example_source
    = [mk_article "Story" "https://example.test/story" "Example" "Global" ""]
  ∧ ¬ stops_at_first_match (serving untitled_then_titled) "Example" example_source.
Proof.
  split_and!; [reflexivity..|].
  intros H.
  specialize (H "" untitled_then_titled [] "article"
                [".post"; ".article"; ".news-item"; ".story"; ".entry"] [untitled]
                eq_refl eq_refl eq_refl).
  assert (selectors_consulted (serving untitled_then_titled) "Example" example_source
          = ["article"]) as Hc.
  { apply H; [by intros s ?%elem_of_nil|done|done]. }
  vm_compute in Hc. discriminate.
Qed.

(** C5, amended. [scrape_source] stops at the first selector that yields an
    article: once a selector has been consulted and its elements have left
    at least one article, no later selector is consulted and the articles
    returned are that selector's, however many a later selector would give.
    The selectors before it were consulted and left nothing, whether or not
    they matched elements. *)
Theorem scrape_source_stops_at_first_yield
    w name info response soup before selector after st o :
  requests_get w (url info) = Returned response →
  BeautifulSoup w response = Returned soup →
  selectors = before ++ selector :: after →
  (∀ s, s ∈ before →
     harvest w name info soup s (mk_state [] []) = (mk_state [] [], Returned tt)) →
  harvest w name info soup selector (mk_state [] []) = (st, o) →
  articles st ≠ [] →
  selectors_consulted w name info = before ++ [selector]
  ∧ scrape_source w name info = articles st.
Proof.
  intros Hget Hparse Hsel Hbefore Hharvest Hyield.
  unfold selectors_consulted, scrape_source.
  rewrite scrape_source_run_state, (scrape_source_try_parsed _ _ _ _ _ Hget Hparse).
  rewrite Hsel, (scan_stops _ _ _ _ _ _ _ _ _ [] Hbefore Hharvest); [done|by left].
Qed.

Lemma scrape_source_stops_at_first_yield_witness :
  selectors_consulted (serving untitled_then_titled) "Example" example_source
  = ["article"; ".post"]
  ∧ scrape_source (serving untitled_then_titled) "Example" example_source
    = [mk_article "Story" "https://example.test/story" "Example" "Global" ""].
Proof.
  apply (scrape_source_stops_at_first_yield
           (serving untitled_then_titled) "Example" example_source
           "" untitled_then_titled ["article"] ".post"
           [".article"; ".news-item"; ".story"; ".entry"]
           (mk_state
              [mk_article "Story" "https://example.test/story" "Example" "Global" ""] [])
           (Returned tt)).
  - reflexivity.
  - reflexivity.
  - reflexivity.
  - intros s Hs. apply list_elem_of_singleton in Hs. subst s. reflexivity.
  - reflexivity.
  - discriminate.
Defined.

End search.

(** ** Failure of one source *)

Section isolation.
Import scraper.

(** C6, as its statement stands, fails: when the query on the second
    matched element raises, the article of the first element has already
    been appended, and [scrape_source] returns it. *)
Lemma scrape_source_failure_counterexample :
  (scrape_source_try (serving titled_then_broken) "Example" example_source
     (mk_state [] [])).2 = Raised RuntimeError
  ∧ scrape_source (serving titled_then_broken) "Example" example_source
    = [mk_article "Story" "https://example.test/story" "Example" "Global" ""]
  ∧ ¬ failure_yields_nothing (serving titled_then_broken) "Example" example_source.
Proof.
  split_and!; [reflexivity..|].
  intros H. assert (scrape_source (serving titled_then_broken) "Example" example_source
                    = []) as Hnone.
  { apply H. by exists RuntimeError. }
  vm_compute in Hnone. discriminate.
Qed.

Lemma collect_from w sources : ∀ found,
  fold_left
    (λ all_articles (entry : string * source_info),
       match scrape_source w entry.1 entry.2 with
       | [] => all_articles
       | found => all_articles ++ found
       end)
    sources found
  = found ++ concat ((λ entry, scrape_source w entry.1 entry.2) <$> sources).
Proof.
  induction sources as [|entry sources IH]; intros found; simpl.
  - by rewrite app_nil_r.
  - rewrite IH. destruct (scrape_source w entry.1 entry.2); simpl; [done|].
    by rewrite <- app_assoc.
Qed.

Lemma collect_concat w sources :
  collect w sources = concat ((λ entry, scrape_source w entry.1 entry.2) <$> sources).
Proof. unfold collect. by rewrite collect_from. Qed.

Lemma scrape_source_fetch_raised w name info e :
  requests_get w (url info) = Raised e → scrape_source w name info = [].
Proof.
  intros H. unfold scrape_source. rewrite scrape_source_run_state.
  unfold scrape_source_try, bind, lift. by rewrite H.
Qed.

Lemma scrape_source_parse_raised w name info response e :
  requests_get w (url info) = Returned response →
  BeautifulSoup w response = Raised e → scrape_source w name info = [].
Proof.
  intros H1 H2. unfold scrape_source. rewrite scrape_source_run_state.
  unfold scrape_source_try, bind, lift. by rewrite H1, H2.
Qed.

(** C6, amended. [scrape_source] never propagates an exception.  When the
    fetch or the parse raises it returns the empty list; when the extraction
    raises it returns the articles appended before the exception, possibly
    none.  [scrape_all_sources] returns the results of the sources one
    after the other, in registry order, so that a source whose fetch raises
    leaves the result of the others as it is without that source. *)
Theorem scrape_source_isolates_failure :
  (∀ w name info, (scrape_source_run w name info).2 = Returned tt)
  ∧ (∀ w name info e,
       requests_get w (url info) = Raised e → scrape_source w name info = [])
  ∧ (∀ w name info response e,
       requests_get w (url info) = Returned response →
       BeautifulSoup w response = Raised e → scrape_source w name info = [])
  ∧ (∀ w name info response soup before selector after st e,
       requests_get w (url info) = Returned response →
       BeautifulSoup w response = Returned soup →
       selectors = before ++ selector :: after →
       (∀ s, s ∈ before →
          harvest w name info soup s (mk_state [] [])
          = (mk_state [] [], Returned tt)) →
       harvest w name info soup selector (mk_state [] []) = (st, Raised e) →
       scrape_source w name info = articles st)
  ∧ (∀ w, scrape_all_sources w
          = concat ((λ entry, scrape_source w entry.1 entry.2) <$> SOURCES))
  ∧ (∀ w before entry after e,
       SOURCES = before ++ entry :: after →
       requests_get w (url entry.2) = Raised e →
       scrape_all_sources w = collect w (before ++ after)).
Proof.
  split_and!.
  - apply scrape_source_run_returns.
  - apply scrape_source_fetch_raised.
  - apply scrape_source_parse_raised.
  - intros w name info response soup before selector after st e
      Hget Hparse Hsel Hbefore Hharvest.
    unfold scrape_source.
    rewrite scrape_source_run_state, (scrape_source_try_parsed _ _ _ _ _ Hget Hparse).
    by rewrite Hsel, (scan_stops _ _ _ _ _ _ _ _ _ [] Hbefore Hharvest); [|right].
  - intros w. apply collect_concat.
  - intros w before entry after e Hsources Hget.
    unfold scrape_all_sources. rewrite Hsources, !collect_concat.
    rewrite !fmap_app, !concat_app. simpl.
    by rewrite (scrape_source_fetch_raised _ _ _ _ Hget).
Qed.

(** Two runs: the query on the second element raises after the first
    element gave an article; and the fetch of every source fails. *)
Lemma scrape_source_isolates_failure_witness :
  scrape_source (serving titled_then_broken) "Example" example_source
  = [mk_article "Story" "https://example.test/story" "Example" "Global" ""]
  ∧ scrape_all_sources offline = collect offline (tail SOURCES).
Proof.
  split.
  - apply (proj1 (proj2 (proj2 (proj2 scrape_source_isolates_failure)))
             (serving titled_then_broken) "Example" example_source
             "" titled_then_broken [] "article"
             [".post"; ".article"; ".news-item"; ".story"; ".entry"]
             (mk_state
                [mk_article "Story" "https://example.test/story" "Example" "Global" ""]
                [])
             RuntimeError).
    + reflexivity.
    + reflexivity.
    + reflexivity.
    + intros s Hs. by apply elem_of_nil in Hs.
    + reflexivity.
  - apply (proj2 (proj2 (proj2 (proj2 (proj2 scrape_source_isolates_failure))))
             offline [] ("Krebs on Security",
                         mk_source "https://krebsonsecurity.com" "North America")
             (tail SOURCES) RequestException).
    + reflexivity.
    + reflexivity.
Defined.

End isolation.

(** ** The urls of the scraped articles *)

Section urls.
Import scraper.

Lemma prefix_append p : ∀ s t,
  String.prefix p s = true → String.prefix p (s +:+ t) = true.
Proof.
  induction p as [|a p IH]; intros s t; [intros _; by destruct (s +:+ t)|].
  destruct s as [|b s]; [done|].
  change (String b s +:+ t) with (String b (s +:+ t)). cbn [String.prefix].
  destruct (Ascii.ascii_dec a b); [apply IH|done].
Qed.

Lemma prefix_shorter p q : ∀ s,
  String.prefix (p +:+ q) s = true → String.prefix p s = true.
Proof.
  induction p as [|a p IH]; intros s; [intros _; by destruct s|].
  destruct s as [|b s]; [done|].
  change (String a p +:+ q) with (String a (p +:+ q)). cbn [String.prefix].
  destruct (Ascii.ascii_dec a b); [apply IH|done].
Qed.

Lemma prefix_https_http s :
  String.prefix "https" s = true → String.prefix "http" s = true.
Proof. apply (prefix_shorter "http" "s"). Qed.

Lemma for_each_preserves {S A} (P : S → Prop) (body : A → py S unit) xs :
  (∀ x s, P s → P (body x s).1) → ∀ s, P s → P (for_each xs body s).1.
Proof.
  intros Hbody. induction xs as [|x xs IH]; intros s Hs; simpl; [done|].
  unfold bind. specialize (Hbody x s Hs).
  destruct (body x s) as [s1 [[]|e]]; simpl in *; [by apply IH|done].
Qed.

Section one_source.
Variable w : web.
Variable source_name : string.
Variable info : source_info.
Hypothesis base_http : String.prefix "http" (url info) = true.

Lemma scrape_element_urls e st :
  Forall http_url (articles st) →
  Forall http_url (articles (scrape_element w source_name info e st).1).
Proof.
  intros Hst. unfold scrape_element, bind, lift, ret, append, modify.
  destruct (select_first e title_selectors) as [[tag|]|x]; [|done..].
  destruct (extract_url (ObjTag tag)) as [[|a href]|values]; [done| |done].
  generalize (String a href). intros h. cbn [fst articles].
  apply Forall_app. split; [done|]. apply Forall_singleton.
  assert (∀ x, String.prefix "http" x = true → x ≠ "") as Hne
    by (by intros x Hx ->).
  unfold http_url. cbn [article_url].
  destruct (String.prefix "http" h) eqn:Hp; [by auto|].
  pose proof (prefix_append _ _ h base_http). by auto.
Qed.

Lemma scan_urls soup remaining : ∀ st,
  Forall http_url (articles st) →
  Forall http_url (articles (scan w source_name info soup remaining st).1).
Proof.
  induction remaining as [|selector rest IH]; intros st Hst; [done|].
  cbn [scan]. unfold bind, consult, modify, lift, get. cbn [fst snd].
  destruct (select soup selector) as [[|e elements]|x]; [by apply IH| |done].
  generalize (take 5 (e :: elements)). intros batch.
  pose proof (for_each_preserves (λ s, Forall http_url (articles s))
                (scrape_element w source_name info) batch
                scrape_element_urls
                (mk_state (articles st) (consulted st ++ [selector])) Hst) as H.
  destruct (for_each batch _ _) as [[found c] [[]|x]]; cbn [fst articles] in *;
    [|done].
  destruct found; [by apply IH|done].
Qed.

Lemma scrape_source_http a :
  a ∈ scrape_source w source_name info → http_url a.
Proof.
  unfold scrape_source. rewrite scrape_source_run_state.
  assert (Forall http_url
            (articles (scrape_source_try w source_name info (mk_state [] [])).1))
    as H; [|by apply Forall_forall].
  unfold scrape_source_try, bind, lift.
  destruct (requests_get w (url info)) as [response|x]; [|by constructor].
  destruct (BeautifulSoup w response) as [soup|x]; [|by constructor].
  apply scan_urls. by constructor.
Qed.

End one_source.

Lemma SOURCES_https name info :
  (name, info) ∈ SOURCES → String.prefix "https" (url info) = true.
Proof.
  unfold SOURCES. intros H.
  repeat (apply elem_of_cons in H as [H|H]; [by simplify_eq|]).
  by apply elem_of_nil in H.
Qed.

(** C10. Every article that [scrape_source] returns for a source of the
    registry has a non-empty [url] that starts with "http".  Every base url
    of the registry starts with "https"; a title link whose [href] is a
    non-empty string gives an article whose url is the [href] when it starts
    with "http" and the base url followed by the [href] otherwise; a title
    link whose [href] is missing, empty or not a string gives no article. *)
Theorem scrape_source_urls :
  (∀ w name info a,
     (name, info) ∈ SOURCES → a ∈ scrape_source w name info →
     article_url a ≠ "" ∧ String.prefix "http" (article_url a) = true)
  ∧ (∀ w name info a,
       String.prefix "http" (url info) = true → a ∈ scrape_source w name info →
       article_url a ≠ "" ∧ String.prefix "http" (article_url a) = true)
  ∧ (∀ name info, (name, info) ∈ SOURCES → String.prefix "https" (url info) = true)
  ∧ (∀ w name info element tag c href st,
       select_first element title_selectors = Returned (Some tag) →
       attrs tag !! "href" = Some (AttrStr (String c href)) →
       scrape_element w name info element st
       = (mk_state
            (articles st ++
               [mk_article (strip (text tag))
                  (if String.prefix "http" (String c href) then String c href
                   else url info +:+ String c href)
                  name (region info)
                  (scrape_article w
                     (if String.prefix "http" (String c href) then String c href
                      else url info +:+ String c href))])
            (consulted st),
          Returned tt))
  ∧ (∀ w name info element tag st,
       select_first element title_selectors = Returned (Some tag) →
       (∀ c href, attrs tag !! "href" ≠ Some (AttrStr (String c href))) →
       scrape_element w name info element st = (st, Returned tt)).
Proof.
  split_and!.
  - intros w name info a Hin Ha.
    apply (scrape_source_http w name info); [|done].
    by apply prefix_https_http, (SOURCES_https name).
  - intros w name info a Hbase Ha. by apply (scrape_source_http w name info).
  - apply SOURCES_https.
  - intros w name info element tag c href st Hsel Hhref.
    unfold scrape_element, bind, lift, append, modify, extract_url.
    by rewrite Hsel, Hhref.
  - intros w name info element tag st Hsel Hhref.
    unfold scrape_element, bind, lift, ret, extract_url. rewrite Hsel.
    destruct (attrs tag !! "href") as [[[|c href]|values]|] eqn:E; try done.
    by destruct (Hhref c href).
Qed.

(** An article scraped for a source of the registry from a relative
    link. *)
Lemma scrape_source_urls_witness :
  article_url
    (mk_article "Story" "https://thehackernews.com/story" "The Hacker News"
       "Global" "") ≠ ""
  ∧ String.prefix "http"
      (article_url
         (mk_article "Story" "https://thehackernews.com/story" "The Hacker News"
            "Global" "")) = true.
Proof.
  apply (proj1 scrape_source_urls (serving untitled_then_titled)
           "The Hacker News" (mk_source "https://thehackernews.com" "Global")).
  - right. left.
  - vm_compute. left.
Defined.

End urls.

(** ** Counting and ranking *)

Section counting.
Import collections.

Lemma count_element_new x c : x ∉ c.*1 → count_element x c = c ++ [(x, 1)].
Proof.
  induction c as [|[k n] c IH]; simpl; [done|].
  intros Hx. apply not_elem_of_cons in Hx as [Hne Hx].
  destruct (String.eqb k x) eqn:E; [by apply String.eqb_eq in E|].
  by rewrite IH.
Qed.

Lemma count_element_old x c1 n c2 :
  x ∉ c1.*1 → count_element x (c1 ++ (x, n) :: c2) = c1 ++ (x, S n) :: c2.
Proof.
  induction c1 as [|[k m] c1 IH]; simpl.
  - intros _. by rewrite String.eqb_refl.
  - intros Hx. apply not_elem_of_cons in Hx as [Hne Hx].
    destruct (String.eqb k x) eqn:E; [by apply String.eqb_eq in E|].
    by rewrite IH.
Qed.

Lemma occurrences_snoc t l x :
  occurrences t (l ++ [x]) = occurrences t l + (if decide (x = t) then 1 else 0).
Proof.
  unfold occurrences. rewrite filter_app, length_app. f_equal.
  destruct (decide (x = t)).
  - by rewrite filter_cons_True.
  - by rewrite filter_cons_False.
Qed.

Lemma occurrences_absent t l : t ∉ l → occurrences t l = 0.
Proof.
  unfold occurrences. induction l as [|x l IH]; [done|].
  intros [Hne Hl]%not_elem_of_cons.
  rewrite filter_cons_False by done. by apply IH.
Qed.

Lemma occurrences_present t l : t ∈ l → 0 < occurrences t l.
Proof.
  unfold occurrences. induction l as [|x l IH]; [by intros ?%elem_of_nil|].
  destruct (decide (x = t)) as [->|Hne].
  - rewrite filter_cons_True by done. simpl. lia.
  - rewrite filter_cons_False by done. intros [?|?]%elem_of_cons; [done|auto].
Qed.

Lemma encountered_before_snoc l x t1 t2 :
  encountered_before l t1 t2 → encountered_before (l ++ [x]) t1 t2.
Proof.
  intros (Hne & p & q & -> & Hp). split; [done|].
  exists p, (q ++ [x]). by rewrite <- app_assoc.
Qed.

Lemma encountered_before_new l x t :
  t ∈ l → x ∉ l → encountered_before (l ++ [x]) t x.
Proof.
  intros Ht Hx. split; [by intros ->|].
  apply list_elem_of_split in Ht as (p & q & ->).
  exists p, (q ++ [x]). split; [by rewrite <- app_assoc|].
  intros Hp. apply Hx. apply elem_of_app. by left.
Qed.

Lemma StronglySorted_weaken {A} (R1 R2 : relation A) l :
  (∀ x y, R1 x y → R2 x y) → StronglySorted R1 l → StronglySorted R2 l.
Proof.
  intros HR. induction 1 as [|x l Hl IH Hx]; constructor; [done|].
  eapply Forall_impl; [done|]. intros y Hy. by apply HR.
Qed.

Lemma counted_nil : counted [] [].
Proof.
  split.
  - done.
  - by intros t n ?%elem_of_nil.
  - constructor.
  - constructor.
Qed.

(** Counting one more element keeps the counter faithful to the list. *)
Lemma counted_snoc c l x : counted c l → counted (count_element x c) (l ++ [x]).
Proof.
  intros [Hkeys Hcount Hnodup Horder].
  destruct (decide (x ∈ c.*1)) as [Hin|Hnew].
  - apply list_elem_of_fmap in Hin as (kn & Hk & Hin).
    destruct kn as [k n]. simpl in Hk. subst x.
    apply list_elem_of_split in Hin as (c1 & c2 & Hc). subst c.
    assert (k ∉ c1.*1) as Hc1.
    { rewrite fmap_app in Hnodup. apply NoDup_app in Hnodup as (_ & Hd & _).
      intros Hk. apply (Hd k Hk). simpl. left. }
    rewrite count_element_old by done.
    assert ((c1 ++ (k, S n) :: c2).*1 = (c1 ++ (k, n) :: c2).*1) as Hsame
      by (by rewrite !fmap_app).
    split.
    + intros t. rewrite Hsame, Hkeys, elem_of_app, list_elem_of_singleton.
      split; [by left|]. intros [?| ->]; [done|].
      apply Hkeys. rewrite fmap_app. apply elem_of_app. right. left.
    + intros t m Htm. rewrite occurrences_snoc.
      apply elem_of_app in Htm as [Htm|[Htm|Htm]%elem_of_cons].
      * assert (t ≠ k) as Hne.
        { intros ->. apply Hc1. by apply (list_elem_of_fmap_2 fst) in Htm. }
        rewrite decide_False by done. rewrite Nat.add_0_r. apply Hcount.
        apply elem_of_app. by left.
      * simplify_eq. rewrite decide_True by done.
        rewrite <- (Hcount k n); [lia|]. apply elem_of_app. right. left.
      * assert (t ≠ k) as Hne.
        { intros ->. rewrite fmap_app in Hnodup. simpl in Hnodup.
          apply NoDup_app in Hnodup as (_ & _ & [Hk _]%NoDup_cons).
          apply Hk. by apply (list_elem_of_fmap_2 fst) in Htm. }
        rewrite decide_False by done. rewrite Nat.add_0_r. apply Hcount.
        apply elem_of_app. right. by right.
    + by rewrite Hsame.
    + rewrite Hsame. eapply StronglySorted_weaken; [|done].
      intros. by apply encountered_before_snoc.
  - rewrite count_element_new by done.
    assert (x ∉ l) as Hl by (by rewrite <- Hkeys).
    split.
    + intros t. rewrite fmap_app, !elem_of_app, Hkeys. simpl.
      by rewrite !list_elem_of_singleton.
    + intros t m [Htm|Htm%list_elem_of_singleton]%elem_of_app.
      * assert (t ≠ x) as Hne.
        { intros ->. apply Hnew. by apply (list_elem_of_fmap_2 fst) in Htm. }
        rewrite occurrences_snoc, decide_False by done.
        rewrite Nat.add_0_r. by apply Hcount.
      * simplify_eq. rewrite occurrences_snoc, decide_True by done.
        by rewrite occurrences_absent.
    + rewrite fmap_app. apply NoDup_app. split; [done|]. split.
      * intros t Ht [->|[]%elem_of_nil]%elem_of_cons. done.
      * apply NoDup_singleton.
    + rewrite fmap_app. apply StronglySorted_app. split_and!.
      * intros t1 t2 Ht1 ->%list_elem_of_singleton.
        apply encountered_before_new; [by apply Hkeys|done].
      * eapply StronglySorted_weaken; [|done].
        intros. by apply encountered_before_snoc.
      * repeat constructor.
Qed.

Lemma Counter_of_counted l : counted (Counter_of l) l.
Proof.
  induction l as [|x l IH] using rev_ind; [apply counted_nil|].
  unfold Counter_of in *. rewrite fold_left_app. simpl. by apply counted_snoc.
Qed.

Lemma insert_by_count_perm x s : insert_by_count x s ≡ₚ x :: s.
Proof.
  induction s as [|y s IH]; simpl; [done|].
  destruct (x.2 <? y.2); [|done]. by rewrite IH, Permutation_swap.
Qed.

Lemma sorted_by_count_perm c : sorted_by_count c ≡ₚ c.
Proof.
  induction c as [|x c IH]; simpl; [done|].
  by rewrite insert_by_count_perm, IH.
Qed.

Lemma count_then_le P a b : count_then P a b → b.2 ≤ a.2.
Proof. unfold count_then. lia. Qed.

(** Inserting an item that was before all the others keeps the list in
    descending order of count, ties in their earlier order. *)
Lemma insert_by_count_sorted (P : relation string) x s :
  Forall (λ y, P x.1 y.1) s →
  StronglySorted (count_then P) s →
  StronglySorted (count_then P) (insert_by_count x s).
Proof.
  intros Hx. induction 1 as [|y s Hs IH Hy]; simpl; [repeat constructor|].
  apply Forall_cons in Hx as [Hxy Hxs].
  destruct (x.2 <? y.2) eqn:E.
  - apply Nat.ltb_lt in E. constructor; [by apply IH|].
    rewrite insert_by_count_perm. constructor; [by left|done].
  - apply Nat.ltb_ge in E. constructor; [by constructor|].
    constructor.
    + unfold count_then. destruct (decide (y.2 = x.2)); [right; auto|left; lia].
    + apply Forall_forall. intros z Hz.
      pose proof (count_then_le P y z (proj1 (Forall_forall _ _) Hy z Hz)) as Hle.
      unfold count_then. destruct (decide (z.2 = x.2)) as [Heq|Hne]; [|left; lia].
      right. split; [done|]. by apply (proj1 (Forall_forall _ _) Hxs z).
Qed.

(** The stable sort: descending order of count, and among items of equal
    count the order they had. *)
Lemma sorted_by_count_sorted (P : relation string) c :
  StronglySorted P c.*1 → StronglySorted (count_then P) (sorted_by_count c).
Proof.
  induction c as [|x c IH]; simpl; [constructor|].
  intros [Hx Hc]%StronglySorted_cons.
  apply insert_by_count_sorted; [|by apply IH].
  rewrite sorted_by_count_perm. apply Forall_forall. intros y Hy.
  apply (proj1 (Forall_forall _ _) Hx). by apply list_elem_of_fmap_2.
Qed.

Lemma StronglySorted_weaken_in {A} (R1 R2 : relation A) l :
  (∀ x y, x ∈ l → y ∈ l → R1 x y → R2 x y) →
  StronglySorted R1 l → StronglySorted R2 l.
Proof.
  intros HR Hl. induction Hl as [|x l Hl IH Hx]; constructor.
  - apply IH. intros y z Hy Hz. apply HR; by right.
  - apply Forall_forall. intros y Hy. apply HR; [left|by right|].
    by apply (proj1 (Forall_forall _ _) Hx).
Qed.

(** What [most_common n] returns for the counter of [l]: at most [n]
    distinct elements of [l] with their numbers of occurrences, each ranking
    before every later one, and before every element of [l] left out. *)
Lemma most_common_spec n l :
  length (most_common n (Counter_of l)) ≤ n
  ∧ NoDup (most_common n (Counter_of l)).*1
  ∧ (∀ t k, (t, k) ∈ most_common n (Counter_of l) →
       t ∈ l ∧ k = occurrences t l)
  ∧ StronglySorted (λ a b, ranks_before l a.1 b.1) (most_common n (Counter_of l))
  ∧ (∀ t, t ∈ l → t ∉ (most_common n (Counter_of l)).*1 →
       length (most_common n (Counter_of l)) = n
       ∧ ∀ e, e ∈ most_common n (Counter_of l) → ranks_before l e.1 t).
Proof.
  destruct (Counter_of_counted l) as [Hkeys Hcount Hnodup Horder].
  pose proof (sorted_by_count_perm (Counter_of l)) as Hperm.
  pose proof (sorted_by_count_sorted _ _ Horder) as Hsorted.
  unfold most_common.
  set (s := sorted_by_count (Counter_of l)) in *.
  assert (∀ t k, (t, k) ∈ s → t ∈ l ∧ k = occurrences t l) as Hs.
  { intros t k Htk. rewrite Hperm in Htk. split; [|by apply Hcount].
    apply Hkeys. by apply (list_elem_of_fmap_2 fst) in Htk. }
  assert (∀ a b, a ∈ s → b ∈ s → count_then (encountered_before l) a b →
                 ranks_before l a.1 b.1) as Hrank.
  { intros [t1 k1] [t2 k2] [_ ->]%Hs [_ ->]%Hs. by unfold count_then, ranks_before. }
  rewrite <- (take_drop n s) in Hsorted.
  split_and!.
  - rewrite length_take. lia.
  - rewrite fmap_take. eapply sublist_NoDup; [|apply sublist_take].
    by rewrite Hperm.
  - intros t k Htk. apply Hs. by eapply subseteq_take.
  - apply StronglySorted_app_1_l in Hsorted.
    eapply StronglySorted_weaken_in; [|done].
    intros a b Ha Hb. apply Hrank; by eapply subseteq_take.
  - intros t Ht Hout.
    assert ((t, occurrences t l) ∈ s) as Hin.
    { apply Hkeys in Ht. apply list_elem_of_fmap in Ht as ([t' k] & -> & Htk).
      rewrite <- Hperm in Htk. by destruct (Hs _ _ Htk) as [_ ->]. }
    assert ((t, occurrences t l) ∈ drop n s) as Hdrop.
    { rewrite <- (take_drop n s) in Hin.
      apply elem_of_app in Hin as [Hin|Hin]; [|done].
      destruct Hout. by apply (list_elem_of_fmap_2 fst) in Hin. }
    split.
    + destruct (decide (length s ≤ n)) as [Hle|Hgt].
      * rewrite drop_ge in Hdrop by done. by apply elem_of_nil in Hdrop.
      * rewrite length_take. lia.
    + intros e He.
      apply (Hrank e (t, occurrences t l)).
      * by eapply subseteq_take.
      * done.
      * by eapply StronglySorted_app_1_elem_of.
Qed.

End counting.

(** ** Trending threats *)

Section trending.
Import pandas collections utils.

Lemma empty_no_column (df : DataFrame) c : empty df = true → has_column df c = false.
Proof.
  unfold empty, has_column. induction df as [|r df IH]; simpl; [done|].
  intros [Hr Hdf]%andb_true_iff. apply bool_decide_eq_true in Hr. subst r.
  rewrite bool_decide_eq_false_2; [by apply IH|].
  intros [v Hv]. unfold record in *. by rewrite lookup_empty in Hv.
Qed.

Lemma threat_of_fmap (items : list (string * nat)) :
  threat <$> ((λ tc : string * nat, mk_trending tc.1 tc.2) <$> items) = items.*1.
Proof. rewrite <- list_fmap_compose. by apply list_fmap_ext. Qed.

(** C8. [get_trending_threats] returns at most three entries, each a
    distinct non-null threat type of the batch paired with its number of
    occurrences; each entry ranks before every later one, more frequent
    first and, at equal frequency, first encountered first; and every threat
    type left out is ranked after all three entries.  For the threat types
    Phishing, Phishing, Ransomware the result is Phishing with 2, then
    Ransomware with 1. *)
Theorem get_trending_threats_top3 :
  (∀ df, empty df = true ∨ has_column df "threat_type" = true →
     ∃ r, get_trending_threats df = Returned r
          ∧ length r ≤ 3
          ∧ NoDup (threat <$> r)
          ∧ (∀ e, e ∈ r →
               threat e ∈ threat_types df
               ∧ count e = occurrences (threat e) (threat_types df))
          ∧ StronglySorted
              (λ e1 e2, ranks_before (threat_types df) (threat e1) (threat e2)) r
          ∧ (∀ t, t ∈ threat_types df → t ∉ threat <$> r →
               length r = 3
               ∧ ∀ e, e ∈ r → ranks_before (threat_types df) (threat e) t))
  ∧ (∀ a b c : record,
       a !! "threat_type" = Some (Some "Phishing") →
       b !! "threat_type" = Some (Some "Phishing") →
       c !! "threat_type" = Some (Some "Ransomware") →
       get_trending_threats [a; b; c]
       = Returned [mk_trending "Phishing" 2; mk_trending "Ransomware" 1]).
Proof.
  split.
  - intros df Hdf. unfold get_trending_threats, threat_types.
    destruct (empty df) eqn:Hempty.
    { exists []. unfold column. rewrite (empty_no_column df _ Hempty).
      split_and!.
      - done.
      - simpl. lia.
      - constructor.
      - by intros e ?%elem_of_nil.
      - constructor.
      - by intros t ?%elem_of_nil. }
    destruct Hdf as [?|Hcol]; [done|].
    unfold column. rewrite Hcol.
    set (l := dropna _).
    destruct (most_common_spec 3 l) as (Hlen & Hnodup & Hcount & Hsorted & Hout).
    eexists. split; [done|].
    rewrite threat_of_fmap, length_fmap. split_and!; [done..| | |].
    + intros e ([t k] & -> & Htk)%list_elem_of_fmap. simpl. by apply Hcount.
    + eapply StronglySorted_fmap; [|exact Hsorted]. by intros a b.
    + intros t Ht Hnot. destruct (Hout t Ht Hnot) as [Hl3 Hall].
      split; [done|].
      intros e ([t' k] & -> & Htk)%list_elem_of_fmap. by apply (Hall (t', k)).
  - intros a b c Ha Hb Hc. unfold get_trending_threats, empty, column, has_column.
    simpl.
    rewrite (bool_decide_eq_false_2 (a = ∅))
      by (intros ->; unfold record in *; by rewrite lookup_empty in Ha).
    simpl. by rewrite Ha, Hb, Hc.
Qed.

(** The batch Phishing, Phishing, Ransomware. *)
Lemma get_trending_threats_top3_witness :
  get_trending_threats example_batch
  = Returned [mk_trending "Phishing" 2; mk_trending "Ransomware" 1]
  ∧ ∃ r, get_trending_threats example_batch = Returned r
         ∧ length r ≤ 3
         ∧ NoDup (threat <$> r)
         ∧ (∀ e, e ∈ r →
              threat e ∈ threat_types example_batch
              ∧ count e = occurrences (threat e) (threat_types example_batch))
         ∧ StronglySorted
             (λ e1 e2, ranks_before (threat_types example_batch)
                         (threat e1) (threat e2)) r
         ∧ (∀ t, t ∈ threat_types example_batch → t ∉ threat <$> r →
              length r = 3
              ∧ ∀ e, e ∈ r →
                     ranks_before (threat_types example_batch) (threat e) t).
Proof.
  split.
  - apply (proj2 get_trending_threats_top3); reflexivity.
  - apply (proj1 get_trending_threats_top3). right. reflexivity.
Defined.

End trending.

(** * Further properties *)

(** ** The coordinate cache *)

Section coordinate_cache.
Import threat_map.

Lemma cache_get_None_keys region cache :
  cache_get region cache = None → region ∉ cache.*1.
Proof.
  induction cache as [|[k v] cache IH]; simpl; [by intros _ ?%elem_of_nil|].
  destruct (String.eqb k region) eqn:E; [done|].
  apply String.eqb_neq in E. intros Hnone [Heq|Hin]%elem_of_cons; [done|].
  by apply IH.
Qed.

Lemma cache_get_Some_keys region cache c :
  cache_get region cache = Some c → region ∈ cache.*1.
Proof.
  intros H%cache_get_elem. by apply (list_elem_of_fmap_2 fst) in H.
Qed.

Lemma cache_remove_keys region cache :
  (cache_remove region cache).*1 = filter (λ k, k ≠ region) cache.*1.
Proof.
  induction cache as [|[k v] cache IH]; [done|].
  cbn [cache_remove]. rewrite fmap_cons. cbn [fst].
  destruct (String.eqb k region) eqn:E.
  - apply String.eqb_eq in E as ->. rewrite filter_cons_False by (by intros ?).
    apply IH.
  - apply String.eqb_neq in E. rewrite filter_cons_True by done.
    by rewrite fmap_cons, IH.
Qed.

Lemma cache_remove_length region cache :
  region ∈ cache.*1 → length (cache_remove region cache) < length cache.
Proof.
  intros Hin. rewrite <- (length_fmap fst), cache_remove_keys.
  rewrite <- (length_fmap fst cache).
  eapply length_filter_lt; [done|]. by intros ?.
Qed.

(** X1. The table wins over everything: for a region of the table,
    [get_coordinates] returns the pair of the table and performs no effect,
    whatever was looked up before and whatever the geocoder would answer. *)
Theorem get_coordinates_table_region history geocode region c :
  default_coords !! region = Some c →
  (get_coordinates geocode (cache_after history) region).1.1 = c
  ∧ (get_coordinates geocode (cache_after history) region).2 = [].
Proof.
  intros Hc. unfold get_coordinates.
  destruct (cache_get region (cache_after history)) as [v|] eqn:Hget; simpl.
  - split; [|done]. eapply cache_after_sound; [by apply cache_get_elem|done].
  - by rewrite (get_coordinates_body_table _ _ _ Hc).
Qed.

Lemma get_coordinates_table_region_witness :
  (get_coordinates (λ _, GeocoderUnavailable)
     (cache_after [((λ _, Located 1 2), "Atlantis")]) "Europe").1.1
  = (54.5260, 15.2551)%Q
  ∧ (get_coordinates (λ _, GeocoderUnavailable)
       (cache_after [((λ _, Located 1 2), "Atlantis")]) "Europe").2 = [].
Proof.
  apply (get_coordinates_table_region
           [((λ _, Located 1 2), "Atlantis")] (λ _, GeocoderUnavailable) "Europe").
  reflexivity.
Defined.

(** X2. A result is remembered: asking again for the region just looked up
    returns the same pair and performs no effect, whatever the geocoder
    would answer now.  This holds for a fallback as well: after a lookup
    that failed, the region keeps the pair (0, 0) without a new attempt. *)
Theorem get_coordinates_memoized geocode1 geocode2 cache region :
  (get_coordinates geocode2
     (get_coordinates geocode1 cache region).1.2 region).1.1
  = (get_coordinates geocode1 cache region).1.1
  ∧ (get_coordinates geocode2
       (get_coordinates geocode1 cache region).1.2 region).2 = [].
Proof.
  assert (∀ c rest, cache_get region ((region, c) :: rest) = Some c) as Hhead.
  { intros c rest. simpl. by rewrite String.eqb_refl. }
  assert (∃ rest, (get_coordinates geocode1 cache region).1.2
                  = (region, (get_coordinates geocode1 cache region).1.1) :: rest)
    as [rest Hrest].
  { unfold get_coordinates.
    destruct (cache_get region cache) as [v|]; simpl; [by eexists|].
    destruct (get_coordinates_body geocode1 region) as [c effects]. by eexists. }
  rewrite Hrest. generalize (get_coordinates geocode1 cache region).1.1. intros c.
  unfold get_coordinates. by rewrite Hhead.
Qed.

(** X3. A lookup that is neither cached nor in the table asks the geocoder
    exactly once, after a delay of one second, and waits two more seconds
    when it was rate limited; it returns the location found, and the pair
    (0, 0) when none was found or the call failed. *)
Theorem get_coordinates_miss geocode cache region :
  cache_get region cache = None → default_coords !! region = None →
  (get_coordinates geocode cache region).1.1
  = match geocode region with
    | Located latitude longitude => (latitude, longitude)
    | _ => (0, 0)%Q
    end
  ∧ (get_coordinates geocode cache region).2
    = [Sleep 1; Geocode region]
      ++ match geocode region with
         | GeocoderRateLimited => [Sleep 2]
         | _ => []
         end.
Proof.
  intros Hget Hnot. unfold get_coordinates, get_coordinates_body.
  rewrite Hget, Hnot. by destruct (geocode region).
Qed.

Lemma get_coordinates_miss_witness :
  (get_coordinates (λ _, GeocoderRateLimited) [] "Atlantis").1.1 = (0, 0)%Q
  ∧ (get_coordinates (λ _, GeocoderRateLimited) [] "Atlantis").2
    = [Sleep 1; Geocode "Atlantis"; Sleep 2].
Proof.
  apply (get_coordinates_miss (λ _, GeocoderRateLimited) [] "Atlantis").
  - reflexivity.
  - reflexivity.
Defined.

Lemma get_coordinates_bounded geocode cache region :
  length cache ≤ maxsize → NoDup cache.*1 →
  length (get_coordinates geocode cache region).1.2 ≤ maxsize
  ∧ NoDup (get_coordinates geocode cache region).1.2.*1.
Proof.
  intros Hlen Hnodup. unfold get_coordinates.
  destruct (cache_get region cache) as [v|] eqn:Hget.
  - cbn [fst snd]. split.
    + pose proof (cache_remove_length region cache
                    (cache_get_Some_keys _ _ _ Hget)). simpl. lia.
    + rewrite fmap_cons. apply NoDup_cons. rewrite cache_remove_keys. split.
      * intros Hin. apply list_elem_of_filter in Hin as [Hne _]. done.
      * by apply NoDup_filter.
  - destruct (get_coordinates_body geocode region) as [c effects].
    cbn [fst snd]. split.
    + rewrite length_take. lia.
    + rewrite fmap_take. eapply sublist_NoDup; [|apply sublist_take].
      rewrite fmap_cons. apply NoDup_cons.
      split; [by apply cache_get_None_keys|done].
Qed.

(** X4. The cache never holds more than 128 regions, and holds a region at
    most once. *)
Theorem cache_after_bounded history :
  length (cache_after history) ≤ 128 ∧ NoDup (cache_after history).*1.
Proof.
  induction history as [|[geocode region] earlier [IHlen IHnodup]]; simpl.
  - split; [lia|constructor].
  - by apply get_coordinates_bounded.
Qed.

End coordinate_cache.

(** ** Threats by region *)

Section aggregation.
Import pandas threat_map.

Lemma region_lookup_None region d :
  region_lookup region d = None ↔ region ∉ d.*1.
Proof.
  induction d as [|[k data] d IH]; [by split; [intros _ ?%elem_of_nil|]|].
  cbn [region_lookup]. rewrite fmap_cons, not_elem_of_cons. cbn [fst].
  case_bool_decide as Hk; [split; [done|by intros [? _]]|].
  rewrite IH. split; [by intros ?|by intros [_ ?]].
Qed.

Lemma region_update_here region f d1 x d2 :
  region ∉ d1.*1 →
  region_update region f (d1 ++ (region, x) :: d2) = d1 ++ (region, f x) :: d2.
Proof.
  induction d1 as [|[k data] d1 IH]; intros Hd1.
  - simpl. by rewrite bool_decide_eq_true_2.
  - rewrite fmap_cons in Hd1. apply not_elem_of_cons in Hd1 as [Hne Hd1].
    simpl in *. rewrite bool_decide_eq_false_2 by done. by rewrite IH.
Qed.

Lemma record_threat_new d region t :
  region ∉ d.*1 →
  record_threat d region t
  = d ++ [(region, mk_region_data [t] (Z.max 0 (Threat.severity t)) 1)].
Proof.
  intros Hnew. unfold record_threat.
  rewrite (proj2 (region_lookup_None region d) Hnew).
  by rewrite region_update_here.
Qed.

Lemma record_threat_old d1 region x d2 t :
  region ∉ d1.*1 →
  record_threat (d1 ++ (region, x) :: d2) region t
  = d1 ++ (region,
           mk_region_data (threats x ++ [t])
             (Z.max (max_severity x) (Threat.severity t)) (count x + 1)) :: d2.
Proof.
  intros Hd1. unfold record_threat.
  destruct (region_lookup region (d1 ++ (region, x) :: d2)) eqn:E.
  - by rewrite region_update_here.
  - apply region_lookup_None in E. destruct E. rewrite fmap_app.
    apply elem_of_app. right. left.
Qed.

Lemma rows_of_snoc region rows article :
  rows_of region (rows ++ [article])
  = rows_of region rows
    ++ (if decide (row_get article "region" = region) then [article] else []).
Proof.
  unfold rows_of. by rewrite filter_app.
Qed.

Lemma highest_snoc l x : highest (l ++ [x]) = Z.max (highest l) x.
Proof.
  unfold highest. induction l as [|y l IH]; simpl; [lia|]. rewrite IH. lia.
Qed.

Lemma total_count_app d1 d2 : total_count (d1 ++ d2) = (total_count d1 + total_count d2)%Z.
Proof.
  unfold total_count. rewrite fmap_app.
  induction (d1.*2) as [|x l IH]; simpl; [done|]. rewrite IH. lia.
Qed.

Lemma grouped_nil : grouped [] [].
Proof.
  split.
  - constructor.
  - intros region. split; [by intros ?%elem_of_nil|].
    by intros (article & ?%elem_of_nil & _).
  - by intros region data ?%elem_of_nil.
  - done.
Qed.

(** One more row keeps the dict faithful to the rows. *)
Lemma grouped_snoc d rows article :
  grouped d rows →
  grouped (record_threat d (row_get article "region") (threat_of article))
    (rows ++ [article]).
Proof.
  intros [Hnodup Hkeys Hdata Htotal].
  set (region := row_get article "region").
  assert (∀ r, (∃ a, a ∈ rows ++ [article] ∧ row_get a "region" = r)
               ↔ r ∈ d.*1 ∨ r = region) as Hrows.
  { intros r. rewrite Hkeys. split.
    - intros (a & [Ha| ->%list_elem_of_singleton]%elem_of_app & Hr); [left; eauto|].
      by right.
    - intros [(a & Ha & Hr)| ->].
      + exists a. split; [apply elem_of_app; by left|done].
      + exists article. split; [apply elem_of_app; right; left|done]. }
  destruct (decide (region ∈ d.*1)) as [Hin|Hnew].
  - apply list_elem_of_fmap in Hin as (kd & Hk & Hin).
    destruct kd as [k x]. simpl in Hk. subst k.
    apply list_elem_of_split in Hin as (d1 & d2 & Hd). subst d.
    assert (region ∉ d1.*1) as Hd1.
    { rewrite fmap_app in Hnodup. apply NoDup_app in Hnodup as (_ & Hd & _).
      intros Hk. apply (Hd region Hk). simpl. left. }
    assert (region ∉ d2.*1) as Hd2.
    { rewrite fmap_app in Hnodup. simpl in Hnodup.
      by apply NoDup_app in Hnodup as (_ & _ & [Hk _]%NoDup_cons). }
    rewrite record_threat_old by done.
    destruct (Hdata region x) as (Hx1 & Hx2 & Hx3);
      [apply elem_of_app; right; left|].
    split.
    + by rewrite fmap_app in *.
    + intros r. rewrite Hrows. rewrite !fmap_app. simpl.
      split; [by intros ?; left|]. intros [?| ->]; [done|].
      apply elem_of_app. right. left.
    + intros r data Hr. rewrite rows_of_snoc.
      apply elem_of_app in Hr as [Hr|[Hr|Hr]%elem_of_cons].
      * assert (r ≠ region) as Hne.
        { intros ->. apply Hd1. by apply (list_elem_of_fmap_2 fst) in Hr. }
        rewrite decide_False by done. rewrite app_nil_r.
        apply Hdata. apply elem_of_app. by left.
      * simplify_eq. rewrite decide_True by done. simpl.
        rewrite fmap_app, length_app, Hx1, Hx2. simpl. split_and!; [done|lia|].
        rewrite fmap_app.
        change (Threat.severity <$> [threat_of article])
          with [Threat.severity (threat_of article)].
        by rewrite highest_snoc, Hx3, Hx1.
      * assert (r ≠ region) as Hne.
        { intros ->. apply Hd2. by apply (list_elem_of_fmap_2 fst) in Hr. }
        rewrite decide_False by done. rewrite app_nil_r.
        apply Hdata. apply elem_of_app. right. by right.
    + rewrite total_count_app in *. unfold total_count in *. simpl in *.
      rewrite length_app. simpl. lia.
  - rewrite record_threat_new by done.
    split.
    + rewrite fmap_app. apply NoDup_app. split; [done|]. split.
      * intros r Hr [->|[]%elem_of_nil]%elem_of_cons. done.
      * apply NoDup_singleton.
    + intros r. rewrite Hrows, fmap_app, elem_of_app. simpl.
      by rewrite list_elem_of_singleton.
    + intros r data [Hr|Hr%list_elem_of_singleton]%elem_of_app.
      * assert (r ≠ region) as Hne.
        { intros ->. apply Hnew. by apply (list_elem_of_fmap_2 fst) in Hr. }
        rewrite rows_of_snoc, decide_False by done. rewrite app_nil_r.
        by apply Hdata.
      * simplify_eq. simpl. rewrite rows_of_snoc, decide_True by done.
        assert (rows_of region rows = []) as ->.
        { unfold rows_of. destruct (filter _ rows) as [|a l] eqn:E; [done|].
          assert (a ∈ filter (λ a, row_get a "region" = region) rows) as Ha
            by (rewrite E; left).
          apply list_elem_of_filter in Ha as [Ha1 Ha2].
          destruct Hnew. apply Hkeys. eauto. }
        simpl. split_and!; [done|done|]. unfold highest. simpl. lia.
    + rewrite total_count_app, Htotal, length_app. unfold total_count. simpl. lia.
Qed.

Lemma grouped_fold rows :
  grouped
    (fold_left (λ d article,
                  record_threat d (row_get article "region") (threat_of article))
       rows [])
    rows.
Proof.
  induction rows as [|article rows IH] using rev_ind; [apply grouped_nil|].
  rewrite fold_left_app. simpl. by apply grouped_snoc.
Qed.

(** With the columns it reads by label in the frame, the pass does not
    raise, and it is the fold of [record_threat] over the rows. *)
Lemma collect_rows_pure news_data rows : ∀ d,
  (∀ c, c ∈ read_columns → has_column news_data c = true) →
  collect_rows news_data rows d
  = Returned
      (fold_left (λ d article,
                    record_threat d (row_get article "region") (threat_of article))
         rows d).
Proof.
  intros d Hcols. revert d.
  induction rows as [|article rows IH]; intros d; simpl; [done|].
  unfold collect_row, row_getitem, and_then.
  rewrite !Hcols by (unfold read_columns; set_solver).
  apply IH.
Qed.

(** When the pass returns from a frame that has a row, the frame has the
    columns the pass reads by label. *)
Lemma collect_rows_columns news_data article rows d0 d :
  collect_rows news_data (article :: rows) d0 = Returned d →
  ∀ c, c ∈ read_columns → has_column news_data c = true.
Proof.
  simpl. unfold collect_row, row_getitem, and_then.
  destruct (has_column news_data "region") eqn:H1; [|done].
  destruct (has_column news_data "threat_type") eqn:H2; [|done].
  destruct (has_column news_data "title") eqn:H3; [|done].
  destruct (has_column news_data "source") eqn:H4; [|done].
  destruct (has_column news_data "url") eqn:H5; [|done].
  intros _ c Hc. unfold read_columns in Hc.
  repeat (apply elem_of_cons in Hc as [->|Hc]; [done|]).
  by apply elem_of_nil in Hc.
Qed.

Lemma region_threats_returned news_data d :
  region_threats news_data = Returned d → d = [] ∨ grouped d news_data.
Proof.
  unfold region_threats. destruct (empty news_data); [intros ?; simplify_eq; by left|].
  destruct news_data as [|article rows]; [simpl; intros ?; simplify_eq; by left|].
  intros H. pose proof (collect_rows_columns _ _ _ _ _ H) as Hcols.
  rewrite collect_rows_pure in H by done. simplify_eq. right.
  exact (grouped_fold (article :: rows)).
Qed.

End aggregation.

(** ** The map model *)

Section map_model.
Import pandas threat_map.

Lemma severity_in_range threat_type category :
  (1 ≤ calculate_threat_severity threat_type category ≤ 5)%Z.
Proof.
  unfold calculate_threat_severity.
  pose proof (base_severity_range threat_type) as Hb.
  destruct (truthy category); [|done].
  destruct category as [c|]; cbn [dict_get]; [|lia].
  rewrite category_modifiers_lookup. case_bool_decide; simpl; lia.
Qed.

Lemma highest_upper l x : x ∈ l → (x ≤ highest l)%Z.
Proof.
  unfold highest. induction l as [|y l IH]; [by intros ?%elem_of_nil|].
  intros [->|Hx]%elem_of_cons; simpl; [lia|]. specialize (IH Hx). lia.
Qed.

Lemma highest_attained l :
  l ≠ [] → (∀ x, x ∈ l → (0 ≤ x)%Z) → highest l ∈ l.
Proof.
  unfold highest. induction l as [|y l IH]; [done|]. intros _ Hpos.
  destruct l as [|z l].
  - simpl. rewrite Z.max_l; [left|]. apply Hpos. left.
  - assert (foldr Z.max 0%Z (z :: l) ∈ z :: l) as Hin.
    { apply IH; [done|]. intros x Hx. apply Hpos. by right. }
    change (foldr Z.max 0%Z (y :: z :: l))
      with (Z.max y (foldr Z.max 0%Z (z :: l))).
    destruct (Z.max_spec y (foldr Z.max 0%Z (z :: l))) as [[_ ->]|[_ ->]];
      [by right|left].
Qed.

(** X5. From a frame that has the columns read by label, the first pass builds
    one entry per region met: the regions are distinct and are those of the
    rows; each entry lists the threats of the region's rows in row order and
    counts them; the counts add up to the number of rows. *)
Theorem region_threats_groups news_data :
  (∀ c, c ∈ read_columns → has_column news_data c = true) →
  ∃ d, region_threats news_data = Returned d
       ∧ NoDup d.*1
       ∧ (∀ region, region ∈ d.*1
            ↔ ∃ article, article ∈ news_data ∧ row_get article "region" = region)
       ∧ (∀ region data, (region, data) ∈ d →
            threats data = threat_of <$> rows_of region news_data
            ∧ count data = Z.of_nat (length (rows_of region news_data)))
       ∧ total_count d = Z.of_nat (length news_data).
Proof.
  intros Hcols. unfold region_threats.
  destruct (empty news_data) eqn:Hempty.
  { pose proof (Hcols "region" ltac:(left)) as Hregion.
    by rewrite (empty_no_column news_data "region" Hempty) in Hregion. }
  rewrite collect_rows_pure by done.
  destruct (grouped_fold news_data) as [Hnodup Hkeys Hdata Htotal].
  eexists. split; [done|]. split_and!; [done..| |done].
  intros region data Hin. destruct (Hdata region data Hin) as (? & ? & _). done.
Qed.

Lemma region_threats_groups_witness :
  ∃ d, region_threats map_batch = Returned d
       ∧ NoDup d.*1
       ∧ (∀ region, region ∈ d.*1
            ↔ ∃ article, article ∈ map_batch ∧ row_get article "region" = region)
       ∧ (∀ region data, (region, data) ∈ d →
            threats data = threat_of <$> rows_of region map_batch
            ∧ count data = Z.of_nat (length (rows_of region map_batch)))
       ∧ total_count d = Z.of_nat (length map_batch).
Proof.
  apply (region_threats_groups map_batch). intros c Hc.
  apply elem_of_cons in Hc as [Hc|Hc]; [by rewrite Hc|].
  apply elem_of_cons in Hc as [Hc|Hc]; [by rewrite Hc|].
  apply elem_of_cons in Hc as [Hc|Hc]; [by rewrite Hc|].
  apply elem_of_cons in Hc as [Hc|Hc]; [by rewrite Hc|].
  apply elem_of_cons in Hc as [Hc|Hc]; [by rewrite Hc|].
  by apply elem_of_nil in Hc.
Defined.

(** X6. For every region of the dict the first pass returns, the maximum kept
    is the severity of one of the region's threats and no threat of the
    region exceeds it; it lies between 1 and 5, so the marker gets a colour
    of the table, never the fallback, and a radius between 12 and 20. *)
Theorem region_threats_severity news_data d region data :
  region_threats news_data = Returned d → (region, data) ∈ d →
  (1 ≤ max_severity data ≤ 5)%Z
  ∧ (∀ t, t ∈ threats data → (Threat.severity t ≤ max_severity data)%Z)
  ∧ (∃ t, t ∈ threats data ∧ Threat.severity t = max_severity data)
  ∧ severity_colors !! max_severity data = Some (marker_color (max_severity data))
  ∧ (12 ≤ marker_radius (max_severity data) ≤ 20)%Z.
Proof.
  intros Hret Hin.
  destruct (region_threats_returned _ _ Hret) as [->|[Hnodup Hkeys Hdata Htotal]];
    [by apply elem_of_nil in Hin|].
  destruct (Hdata region data Hin) as (Hthreats & _ & Hmax).
  assert (∀ t, t ∈ threats data → (1 ≤ Threat.severity t ≤ 5)%Z) as Hrange.
  { intros t. rewrite Hthreats. intros (a & -> & _)%list_elem_of_fmap.
    apply severity_in_range. }
  assert (threats data ≠ []) as Hne.
  { assert (region ∈ d.*1) as Hk by (by apply (list_elem_of_fmap_2 fst) in Hin).
    apply Hkeys in Hk as (article & Ha & Hr). rewrite Hthreats.
    assert (article ∈ rows_of region news_data) as Hrow
      by (by apply list_elem_of_filter).
    intros Hnil. apply fmap_nil_inv in Hnil. rewrite Hnil in Hrow.
    by apply elem_of_nil in Hrow. }
  assert (∃ t, t ∈ threats data ∧ Threat.severity t = max_severity data)
    as (t & Ht & Hteq).
  { rewrite Hmax.
    assert (highest (Threat.severity <$> threats data)
            ∈ Threat.severity <$> threats data) as Hin'.
    { apply highest_attained.
      - intros Hnil. by apply fmap_nil_inv in Hnil.
      - intros x (t & -> & Ht)%list_elem_of_fmap. specialize (Hrange t Ht). lia. }
    apply list_elem_of_fmap in Hin' as (t & Heq & Ht). eauto. }
  pose proof (Hrange t Ht) as Hr. rewrite Hteq in Hr.
  split_and!.
  - lia.
  - lia.
  - intros t' Ht'. rewrite Hmax. apply highest_upper.
    by apply list_elem_of_fmap_2.
  - eauto.
  - unfold marker_color.
    assert (max_severity data = 1 ∨ max_severity data = 2 ∨ max_severity data = 3
            ∨ max_severity data = 4 ∨ max_severity data = 5)%Z
      as [->|[->|[->|[->| ->]]]] by lia; done.
  - unfold marker_radius. lia.
  - unfold marker_radius. lia.
Qed.

Lemma region_threats_severity_witness :
  (1 ≤ max_severity kenya_data ≤ 5)%Z
  ∧ (∀ t, t ∈ threats kenya_data → (Threat.severity t ≤ max_severity kenya_data)%Z)
  ∧ (∃ t, t ∈ threats kenya_data ∧ Threat.severity t = max_severity kenya_data)
  ∧ severity_colors !! max_severity kenya_data
    = Some (marker_color (max_severity kenya_data))
  ∧ (12 ≤ marker_radius (max_severity kenya_data) ≤ 20)%Z.
Proof.
  apply (region_threats_severity map_batch map_dict (Some "Kenya") kenya_data).
  - reflexivity.
  - vm_compute. left.
Defined.

(** X7. The first pass on its edges: an empty frame gives no region, and so a
    map without markers; a frame that has rows but lacks one of the columns
    read by label makes the pass, and so [create_threat_map], raise
    [KeyError]; the [category] column is read with [get] and may be
    missing. *)
Theorem region_threats_edges news_data :
  (empty news_data = true → region_threats news_data = Returned [])
  ∧ (empty news_data = false →
     ∀ c, c ∈ read_columns → has_column news_data c = false →
          ∃ missing, missing ∈ read_columns
                     ∧ region_threats news_data = Raised (KeyError missing))
  ∧ ((∀ c, c ∈ read_columns → has_column news_data c = true) →
     is_raised (region_threats news_data) = false).
Proof.
  split_and!.
  - intros Hempty. unfold region_threats. by rewrite Hempty.
  - intros Hempty c Hc Hmissing. unfold region_threats. rewrite Hempty.
    destruct news_data as [|article rows]; [done|].
    simpl. unfold collect_row, row_getitem, and_then.
    destruct (has_column (article :: rows) "region") eqn:H1;
      [|exists "region"; split; [by apply (bool_decide_unpack _)|done]].
    destruct (has_column (article :: rows) "threat_type") eqn:H2;
      [|exists "threat_type"; split; [by apply (bool_decide_unpack _)|done]].
    destruct (has_column (article :: rows) "title") eqn:H3;
      [|exists "title"; split; [by apply (bool_decide_unpack _)|done]].
    destruct (has_column (article :: rows) "source") eqn:H4;
      [|exists "source"; split; [by apply (bool_decide_unpack _)|done]].
    destruct (has_column (article :: rows) "url") eqn:H5;
      [|exists "url"; split; [by apply (bool_decide_unpack _)|done]].
    exfalso. unfold read_columns in Hc.
    repeat (apply elem_of_cons in Hc as [->|Hc]; [congruence|]).
    by apply elem_of_nil in Hc.
  - intros Hcols. unfold region_threats.
    destruct (empty news_data); [done|]. by rewrite collect_rows_pure.
Qed.

Lemma region_threats_edges_witness :
  region_threats [] = Returned []
  ∧ (∃ missing, missing ∈ read_columns
                ∧ region_threats [threat_row (Some "Phishing")]
                  = Raised (KeyError missing))
  ∧ is_raised (region_threats map_batch) = false.
Proof.
  split_and!.
  - apply (proj1 (region_threats_edges [])). reflexivity.
  - apply (proj1 (proj2 (region_threats_edges [threat_row (Some "Phishing")]))
             eq_refl "region").
    + left.
    + reflexivity.
  - apply (proj2 (proj2 (region_threats_edges map_batch))). intros c Hc.
    apply elem_of_cons in Hc as [Hc|Hc]; [by rewrite Hc|].
    apply elem_of_cons in Hc as [Hc|Hc]; [by rewrite Hc|].
    apply elem_of_cons in Hc as [Hc|Hc]; [by rewrite Hc|].
    apply elem_of_cons in Hc as [Hc|Hc]; [by rewrite Hc|].
    apply elem_of_cons in Hc as [Hc|Hc]; [by rewrite Hc|].
    by apply elem_of_nil in Hc.
Defined.

Lemma insert_by_severity_perm x s : insert_by_severity x s ≡ₚ x :: s.
Proof.
  induction s as [|y s IH]; simpl; [done|].
  destruct (Threat.severity x <? Threat.severity y)%Z; [|done].
  by rewrite IH, Permutation_swap.
Qed.

Lemma insert_by_severity_sorted x s :
  StronglySorted (λ a b, (Threat.severity b ≤ Threat.severity a)%Z) s →
  StronglySorted (λ a b, (Threat.severity b ≤ Threat.severity a)%Z)
    (insert_by_severity x s).
Proof.
  induction 1 as [|y s Hs IH Hy]; simpl; [repeat constructor|].
  destruct (Threat.severity x <? Threat.severity y)%Z eqn:E.
  - apply Z.ltb_lt in E. constructor; [done|].
    rewrite insert_by_severity_perm. constructor; [lia|done].
  - apply Z.ltb_ge in E. constructor; [by constructor|].
    constructor; [done|]. eapply Forall_impl; [done|]. simpl. lia.
Qed.

Lemma insert_by_severity_filter v x s :
  filter (λ t, Threat.severity t = v) (insert_by_severity x s)
  = filter (λ t, Threat.severity t = v) (x :: s).
Proof.
  induction s as [|y s IH]; simpl; [done|].
  destruct (Threat.severity x <? Threat.severity y)%Z eqn:E; [|done].
  apply Z.ltb_lt in E. rewrite (filter_cons _ y), IH, !filter_cons.
  repeat case_decide; try done. lia.
Qed.

(** X8. The threats of a region are listed most severe first: the list shown
    is a rearrangement of the region's threats in which severity never
    increases, and threats of the same severity keep the order in which
    they were collected. *)
Theorem sorted_by_severity_stable items :
  sorted_by_severity items ≡ₚ items
  ∧ StronglySorted (λ a b, (Threat.severity b ≤ Threat.severity a)%Z)
      (sorted_by_severity items)
  ∧ ∀ v, filter (λ t, Threat.severity t = v) (sorted_by_severity items)
         = filter (λ t, Threat.severity t = v) items.
Proof.
  unfold sorted_by_severity.
  induction items as [|x items (Hperm & Hsorted & Hstable)]; simpl.
  - split_and!; [done|constructor|done].
  - split_and!.
    + by rewrite insert_by_severity_perm, Hperm.
    + by apply insert_by_severity_sorted.
    + intros v. by rewrite insert_by_severity_filter, !filter_cons, Hstable.
Qed.

End map_model.

(** ** What a source contributes *)

Section contribution.
Import scraper.

Section one_source.
Variable w : web.
Variable source_name : string.
Variable info : source_info.

Lemma scrape_element_bounded e :
  ∃ new o,
    (∀ arts c,
       scrape_element w source_name info e (mk_state arts c)
       = (mk_state (arts ++ new) c, o))
    ∧ length new ≤ 1
    ∧ Forall (from_source source_name info) new.
Proof.
  unfold scrape_element, bind, lift, ret, append, modify.
  destruct (select_first e title_selectors) as [[tag|]|x].
  - destruct (extract_url (ObjTag tag)) as [[|a href]|values].
    + exists [], (Returned tt). split; [intros; by rewrite app_nil_r|].
      split; [simpl; lia|constructor].
    + eexists [_], (Returned tt). split; [done|]. split; [simpl; lia|].
      by apply Forall_singleton.
    + exists [], (Returned tt). split; [intros; by rewrite app_nil_r|].
      split; [simpl; lia|constructor].
  - exists [], (Returned tt). split; [intros; by rewrite app_nil_r|].
      split; [simpl; lia|constructor].
  - exists [], (Raised x). split; [intros; by rewrite app_nil_r|].
      split; [simpl; lia|constructor].
Qed.

Lemma scrape_elements_bounded elements :
  ∃ new o,
    (∀ arts c,
       for_each elements (scrape_element w source_name info) (mk_state arts c)
       = (mk_state (arts ++ new) c, o))
    ∧ length new ≤ length elements
    ∧ Forall (from_source source_name info) new.
Proof.
  induction elements as [|e elements (new2 & o2 & IH & Hlen2 & Hfrom2)]; simpl.
  - exists [], (Returned tt). split; [intros; unfold ret; by rewrite app_nil_r|].
    split; [simpl; lia|constructor].
  - destruct (scrape_element_bounded e) as (new1 & o1 & H1 & Hlen1 & Hfrom1).
    destruct o1 as [[]|x].
    + exists (new1 ++ new2), o2. split_and!.
      * intros. unfold bind. by rewrite H1, IH, app_assoc.
      * rewrite length_app. lia.
      * by apply Forall_app.
    + exists new1, (Raised x). split_and!.
      * intros. unfold bind. by rewrite H1.
      * lia.
      * done.
Qed.

(** One selector leaves at most five articles, all of the source. *)
Lemma harvest_bounded soup selector st o :
  harvest w source_name info soup selector (mk_state [] []) = (st, o) →
  length (articles st) ≤ 5 ∧ Forall (from_source source_name info) (articles st).
Proof.
  unfold harvest, bind, lift.
  destruct (select soup selector) as [elements|x].
  - destruct (scrape_elements_bounded (take 5 elements))
      as (new & o' & Hrun & Hlen & Hfrom).
    rewrite Hrun. intros ?; simplify_eq. simpl.
    rewrite length_take in Hlen. split; [lia|done].
  - intros ?; simplify_eq. simpl. split; [lia|constructor].
Qed.

Lemma scan_bounded soup remaining : ∀ c,
  length (articles (scan w source_name info soup remaining (mk_state [] c)).1) ≤ 5
  ∧ Forall (from_source source_name info)
      (articles (scan w source_name info soup remaining (mk_state [] c)).1).
Proof.
  induction remaining as [|selector rest IH]; intros c.
  - simpl. split; [lia|constructor].
  - destruct (harvest w source_name info soup selector (mk_state [] []))
      as [st o] eqn:Hharvest.
    rewrite (scan_step _ _ _ _ _ _ _ _ _ Hharvest).
    pose proof (harvest_bounded _ _ _ _ Hharvest) as Hb.
    destruct o as [[]|x]; [|done].
    destruct (articles st) eqn:E; [apply IH|done].
Qed.

Lemma scrape_source_bounded :
  length (scrape_source w source_name info) ≤ 5
  ∧ Forall (from_source source_name info) (scrape_source w source_name info).
Proof.
  unfold scrape_source. rewrite scrape_source_run_state.
  unfold scrape_source_try, bind, lift.
  destruct (requests_get w (url info)) as [response|x];
    [|simpl; split; [lia|constructor]].
  destruct (BeautifulSoup w response) as [soup|x];
    [|simpl; split; [lia|constructor]].
  apply scan_bounded.
Qed.

End one_source.

(** X9. A source contributes at most five articles, whatever its page holds,
    and each of them carries the name and the region the source was
    scraped under. *)
Theorem scrape_source_capped w name info :
  length (scrape_source w name info) ≤ 5
  ∧ ∀ a, a ∈ scrape_source w name info →
         article_source a = name ∧ article_region a = region info.
Proof.
  destruct (scrape_source_bounded w name info) as [Hlen Hfrom].
  split; [done|]. intros a Ha. by apply (proj1 (Forall_forall _ _) Hfrom).
Qed.

Lemma concat_length_bound {A B} (f : A → list B) n l :
  (∀ x, x ∈ l → length (f x) ≤ n) → length (concat (f <$> l)) ≤ n * length l.
Proof.
  induction l as [|x l IH]; intros H; [simpl; lia|].
  rewrite fmap_cons. cbn [concat length]. rewrite length_app.
  specialize (H x ltac:(left)) as Hx.
  assert (length (concat (f <$> l)) ≤ n * length l)
    by (apply IH; intros; apply H; by right).
  lia.
Qed.

(** X10. A run over the registry collects at most 115 articles; each one names
    a source of the registry, carries the region the registry gives that
    source, and has a url that starts with "http". *)
Theorem scrape_all_sources_provenance w :
  length (scrape_all_sources w) ≤ 115
  ∧ ∀ a, a ∈ scrape_all_sources w →
         (∃ info, (article_source a, info) ∈ SOURCES
                  ∧ article_region a = region info)
         ∧ String.prefix "http" (article_url a) = true.
Proof.
  unfold scrape_all_sources. rewrite collect_concat. split.
  - change 115 with (5 * length SOURCES).
    apply (concat_length_bound (λ entry : string * source_info,
                                  scrape_source w entry.1 entry.2)).
    intros entry _. apply scrape_source_bounded.
  - intros a Ha. apply list_elem_of_In, in_concat in Ha as (found & Hfound & Ha).
    apply list_elem_of_In in Ha, Hfound.
    apply list_elem_of_fmap in Hfound as ([name info] & -> & Hentry). simpl in Ha.
    destruct (proj1 (Forall_forall _ _)
                (proj2 (scrape_source_bounded w name info)) a Ha) as [Hs Hr].
    split.
    + exists info. by rewrite Hs.
    + apply (scrape_source_http w name info); [|done].
      by apply prefix_https_http, (SOURCES_https name).
Qed.

End contribution.

(** ** Normalised text *)

Section text.
Import scraper.

Lemma append_cons a s t : String a s +:+ t = String a (s +:+ t).
Proof. done. Qed.

Lemma append_empty_r s : s +:+ "" = s.
Proof. induction s as [|x s IH]; [done|]. by rewrite append_cons, IH. Qed.

Lemma space2_space a : space2 a space = false.
Proof. unfold space2. cbn. apply andb_false_r. Qed.

Lemma space3_space_2 a c : space3 a space c = false.
Proof.
  unfold space3. cbn. by rewrite !andb_false_r.
Qed.

Lemma space3_space_3 a b : space3 a b space = false.
Proof.
  unfold space3. cbn. by rewrite !andb_false_r.
Qed.

(** Whether a whitespace character starts a string is decided by the
    bytes the string has: fewer bytes, no more matches. *)
Lemma space_width_prefix u v : space_width (u +:+ v) = 0 → space_width u = 0.
Proof.
  destruct u as [|a [|b [|c u]]]; [done|..]; rewrite ?append_cons; cbn [space_width].
  - destruct (space1 a); [done|]. done.
  - destruct (space1 a); [done|]. destruct (space2 a b); done.
  - done.
Qed.

(** A space after the string starts no whitespace character inside it. *)
Lemma space_width_context u t :
  u ≠ "" → space_width u = 0 → t = "" ∨ (∃ t', t = String space t') →
  space_width (u +:+ t) = 0.
Proof.
  intros Hu H0 [->|[t' ->]]; [by rewrite append_empty_r|].
  destruct u as [|a [|b [|c u]]]; [done|..]; rewrite ?append_cons;
    cbn [space_width] in *.
  - change ("" +:+ String space t') with (String space t').
    destruct (space1 a); [done|]. rewrite space2_space.
    destruct t'; [done|]. by rewrite space3_space_2.
  - change ("" +:+ String space t') with (String space t').
    destruct (space1 a); [done|]. destruct (space2 a b); [done|].
    by rewrite space3_space_3.
  - done.
Qed.

Lemma split_go_word w : ∀ t,
  w ≠ "" → space_free w = true → t = "" ∨ (∃ t', t = String space t') →
  split_go 0 (w +:+ t) = (w +:+ (split_go 0 t).1, (split_go 0 t).2).
Proof.
  induction w as [|a w IH]; intros t Hne Hfree Ht; [done|].
  cbn [space_free] in Hfree. apply andb_prop in Hfree as [H0 Hfree].
  apply Nat.eqb_eq in H0.
  rewrite append_cons. cbn [split_go].
  rewrite <- append_cons, (space_width_context _ _ Hne H0 Ht), append_cons.
  destruct w as [|b w].
  - change ("" +:+ t) with t. by destruct (split_go 0 t).
  - rewrite IH by done. done.
Qed.

Lemma split_go_space t :
  split_go 0 (String space t)
  = ("", push (split_go 0 t).1 (split_go 0 t).2).
Proof.
  cbn [split_go space_width]. change (space1 space) with true. cbn match.
  by destruct (split_go 0 t).
Qed.

Lemma split_go_concat ws :
  Forall is_word ws →
  split_go 0 (String.concat " " ws)
  = match ws with [] => ("", []) | w :: rest => (w, rest) end.
Proof.
  induction 1 as [|w ws [Hne Hfree] Hws IH]; [done|].
  destruct ws as [|w2 ws].
  - cbn [String.concat]. rewrite <- (append_empty_r w) at 1.
    rewrite split_go_word by auto. cbn. by rewrite append_empty_r.
  - change (String.concat " " (w :: w2 :: ws))
      with (w +:+ String space (String.concat " " (w2 :: ws))).
    rewrite split_go_word by eauto. rewrite split_go_space, IH. cbn [fst snd].
    rewrite append_empty_r. f_equal.
    apply Forall_cons in Hws as [[Hne2 _] _]. by destruct w2.
Qed.

Lemma split_concat ws : Forall is_word ws → split (String.concat " " ws) = ws.
Proof.
  intros Hws. unfold split. rewrite split_go_concat by done.
  destruct Hws as [|w ws [Hne _] _]; [done|]. by destruct w.
Qed.

Lemma push_words w ws :
  space_free w = true → Forall is_word ws → Forall is_word (push w ws).
Proof. destruct w; [done|]. intros. by constructor. Qed.

Lemma split_go_words s : ∀ inside,
  space_free (split_go inside s).1 = true
  ∧ Forall is_word (split_go inside s).2
  ∧ (inside = 0 → ∃ v, s = (split_go inside s).1 +:+ v).
Proof.
  induction s as [|a s IH]; intros inside.
  - cbn. split; [done|]. split; [constructor|]. by exists "".
  - cbn [split_go]. destruct inside as [|n].
    + destruct (space_width (String a s)) as [|n] eqn:Hw.
      * destruct (IH 0) as (Hfree & Hwords & Hprefix).
        destruct (Hprefix eq_refl) as [v Hv].
        destruct (split_go 0 s) as [w ws]. cbn [fst snd] in *.
        split_and!; [|done|intros _; exists v; by rewrite append_cons, <- Hv].
        cbn [space_free]. rewrite Hfree, andb_true_r. apply Nat.eqb_eq.
        apply (space_width_prefix _ v). by rewrite append_cons, <- Hv.
      * destruct (IH n) as (Hfree & Hwords & _).
        destruct (split_go n s) as [w ws]. cbn [fst snd] in *.
        split_and!; [done|by apply push_words|]. intros _. by exists (String a s).
    + destruct (IH n) as (Hfree & Hwords & _). split_and!; [done..|]. done.
Qed.

Lemma split_words s : Forall is_word (split s).
Proof.
  unfold split. destruct (split_go_words s 0) as (Hfree & Hwords & _).
  destruct (split_go 0 s). by apply push_words.
Qed.

Lemma clean_text_words text :
  split (clean_text text) = from_option split [] text.
Proof.
  destruct text as [[|a s]|]; [done| |done].
  cbn [clean_text from_option]. apply split_concat, split_words.
Qed.

Lemma clean_text_idempotent text :
  clean_text (Some (clean_text text)) = clean_text text.
Proof.
  pose proof (clean_text_words text) as Hwords.
  destruct text as [[|b s]|]; [done| |done].
  cbn [clean_text from_option] in *.
  destruct (String.concat " " (split (String b s))) as [|a r] eqn:E;
    [done|].
  by rewrite Hwords.
Qed.

(** X11. [clean_text] returns the words of the text, in their order, separated
    by single spaces: the result has no other whitespace, keeps every word,
    is empty exactly when the text has no word, and cleaning it again
    changes nothing.  Whitespace is that of [str.split]: the text "a",
    U+001F, "b" becomes "a b", a lone U+00A0 becomes the empty string, and
    "x", U+2003, "y" becomes "x y". *)
Theorem clean_text_normal_form text :
  (∃ ws, Forall is_word ws ∧ clean_text text = String.concat " " ws)
  ∧ split (clean_text text) = from_option split [] text
  ∧ (clean_text text = "" ↔ from_option split [] text = [])
  ∧ clean_text (Some (clean_text text)) = clean_text text
  ∧ clean_text (Some ("a" +:+ String (Ascii.ascii_of_nat 31) "b")) = "a b"
  ∧ clean_text (Some (String (Ascii.ascii_of_nat 194)
                        (String (Ascii.ascii_of_nat 160) ""))) = ""
  ∧ clean_text (Some ("x" +:+ String (Ascii.ascii_of_nat 226)
                                (String (Ascii.ascii_of_nat 128)
                                   (String (Ascii.ascii_of_nat 131) "y"))))
    = "x y".
Proof.
  pose proof (clean_text_words text) as Hwords.
  split_and!; [| | | |done..].
  - exists (from_option split [] text). split.
    + destruct text as [s|]; [apply split_words|constructor].
    + by destruct text as [[|a s]|].
  - done.
  - rewrite <- Hwords. split; [by intros ->|].
    intros Hnone. destruct text as [[|a s]|]; [done| |done].
    cbn [clean_text] in *. rewrite Hwords in Hnone. cbn [from_option] in Hnone.
    by rewrite Hnone.
  - apply clean_text_idempotent.
Qed.

(** X12. The summary of an article is normalised text, whatever the download
    and the extraction do: cleaning it again changes nothing, and it is
    empty when either of them raises or nothing is extracted. *)
Theorem scrape_article_normalized w url :
  clean_text (Some (scrape_article w url)) = scrape_article w url
  ∧ ((∀ downloaded, fetch_url w url = Returned downloaded →
        ∀ text, extract w downloaded ≠ Returned (Some text)) →
     scrape_article w url = "").
Proof.
  unfold scrape_article. split.
  - destruct (fetch_url w url) as [downloaded|x]; [|done].
    destruct (extract w downloaded) as [text|x]; [|done].
    apply clean_text_idempotent.
  - intros Hnone. destruct (fetch_url w url) as [downloaded|x]; [|done].
    specialize (Hnone downloaded eq_refl).
    destruct (extract w downloaded) as [[text|]|x]; [|done..].
    by destruct (Hnone text).
Qed.

End text.

Lemma scrape_article_normalized_witness :
  scraper.scrape_article (scraper.serving (scraper.page []))
    "https://example.test/story" = "".
Proof.
  apply (proj2 (scrape_article_normalized _ _)). by intros downloaded _ text.
Defined.

(** ** What classification writes *)

Section classified.
Import classifier.
Variable create : chat_request → outcome (option string).
Variable json_loads : string → outcome pyval.
Variable str : pyval → string.

Lemma classify_article_try_returned a a' r :
  classify_article_try create json_loads str a = (a', Returned r) →
  ∃ category threat_type,
    a' = <["threat_type" := threat_type]> (<["category" := category]> a).
Proof.
  unfold classify_article_try, getitem, setitem, bind, lift, get, modify.
  destruct (a !! "title"); [|done].
  destruct (a !! "summary") as [summary|]; [|done].
  destruct (slice_to 1000 summary); [|done].
  destruct (create _) as [content|]; [|done].
  destruct (parse_content json_loads content) as [result|]; [|done].
  destruct result; try done.
  cbn [result_get]. intros ?; simplify_eq. eauto.
Qed.

Lemma classify_article_answered a title summary head text result :
  a !! "title" = Some title → a !! "summary" = Some summary →
  slice_to 1000 summary = Returned head →
  create (classification_request str title head) = Returned (Some text) →
  json_loads text = Returned result →
  classify_article_try create json_loads str a
  = (category <- lift (result_get result "category" (PStr "Uncategorized")) ;;
     setitem "category" category ;;
     threat_type <- lift (result_get result "threat_type" (PStr "Other")) ;;
     setitem "threat_type" threat_type ;;
     get)%py a.
Proof.
  intros Ht Hs Hh Hc Hj.
  unfold classify_article_try, getitem, bind at 1 2 3 4 5, lift at 1 2 3.
  rewrite Ht, Hs, Hh.
  change (mk_request "gpt-3.5-turbo" (classification_prompt str title head)
            (Some "json_object"))
    with (classification_request str title head).
  rewrite Hc. cbn [parse_content]. by rewrite Hj.
Qed.

(** X13. In every run [classify_article] leaves the article with a category and
    a threat type and with every other field as it was: it writes these two
    keys and nothing else. *)
Theorem classify_article_sets_two_fields a :
  is_Some ((classify_article create json_loads str a).1 !! "category")
  ∧ is_Some ((classify_article create json_loads str a).1 !! "threat_type")
  ∧ ∀ field, field ≠ "category" → field ≠ "threat_type" →
      (classify_article create json_loads str a).1 !! field = a !! field.
Proof.
  destruct (classify_article_try create json_loads str a) as [a' [r|e]] eqn:E.
  - apply classify_article_try_returned in E as Ha.
    destruct Ha as (category & threat_type & ->).
    unfold classify_article, try_except. rewrite E. cbn [fst].
    unfold article in *. split_and!.
    + rewrite lookup_insert_ne, lookup_insert by done. by case_decide.
    + rewrite lookup_insert. by case_decide.
    + intros field ??. by rewrite !lookup_insert_ne.
  - rewrite (classify_article_raised create json_loads str a e) by by rewrite E.
    cbn [fst]. unfold uncategorized, article in *. split_and!.
    + rewrite lookup_insert_ne, lookup_insert by done. by case_decide.
    + rewrite lookup_insert. by case_decide.
    + intros field ??. by rewrite !lookup_insert_ne.
Qed.

(** X14. When the service answers with text that parses, the answer is taken
    as it is.  If it is an object, the values it has under "category" and
    "threat_type" (or the defaults "Uncategorized" and "Other" where it has
    none) become the article's fields, whatever they are: they are not
    compared with the lists of the prompt and need not be strings.  If it
    is anything else than an object, the article gets the two fallback
    values. *)
Theorem classify_article_copies_answer a title summary head text result :
  a !! "title" = Some title → a !! "summary" = Some summary →
  slice_to 1000 summary = Returned head →
  create (classification_request str title head) = Returned (Some text) →
  json_loads text = Returned result →
  (∀ items category threat_type,
     result = PDict items →
     category = default (PStr "Uncategorized")
                  (snd <$> List.find (λ kv, String.eqb kv.1 "category") items) →
     threat_type = default (PStr "Other")
                     (snd <$> List.find (λ kv, String.eqb kv.1 "threat_type") items) →
     classify_article create json_loads str a
     = (<["threat_type" := threat_type]> (<["category" := category]> a),
        Returned (<["threat_type" := threat_type]> (<["category" := category]> a))))
  ∧ ((∀ items, result ≠ PDict items) →
     classify_article create json_loads str a
     = (uncategorized a, Returned (uncategorized a))).
Proof.
  intros Ht Hs Hh Hc Hj.
  pose proof (classify_article_answered a _ _ _ _ _ Ht Hs Hh Hc Hj) as Hrun.
  split.
  - intros items category threat_type -> -> ->.
    unfold classify_article, try_except. rewrite Hrun. done.
  - intros Hother.
    assert (result_get result "category" (PStr "Uncategorized")
            = Raised AttributeError) as Hget.
    { destruct result; try done. by destruct (Hother items). }
    apply (classify_article_raised create json_loads str a AttributeError).
    rewrite Hrun. unfold bind, lift. by rewrite Hget.
Qed.

End classified.

Lemma classify_article_copies_answer_witness :
  classifier.classify_article (classifier.answering "{}")
    (λ _, Returned (classifier.PDict
                      [("category", classifier.PStr "Privacy");
                       ("threat_type", classifier.PInt 7)]))
    classifier.blank classifier.example_article
  = (<["threat_type" := classifier.PInt 7]>
       (<["category" := classifier.PStr "Privacy"]> classifier.example_article),
     Returned
       (<["threat_type" := classifier.PInt 7]>
          (<["category" := classifier.PStr "Privacy"]> classifier.example_article))).
Proof.
  by apply (proj1 (classify_article_copies_answer
                     (classifier.answering "{}") _ classifier.blank
                     classifier.example_article
                     (classifier.PStr "Patch now")
                     (classifier.PStr "A flaw was found.")
                     (classifier.PStr "A flaw was found.") "{}" _
                     eq_refl eq_refl eq_refl eq_refl eq_refl)
             [("category", classifier.PStr "Privacy");
              ("threat_type", classifier.PInt 7)]).
Defined.

(** ** What a replacement of the recommendations stores *)

Section replaced.
Import models pandas collections utils classifier.
Variable create : chat_request → outcome (option string).
Variable now : nat.

(** The rows a flush writes for pending recommendations. *)
Lemma insert_recommendations_returned pending : ∀ rows rows',
  insert_all (insert_recommendation now) rows pending = Returned rows' →
  ∃ added,
    rows' = rows ++ added
    ∧ Forall2 (λ p r,
                 SecurityRecommendation.threat_type r
                 = SecurityRecommendation.threat_type p
                 ∧ SecurityRecommendation.recommendation r
                   = SecurityRecommendation.recommendation p
                 ∧ is_Some (SecurityRecommendation.threat_type p)
                 ∧ is_Some (SecurityRecommendation.recommendation p)
                 ∧ SecurityRecommendation.created_at r
                   = Some (default now (SecurityRecommendation.created_at p)))
        pending added.
Proof.
  induction pending as [|p pending IH]; intros rows rows' H; simpl in H.
  - simplify_eq. exists []. by rewrite app_nil_r.
  - destruct (insert_recommendation now rows p) as [rows1|e] eqn:E; [|done].
    unfold insert_recommendation in E.
    destruct (SecurityRecommendation.threat_type p) as [t|] eqn:Et; [|done].
    destruct (SecurityRecommendation.recommendation p) as [text|] eqn:Er; [|done].
    simplify_eq. apply IH in H as (added & -> & Hadded).
    eexists (_ :: added). rewrite <- app_assoc. split; [done|].
    constructor; [|done]. cbn. by rewrite Et, Er.
Qed.

Lemma insert_recommendations_all pending : ∀ rows,
  Forall (λ p, is_Some (SecurityRecommendation.threat_type p)
               ∧ is_Some (SecurityRecommendation.recommendation p)) pending →
  ∃ rows', insert_all (insert_recommendation now) rows pending = Returned rows'.
Proof.
  induction pending as [|p pending IH]; intros rows Hall; simpl; [eauto|].
  apply Forall_cons in Hall as [[[t Ht] [text Hr]] Hall].
  unfold insert_recommendation at 1. rewrite Ht, Hr. by apply IH.
Qed.

Lemma add_recommendations_working (f : string → SecurityRecommendation.t) threats :
  ∀ s,
  for_each threats (λ threat, add_recommendation no_faults (f threat)) s
  = (mk_session (committed s) (view s) (new_articles s)
       (new_recommendations s ++ (f <$> threats))
       (log s ++ replicate (length threats) Add),
     Returned tt).
Proof.
  induction threats as [|t threats IH]; intros [c v na nr l].
  - simpl. unfold ret. by rewrite !app_nil_r.
  - cbn [for_each]. unfold bind at 1.
    unfold add_recommendation at 1, bind, attempt, modify, no_faults.
    cbn [committed view new_articles new_recommendations log].
    rewrite IH. cbn [committed view new_articles new_recommendations log].
    by rewrite <- !app_assoc.
Qed.

Lemma replace_recommendations_working top store recs :
  insert_all (insert_recommendation now) [] (new_rec create <$> top)
  = Returned recs →
  replace_recommendations create no_faults now top (get_db store)
  = (mk_session (mk_database (news_articles store) recs)
       (mk_database (news_articles store) recs) [] []
       (Delete :: replicate (length top) Add ++ [Commit]),
     Returned tt).
Proof.
  intros Hrecs. unfold replace_recommendations.
  unfold bind at 1. unfold delete_recommendations, bind, attempt, modify, no_faults.
  cbn [get_db committed view new_articles new_recommendations log length].
  unfold bind. rewrite add_recommendations_working.
  cbn [committed view new_articles new_recommendations log].
  unfold commit, bind, attempt, flush, modify, no_faults.
  cbn [committed view new_articles new_recommendations log news_articles
       security_recommendations insert_all app].
  by rewrite Hrecs.
Qed.

Lemma top_threats_length (articles_df : DataFrame) :
  length (top_threats articles_df) ≤ 3.
Proof.
  unfold top_threats. destruct (column articles_df "threat_type"); [|simpl; lia].
  rewrite length_fmap. unfold most_common. rewrite length_take. lia.
Qed.

Lemma top_threats_not_empty (articles_df : DataFrame) :
  top_threats articles_df ≠ [] → empty articles_df = false.
Proof.
  intros Htop. destruct (empty articles_df) eqn:E; [|done].
  destruct Htop. unfold top_threats, column.
  by rewrite (empty_no_column _ _ E).
Qed.

(** The texts of the top threats can be inserted when none is missing. *)
Lemma new_recs_insertable (top : list string) :
  (∀ t, t ∈ top → is_Some (generate_recommendations create t)) →
  ∃ recs, insert_all (insert_recommendation now) [] (new_rec create <$> top)
          = Returned recs.
Proof.
  intros Htext. apply insert_recommendations_all.
  apply Forall_fmap, Forall_forall. intros t Ht. split; [by eexists|].
  by apply Htext.
Qed.

(** The rows written for the top threats. *)
Lemma new_recs_stored (top : list string) recs :
  insert_all (insert_recommendation now) [] (new_rec create <$> top)
  = Returned recs →
  SecurityRecommendation.threat_type <$> recs = Some <$> top
  ∧ SecurityRecommendation.recommendation <$> recs
    = generate_recommendations create <$> top
  ∧ Forall (λ r, SecurityRecommendation.created_at r = Some now) recs
  ∧ length recs = length top.
Proof.
  intros Hrecs.
  apply insert_recommendations_returned in Hrecs as (added & Heq & Hadded).
  simpl in Heq. subst added.
  assert (Hlen : length recs = length top).
  { apply Forall2_length in Hadded. by rewrite length_fmap in Hadded. }
  split_and!; [| | |done].
  - apply list_eq. intros i. rewrite !list_lookup_fmap.
    destruct (top !! i) as [t|] eqn:Et.
    + assert ((new_rec create <$> top) !! i = Some (new_rec create t)) as Hp
        by by rewrite list_lookup_fmap, Et.
      destruct (Forall2_lookup_l _ _ _ _ _ Hadded Hp) as (r & Hr & Ht' & _).
      rewrite Hr. simpl. by rewrite Ht'.
    + apply lookup_ge_None in Et. rewrite <- Hlen in Et.
      apply lookup_ge_None in Et. by rewrite Et.
  - apply list_eq. intros i. rewrite !list_lookup_fmap.
    destruct (top !! i) as [t|] eqn:Et.
    + assert ((new_rec create <$> top) !! i = Some (new_rec create t)) as Hp
        by by rewrite list_lookup_fmap, Et.
      destruct (Forall2_lookup_l _ _ _ _ _ Hadded Hp) as (r & Hr & _ & Hr' & _).
      rewrite Hr. simpl. by rewrite Hr'.
    + apply lookup_ge_None in Et. rewrite <- Hlen in Et.
      apply lookup_ge_None in Et. by rewrite Et.
  - apply Forall_forall. intros r Hr.
    apply list_elem_of_lookup in Hr as [i Hr].
    destruct (Forall2_lookup_r _ _ _ _ _ Hadded Hr) as (p & Hp & _ & _ & _ & _ & Hc).
    apply list_lookup_fmap_Some in Hp as (t & -> & _). by rewrite Hc.
Qed.

(** The run of the update on a store that works, once the rows are known. *)
Lemma update_recommendations_working articles_df store recs :
  top_threats articles_df ≠ [] →
  insert_all (insert_recommendation now) []
    (new_rec create <$> top_threats articles_df) = Returned recs →
  update_recommendations create no_faults now articles_df store
  = (mk_database (news_articles store) recs,
     Delete :: replicate (length (top_threats articles_df)) Add
     ++ [Commit; Close]).
Proof.
  intros Htop Hrecs.
  rewrite update_recommendations_unfold, (top_threats_not_empty _ Htop).
  destruct (top_threats articles_df) as [|t top] eqn:Etop; [done|].
  cbn zeta. rewrite swallow_state, guarded_committed, guarded_log.
  rewrite (replace_recommendations_working _ _ _ Hrecs).
  cbn [fst snd committed log is_raised].
  f_equal. rewrite <- app_comm_cons. f_equal. by rewrite <- app_assoc.
Qed.

(** X15. On a store that works, with a text for each of the top threats, the
    update replaces the recommendation table by one row per top threat, in
    their order, each with the generated text and the time of the update;
    the news table is not touched, at most three rows are left, and the
    session sees one delete, one add per threat, one commit and the
    close. *)
Theorem update_recommendations_replaces articles_df store :
  top_threats articles_df ≠ [] →
  (∀ t, t ∈ top_threats articles_df →
        is_Some (generate_recommendations create t)) →
  ∃ recs,
    update_recommendations create no_faults now articles_df store
    = (mk_database (news_articles store) recs,
       Delete :: replicate (length (top_threats articles_df)) Add
       ++ [Commit; Close])
    ∧ SecurityRecommendation.threat_type <$> recs
      = Some <$> top_threats articles_df
    ∧ SecurityRecommendation.recommendation <$> recs
      = generate_recommendations create <$> top_threats articles_df
    ∧ Forall (λ r, SecurityRecommendation.created_at r = Some now) recs
    ∧ length recs ≤ 3.
Proof.
  intros Htop Htext.
  destruct (new_recs_insertable _ Htext) as [recs Hrecs]. exists recs.
  destruct (new_recs_stored _ _ Hrecs) as (Hthreats & Htexts & Htimes & Hlen).
  split; [by apply update_recommendations_working|].
  split; [done|]. split; [done|]. split; [done|].
  rewrite Hlen. apply top_threats_length.
Qed.

(** X16. A recommendation without text is refused by the table, and with it the
    whole replacement: when the service answers the request for one of the
    top threats with a response that has no content, the store is left as
    it was, with the recommendations it had. *)
Theorem update_recommendations_null_answer fails articles_df store t :
  t ∈ top_threats articles_df →
  create (mk_request "gpt-3.5-turbo" (recommendation_prompt t) None)
  = Returned None →
  (update_recommendations create fails now articles_df store).1 = store.
Proof.
  intros Ht Hnone. rewrite update_recommendations_unfold.
  destruct (empty articles_df); [done|].
  destruct (top_threats articles_df) as [|t0 top] eqn:Etop; [done|].
  cbn zeta. rewrite swallow_state. cbn [fst]. rewrite guarded_committed.
  destruct (replace_recommendations create fails now (t0 :: top) (get_db store))
    as [s1 o1] eqn:E.
  apply replace_recommendations_run in E as [_ Ho]. cbn [fst].
  destruct o1 as [[]|e]; [|done].
  destruct Ho as (_ & recs & Hrecs & _). exfalso.
  apply insert_recommendations_returned in Hrecs as (added & _ & Hadded).
  assert (new_rec create t ∈ new_rec create <$> t0 :: top) as Hin
    by (apply list_elem_of_fmap; eauto).
  apply list_elem_of_lookup in Hin as [i Hi].
  destruct (Forall2_lookup_l _ _ _ _ _ Hadded Hi) as (r & _ & _ & _ & _ & [text Hr] & _).
  unfold new_rec in Hr. cbn [SecurityRecommendation.recommendation] in Hr.
  unfold generate_recommendations in Hr. by rewrite Hnone in Hr.
Qed.

End replaced.

Lemma update_recommendations_replaces_witness :
  ∃ recs,
    classifier.update_recommendations classifier.unreachable utils.no_faults 9
      pandas.example_batch models.advised_store
    = (models.mk_database (models.news_articles models.advised_store) recs,
       models.Delete
       :: replicate (length (classifier.top_threats pandas.example_batch)) models.Add
       ++ [models.Commit; models.Close])
    ∧ models.SecurityRecommendation.threat_type <$> recs
      = Some <$> classifier.top_threats pandas.example_batch
    ∧ models.SecurityRecommendation.recommendation <$> recs
      = classifier.generate_recommendations classifier.unreachable
        <$> classifier.top_threats pandas.example_batch
    ∧ Forall (λ r, models.SecurityRecommendation.created_at r = Some 9) recs
    ∧ length recs ≤ 3.
Proof.
  apply (update_recommendations_replaces classifier.unreachable 9
           pandas.example_batch models.advised_store).
  - done.
  - intros t _. by eexists.
Defined.

Lemma update_recommendations_null_answer_witness :
  (classifier.update_recommendations (λ _, Returned None) utils.no_faults 9
     pandas.example_batch models.advised_store).1 = models.advised_store.
Proof.
  apply (update_recommendations_null_answer (λ _, Returned None) 9
           utils.no_faults pandas.example_batch models.advised_store "Phishing").
  - by apply (bool_decide_unpack _).
  - done.
Defined.

(** ** What a save stores *)

Section saved.
Import models pandas utils.

Lemma find_url_none (u : option string) rows :
  List.find (λ r, bool_decide (NewsArticle.url r = u)) rows = None →
  u ∉ urls rows.
Proof.
  induction rows as [|r rows IH]; simpl; [intros _; apply not_elem_of_nil|].
  case_bool_decide as Hu; [done|]. intros Hnone.
  apply not_elem_of_cons. split; [done|]. by apply IH.
Qed.

Section with_faults.
Variable fails : nat → bool.
Variable now : nat.

(** One round of the loop that does not raise: the item has a url, and is
    either known to the rows and skipped, or complete and made pending. *)
Lemma save_item_returned item s s' :
  save_item fails item s = (s', Returned tt) →
  view s' = view s
  ∧ is_Some (item !! "url")
  ∧ ((mjoin (item !! "url") ∈ urls (news_articles (view s))
      ∧ new_articles s' = new_articles s)
     ∨ ((mjoin (item !! "url") ∉ urls (news_articles (view s)))
        ∧ new_articles s' = new_articles s ++ [new_article item]
        ∧ is_Some (item !! "title") ∧ is_Some (item !! "source")
        ∧ is_Some (item !! "summary"))).
Proof.
  unfold save_item, getitem, query_first_by_url, add_article, attempt.
  unfold bind, lift, get, ret, modify.
  destruct (item !! "url") as [u|] eqn:Eu; [|done].
  destruct (fails (length (log s))); [done|].
  cbn [view committed new_articles new_recommendations log].
  destruct (List.find _ (news_articles (view s))) as [r|] eqn:Efind.
  - intros ?; simplify_eq. cbn [view new_articles]. split; [done|].
    split; [by eexists|]. left. split; [|done].
    apply find_some in Efind as [Hin Hr]. apply bool_decide_eq_true in Hr.
    simpl. rewrite <- Hr. apply list_elem_of_fmap. exists r. split; [done|].
    by apply list_elem_of_In.
  - apply find_url_none in Efind.
    destruct (item !! "title") as [t|] eqn:Et; [|done].
    destruct (item !! "source") as [src|] eqn:Es; [|done].
    destruct (item !! "summary") as [sm|] eqn:Esm; [|done].
    cbn [view committed new_articles new_recommendations log].
    destruct (fails (length (log s ++ [Query]))); [done|].
    intros ?; simplify_eq. cbn [view new_articles]. split; [done|].
    split; [by eexists|]. right. split; [done|]. split; [|by repeat split].
    unfold new_article. by rewrite Eu, Et, Es, Esm.
Qed.

(** The loop, when it does not raise: the pending objects are those of
    the items whose url the rows do not have, in their order, and each of
    these items has the four keys that are read. *)
Lemma save_items_returned items : ∀ s s',
  for_each items (save_item fails) s = (s', Returned tt) →
  view s' = view s
  ∧ new_articles s'
    = new_articles s ++ (new_article <$> unknown (news_articles (view s)) items)
  ∧ Forall (λ item, is_Some (item !! "url")) items
  ∧ Forall (λ item, is_Some (item !! "title") ∧ is_Some (item !! "source")
                    ∧ is_Some (item !! "summary"))
      (unknown (news_articles (view s)) items).
Proof.
  induction items as [|item items IH]; intros s s' H.
  - simpl in H. unfold ret in H. simplify_eq.
    by rewrite app_nil_r.
  - cbn [for_each] in H. unfold bind in H.
    destruct (save_item fails item s) as [s1 [[]|e]] eqn:E1; [|done].
    apply save_item_returned in E1 as (Hv1 & Hu & Hcase).
    apply IH in H as (Hv & Hnew & Hurls & Hkeys). rewrite Hv1 in *.
    split; [done|]. unfold unknown in *. rewrite filter_cons.
    destruct Hcase as [[Hknown Hn1]|(Hfresh & Hn1 & Hk)].
    + rewrite decide_False by (intros Hc; by apply Hc).
      split_and!; [by rewrite Hnew, Hn1|by constructor|done].
    + rewrite decide_True by done.
      split_and!; [|by constructor|by constructor].
      by rewrite Hnew, Hn1, fmap_cons, <- app_assoc.
Qed.

(** The rows a flush writes for pending articles: the batch is written as
    a whole, and only if every object has a title, a url and a source and
    the urls are new and different from each other. *)
Lemma insert_articles_returned pending : ∀ rows rows',
  insert_all (insert_article now) rows pending = Returned rows' →
  ∃ added,
    rows' = rows ++ added
    ∧ Forall2 (stores now) pending added
    ∧ NoDup (NewsArticle.url <$> pending)
    ∧ Forall (λ a, (NewsArticle.url a ∉ urls rows)
                   ∧ is_Some (NewsArticle.title a)
                   ∧ is_Some (NewsArticle.url a)
                   ∧ is_Some (NewsArticle.source a)) pending.
Proof.
  induction pending as [|a pending IH]; intros rows rows' H; simpl in H.
  - simplify_eq. exists []. rewrite app_nil_r.
    repeat split; constructor.
  - destruct (insert_article now rows a) as [rows1|e] eqn:E; [|done].
    unfold insert_article in E.
    destruct (NewsArticle.title a) as [t|] eqn:Et; [|done].
    destruct (NewsArticle.url a) as [u|] eqn:Eu; [|done].
    destruct (NewsArticle.source a) as [src|] eqn:Es; [|done].
    case_bool_decide as Hin; [done|]. simplify_eq.
    apply IH in H as (added & -> & Hadded & Hnodup & Hall).
    eexists (_ :: added). rewrite <- app_assoc. split; [done|].
    assert (Hrest : Forall (λ a', (NewsArticle.url a' ∉ urls rows)
                                  ∧ NewsArticle.url a' ≠ Some u) pending).
    { apply (Forall_impl _ _ _ Hall). intros a' (Ha' & _).
      unfold urls in *. rewrite fmap_app in Ha'.
      apply not_elem_of_app in Ha' as [? Ha']. split; [done|].
      intros Heq. apply Ha'. rewrite Heq. cbn. left. }
    split_and!.
    + constructor; [|done]. by constructor; cbn; rewrite ?Et, ?Eu, ?Es.
    + rewrite fmap_cons, Eu. constructor; [|done].
      intros Hu. apply list_elem_of_fmap in Hu as (a' & Ha' & Hin').
      by destruct (proj1 (Forall_forall _ _) Hrest a' Hin') as [_ Hne].
    + constructor.
      * rewrite Eu. by repeat split.
      * apply (Forall_impl _ _ _ Hall). intros a' (Ha' & ?).
        split; [|done]. unfold urls in *. rewrite fmap_app in Ha'.
        by apply not_elem_of_app in Ha' as [? _].
Qed.

Lemma insert_articles_all pending : ∀ rows,
  Forall (λ a, (NewsArticle.url a ∉ urls rows)
               ∧ is_Some (NewsArticle.title a)
               ∧ is_Some (NewsArticle.url a)
               ∧ is_Some (NewsArticle.source a)) pending →
  NoDup (NewsArticle.url <$> pending) →
  ∃ rows', insert_all (insert_article now) rows pending = Returned rows'.
Proof.
  induction pending as [|a pending IH]; intros rows Hall Hnodup; simpl; [eauto|].
  apply Forall_cons in Hall as [(Hnew & [t Ht] & [u Hu] & [src Hs]) Hall].
  rewrite fmap_cons in Hnodup. apply NoDup_cons in Hnodup as [Hfirst Hnodup].
  unfold insert_article at 1. rewrite Ht, Hu, Hs.
  rewrite Hu in Hnew. rewrite bool_decide_eq_false_2 by done.
  apply IH; [|done].
  apply Forall_forall. intros a' Ha'.
  destruct (proj1 (Forall_forall _ _) Hall a' Ha') as (Hnew' & ?).
  split; [|done]. unfold urls in *. rewrite fmap_app.
  apply not_elem_of_app. split; [done|]. cbn.
  apply not_elem_of_cons. split; [|apply not_elem_of_nil].
  intros Heq. apply Hfirst. rewrite Hu, <- Heq.
  apply list_elem_of_fmap. eauto.
Qed.

(** What a call leaves in the store: either the store it found, or that
    store with one more row for each item whose url it did not have. *)
Lemma save_to_db_outcome items store :
  store_after_save fails now items store = store
  ∨ ∃ added,
      store_after_save fails now items store
      = mk_database (news_articles store ++ added) (security_recommendations store)
      ∧ Forall2 (stores now)
          (new_article <$> unknown (news_articles store) items) added
      ∧ NoDup (NewsArticle.url <$>
                 (new_article <$> unknown (news_articles store) items))
      ∧ Forall (λ item, is_Some (item !! "url")) items
      ∧ Forall (λ item, is_Some (item !! "title") ∧ is_Some (item !! "source")
                        ∧ is_Some (item !! "summary")
                        ∧ is_Some (NewsArticle.title (new_article item))
                        ∧ is_Some (NewsArticle.url (new_article item))
                        ∧ is_Some (NewsArticle.source (new_article item)))
          (unknown (news_articles store) items).
Proof.
  unfold store_after_save, save_to_db. rewrite guarded_committed.
  unfold bind.
  pose proof (save_items_frame fails items (get_db store)) as (Hc & _ & Hr).
  destruct (for_each items (save_item fails) (get_db store)) as [s1 [[]|e]] eqn:E;
    cbn [fst snd] in *; [|by left].
  apply save_items_returned in E as (Hv & Hnew & Hurls & Hkeys).
  cbn [get_db view new_articles new_recommendations committed app] in *.
  destruct (commit_cases fails now s1)
    as [(articles & recs & _ & _ & Harticles & Hrecs & Hstore)|[_ Hsame]];
    [|left; by rewrite Hsame, Hc].
  right. rewrite Hv, Hnew in Harticles. rewrite Hv, Hr in Hrecs.
  cbn [insert_all] in Hrecs. injection Hrecs as <-.
  apply insert_articles_returned in Harticles
    as (added & -> & Hadded & Hnodup & Hall).
  exists added. rewrite Hstore. split; [done|]. split; [done|].
  split; [done|]. split; [done|].
  apply Forall_forall. intros item Hitem.
  destruct (proj1 (Forall_forall _ _) Hkeys item Hitem) as (? & ? & ?).
  assert (new_article item
          ∈ new_article <$> unknown (news_articles store) items) as Hin
    by (apply list_elem_of_fmap; eauto).
  by destruct (proj1 (Forall_forall _ _) Hall _ Hin) as (_ & ? & ? & ?).
Qed.

(** X17. A call adds rows to the news table and does nothing else, whatever
    fails: the rows that were there stay, in their places, the
    recommendation table is not touched, and every added row stores the
    object built from an item of the batch whose url the table did not
    have, with the time of the call.  The batch is written as a whole or
    not at all: either the store is what it was, or there is exactly one
    added row for each such item, in the order of the batch. *)
Theorem save_to_db_all_or_nothing items store :
  security_recommendations (store_after_save fails now items store)
  = security_recommendations store
  ∧ (∃ added,
       news_articles (store_after_save fails now items store)
       = news_articles store ++ added
       ∧ Forall (λ r, NewsArticle.created_at r = Some now
                      ∧ ∃ item, item ∈ items
                                ∧ (mjoin (item !! "url") ∉ urls (news_articles store))
                                ∧ stores now (new_article item) r) added)
  ∧ (store_after_save fails now items store = store
     ∨ ∃ added,
         news_articles (store_after_save fails now items store)
         = news_articles store ++ added
         ∧ Forall2 (stores now)
             (new_article <$> unknown (news_articles store) items) added).
Proof.
  destruct (save_to_db_outcome items store)
    as [->|(added & -> & Hadded & _)].
  - split; [done|]. split; [|by left].
    exists []. by rewrite app_nil_r.
  - split; [done|]. split; [|right; eauto].
    exists added. split; [done|].
    apply Forall_forall. intros r Hr.
    apply list_elem_of_lookup in Hr as [i Hr].
    destruct (Forall2_lookup_r _ _ _ _ _ Hadded Hr) as (a & Ha & Hstores).
    apply list_lookup_fmap_Some in Ha as (item & -> & Hitem).
    apply list_elem_of_lookup_2, list_elem_of_filter in Hitem as [Hnew Hitem].
    split; [by destruct Hstores|]. eauto.
Qed.

(** X18. One item that cannot be stored loses the whole batch.  If an item of
    the batch has no "url" key, or has a url the table does not have and
    lacks the "summary" key or a title, a url or a source (the key is
    missing or its value is [None]), then nothing of the batch is stored,
    the items before it included. *)
Theorem save_to_db_rejects_batch items store item :
  item ∈ items →
  item !! "url" = None
  ∨ ((mjoin (item !! "url") ∉ urls (news_articles store))
     ∧ (item !! "summary" = None
        ∨ mjoin (item !! "title") = None
        ∨ mjoin (item !! "url") = None
        ∨ mjoin (item !! "source") = None)) →
  store_after_save fails now items store = store.
Proof.
  intros Hitem Hbad.
  destruct (save_to_db_outcome items store)
    as [->|(added & _ & _ & _ & Hurls & Hkeys)]; [done|]. exfalso.
  destruct Hbad as [Hnone|[Hnew Hbad]].
  - destruct (proj1 (Forall_forall _ _) Hurls item Hitem) as [u Hu]. congruence.
  - assert (item ∈ unknown (news_articles store) items) as Hin
      by by apply list_elem_of_filter.
    destruct (proj1 (Forall_forall _ _) Hkeys item Hin)
      as (_ & _ & [sm Hsm] & [t Ht] & [u Hu] & [src Hsrc]).
    cbn in Ht, Hu, Hsrc. destruct Hbad as [?|[?|[?|?]]]; congruence.
Qed.

(** X19. The existence check does not see the objects added earlier in the same
    call.  A batch that holds two items with the same url, one the table
    does not have, is therefore refused as a whole when it is committed:
    nothing of it is stored. *)
Theorem save_to_db_duplicate_in_batch items store before first between second after :
  items = before ++ first :: between ++ second :: after →
  mjoin (first !! "url") = mjoin (second !! "url") →
  mjoin (first !! "url") ∉ urls (news_articles store) →
  store_after_save fails now items store = store.
Proof.
  intros -> Hsame Hnew.
  destruct (save_to_db_outcome
              (before ++ first :: between ++ second :: after) store)
    as [->|(added & _ & _ & Hnodup & _)]; [done|]. exfalso.
  unfold unknown in Hnodup.
  rewrite filter_app, filter_cons, decide_True in Hnodup by done.
  rewrite filter_app, filter_cons, decide_True in Hnodup by by rewrite <- Hsame.
  rewrite !fmap_app, !fmap_cons, !fmap_app, !fmap_cons in Hnodup.
  apply NoDup_app in Hnodup as (_ & _ & Hnodup).
  apply NoDup_cons in Hnodup as [Hfirst _]. apply Hfirst.
  apply elem_of_app. right.
  change (NewsArticle.url (new_article first)) with (mjoin (first !! "url")).
  rewrite Hsame. left.
Qed.

End with_faults.

Lemma save_items_working items : ∀ s,
  Forall is_article items →
  ∃ s', for_each items (save_item no_faults) s = (s', Returned tt).
Proof.
  induction items as [|item items IH]; intros s Hall; [by eexists|].
  apply Forall_cons in Hall as [([t Ht] & [u Hu] & [src Hsrc] & [sm Hsm]) Hall].
  cbn [for_each]. unfold bind at 1.
  assert (∃ s1, save_item no_faults item s = (s1, Returned tt)) as [s1 ->].
  { unfold save_item, getitem, query_first_by_url, add_article, attempt.
    unfold bind, lift, get, ret, modify, no_faults.
    rewrite Hu, Ht, Hsrc, Hsm.
    cbn [view committed new_articles new_recommendations log].
    destruct (List.find _ (news_articles (view s))); by eexists. }
  by apply IH.
Qed.

(** The objects of a batch of articles can be inserted when their new
    urls differ from each other. *)
Lemma new_articles_insertable now items store :
  Forall is_article items →
  NoDup ((λ item : record, mjoin (item !! "url"))
           <$> unknown (news_articles store) items) →
  ∃ rows,
    insert_all (insert_article now) (news_articles store)
      (new_article <$> unknown (news_articles store) items) = Returned rows.
Proof.
  intros Hall Hnodup. apply insert_articles_all.
  - apply Forall_fmap, Forall_forall. intros item Hitem.
    apply list_elem_of_filter in Hitem as [Hfresh Hitem].
    destruct (proj1 (Forall_forall _ _) Hall item Hitem)
      as ([t Ht] & [u Hu] & [src Hsrc] & _).
    cbn. rewrite Ht, Hu, Hsrc. cbn. rewrite Hu in Hfresh.
    by repeat split.
  - by rewrite <- list_fmap_compose.
Qed.

(** The run of a save of articles on a store that works, once the rows
    are known. *)
Lemma save_to_db_flushed now items store rows :
  Forall is_article items →
  insert_all (insert_article now) (news_articles store)
    (new_article <$> unknown (news_articles store) items) = Returned rows →
  store_after_save no_faults now items store
  = mk_database rows (security_recommendations store).
Proof.
  intros Hall Hrows. rewrite save_to_db_working.
  destruct (save_items_working items (get_db store) Hall) as [s1 E].
  rewrite E. apply save_items_returned in E as (_ & Hnew & _ & _).
  cbn [get_db view new_articles app] in Hnew. by rewrite Hnew, Hrows.
Qed.

(** X20. On a store that works, a batch of articles as the pipeline builds them
    (title, url and source present, a summary key) whose new urls differ
    from each other is stored: the call adds one row for each item whose
    url the table did not have, in the order of the batch, with the item's
    title, url, source and summary, its category and threat type (or
    "Uncategorized" and "Other" when the item has none), its region (or
    "Global") and the time of the call. *)
Theorem save_to_db_stores_batch now items store :
  Forall is_article items →
  NoDup ((λ item : record, mjoin (item !! "url"))
           <$> unknown (news_articles store) items) →
  ∃ added,
    store_after_save no_faults now items store
    = mk_database (news_articles store ++ added) (security_recommendations store)
    ∧ Forall2 (stores now)
        (new_article <$> unknown (news_articles store) items) added.
Proof.
  intros Hall Hnodup.
  destruct (new_articles_insertable now items store Hall Hnodup) as [rows Hrows].
  rewrite (save_to_db_flushed now items store rows Hall Hrows).
  apply insert_articles_returned in Hrows as (added & -> & Hadded & _).
  by exists added.
Qed.

End saved.

Section saved_runs.
Import models pandas utils.

Lemma save_to_db_rejects_batch_witness :
  store_after_save no_faults 1
    [example_item; {[ "title" := Some "No link" ]}] empty_store
  = empty_store.
Proof.
  apply (save_to_db_rejects_batch no_faults 1 _ empty_store
           {[ "title" := Some "No link" ]}).
  - right. left.
  - by left.
Defined.

Lemma save_to_db_duplicate_in_batch_witness :
  store_after_save no_faults 1 [example_item; example_item] empty_store
  = empty_store.
Proof.
  apply (save_to_db_duplicate_in_batch no_faults 1 _ empty_store
           [] example_item [] example_item []).
  - done.
  - done.
  - apply not_elem_of_nil.
Defined.

Lemma save_to_db_stores_batch_witness :
  ∃ added,
    store_after_save no_faults 1 [example_item] empty_store
    = mk_database (news_articles empty_store ++ added)
        (security_recommendations empty_store)
    ∧ Forall2 (stores 1)
        (new_article <$> unknown (news_articles empty_store) [example_item])
        added.
Proof.
  apply (save_to_db_stores_batch 1 [example_item] empty_store).
  - apply Forall_singleton, example_item_is_article.
  - by apply (bool_decide_unpack _).
Defined.

End saved_runs.

(** ** What the readers return *)

Section ordering.
Import models.

Lemma insert_newer_perm {A} (key : A → option nat) x sorted :
  insert_newer key x sorted ≡ₚ x :: sorted.
Proof.
  induction sorted as [|y rest IH]; [done|]. cbn [insert_newer].
  destruct (_ <? _); [|done]. rewrite IH. apply Permutation_swap.
Qed.

Lemma insert_newer_sorted {A} (key : A → option nat) x sorted :
  StronglySorted (λ a b, from_option S 0 (key b) ≤ from_option S 0 (key a)) sorted →
  StronglySorted (λ a b, from_option S 0 (key b) ≤ from_option S 0 (key a))
    (insert_newer key x sorted).
Proof.
  induction 1 as [|y rest Hrest IH Hy]; cbn [insert_newer].
  - repeat constructor.
  - destruct (_ <? _) eqn:E.
    + apply Nat.ltb_lt in E. constructor; [done|].
      rewrite insert_newer_perm. constructor; [lia|done].
    + apply Nat.ltb_ge in E. constructor; [by constructor|].
      constructor; [done|].
      apply (Forall_impl _ _ _ Hy). intros b Hb. lia.
Qed.

Lemma stable_descending_descending : descending stable_descending.
Proof.
  split; intros A key rows; unfold stable_descending.
  - induction rows as [|x rows IH]; [done|]. cbn [foldr].
    by rewrite insert_newer_perm, IH.
  - apply (StronglySorted_weaken
             (λ a b, from_option S 0 (key b) ≤ from_option S 0 (key a))).
    + intros a b Hab x y Hx Hy. rewrite Hx, Hy in Hab. cbn in Hab. lia.
    + induction rows as [|x rows IH]; [constructor|]. cbn [foldr].
      by apply insert_newer_sorted.
Qed.

End ordering.

Section readers.
Import models pandas utils.

Lemma comprehension_returned {A B} (f : A → outcome B) xs : ∀ ys,
  comprehension f xs = Returned ys ↔ Forall2 (λ x y, f x = Returned y) xs ys.
Proof.
  induction xs as [|x xs IH]; intros ys; cbn [comprehension].
  - split; [intros ?; simplify_eq; constructor|by inversion 1].
  - split.
    + destruct (f x) as [y|e] eqn:E; [|done].
      destruct (comprehension f xs) as [ys'|e]; [|done].
      intros ?; simplify_eq. constructor; [done|]. by apply IH.
    + inversion 1 as [|? y ? ys' Hy Hys]; subst. rewrite Hy.
      apply IH in Hys. by rewrite Hys.
Qed.

Lemma comprehension_total {A B} (f : A → outcome B) xs :
  Forall (λ x, ∃ y, f x = Returned y) xs →
  ∃ ys, comprehension f xs = Returned ys.
Proof.
  induction 1 as [|x xs [y Hy] _ [ys IH]]; cbn [comprehension]; [by eexists|].
  rewrite Hy, IH. by eexists.
Qed.

Section with_faults.
Variable fails : nat → bool.
Variable order_by_desc : ordering.
Variable isoformat : nat → string.

(** A guarded read: whatever the body does to the transaction, the store
    is what it was, and a returned value is the body's or the default. *)
Lemma reading_committed {A} (body : py session (list A)) s :
  (∀ s, committed (body s).1 = committed s) →
  committed (try_finally (try_except body (λ _, ret [])) (close fails) s).1
  = committed s.
Proof.
  intros Hbody. unfold try_finally, try_except, ret.
  specialize (Hbody s).
  destruct (body s) as [s1 [a|e]]; cbn [fst] in Hbody.
  - pose proof (close_committed fails s1) as Hc.
    destruct (close fails s1) as [s2 [[]|e]]; cbn [fst] in *; congruence.
  - pose proof (close_committed fails s1) as Hc.
    destruct (close fails s1) as [s2 [[]|e']]; cbn [fst] in *; congruence.
Qed.

Lemma reading_returned {A} (body : py session (list A)) s frame :
  (try_finally (try_except body (λ _, ret [])) (close fails) s).2 = Returned frame →
  frame = [] ∨ (body s).2 = Returned frame.
Proof.
  unfold try_finally, try_except, ret.
  destruct (body s) as [s1 [a|e]]; cbn [snd].
  - destruct (close fails s1) as [s2 [[]|e]]; cbn [snd]; [|done].
    intros ?; simplify_eq. by right.
  - destruct (close fails s1) as [s2 [[]|e']]; cbn [snd]; [|done].
    intros ?; simplify_eq. by left.
Qed.

Lemma reading_working {A} (body : py session (list A)) s :
  (∀ k, fails k = false) →
  (try_finally (try_except body (λ _, ret [])) (close fails) s).2
  = match (body s).2 with
    | Returned frame => Returned frame
    | Raised _ => Returned []
    end.
Proof.
  intros Hworks. unfold try_finally, try_except, ret, close, bind, attempt, modify.
  destruct (body s) as [s1 [a|e]]; cbn [snd]; by rewrite Hworks.
Qed.

Lemma recent_articles_run cutoff s :
  committed (recent_articles fails order_by_desc cutoff s).1 = committed s
  ∧ ((recent_articles fails order_by_desc cutoff s).2
     = Returned
         (order_by_desc _ NewsArticle.created_at
            (filter (λ r, not_before cutoff (NewsArticle.created_at r) = true)
               (news_articles (view s))))
     ∨ (fails (length (log s)) = true
        ∧ (recent_articles fails order_by_desc cutoff s).2
          = Raised OperationalError)).
Proof.
  unfold recent_articles, bind, attempt, get, ret.
  destruct (fails (length (log s))); cbn; [split; [done|by right]|].
  split; [done|by left].
Qed.

Lemma latest_recommendations_run n s :
  committed (latest_recommendations fails order_by_desc n s).1 = committed s
  ∧ ((latest_recommendations fails order_by_desc n s).2
     = Returned
         (take n (order_by_desc _ SecurityRecommendation.created_at
                    (security_recommendations (view s))))
     ∨ (fails (length (log s)) = true
        ∧ (latest_recommendations fails order_by_desc n s).2
          = Raised OperationalError)).
Proof.
  unfold latest_recommendations, bind, attempt, get, ret.
  destruct (fails (length (log s))); cbn; [split; [done|by right]|].
  split; [done|by left].
Qed.

(** The body of [load_news_from_db], and that of
    [get_security_recommendations]. *)
Lemma load_news_body now s :
  let body :=
    (let cutoff := now - hours 24 in
     articles <- recent_articles fails order_by_desc cutoff ;;
     match articles with
     | [] => ret []
     | _ :: _ =>
         news_data <- lift (comprehension (NewsArticle.to_dict isoformat) articles) ;;
         ret news_data
     end)%py in
  committed (body s).1 = committed s
  ∧ ((body s).2
     = comprehension (NewsArticle.to_dict isoformat)
         (order_by_desc _ NewsArticle.created_at
            (filter (λ r, not_before (now - hours 24) (NewsArticle.created_at r) = true)
               (news_articles (view s))))
     ∨ (fails (length (log s)) = true ∧ (body s).2 = Raised OperationalError)).
Proof.
  cbn zeta. unfold bind.
  destruct (recent_articles_run (now - hours 24) s) as [Hc Ho].
  destruct (recent_articles fails order_by_desc (now - hours 24) s) as [s1 o].
  cbn [fst snd] in *.
  destruct Ho as [->|[Hf ->]]; [|split; [done|by right]].
  destruct (order_by_desc _ _ _) as [|r rows]; [split; [done|by left]|].
  unfold lift, ret.
  destruct (comprehension _ (r :: rows)); cbn [fst snd]; (split; [done|by left]).
Qed.

Lemma get_recommendations_body s :
  let body :=
    (recommendations <- latest_recommendations fails order_by_desc 3 ;;
     lift (comprehension (SecurityRecommendation.to_dict isoformat)
             recommendations))%py in
  committed (body s).1 = committed s
  ∧ ((body s).2
     = comprehension (SecurityRecommendation.to_dict isoformat)
         (take 3 (order_by_desc _ SecurityRecommendation.created_at
                    (security_recommendations (view s))))
     ∨ (fails (length (log s)) = true ∧ (body s).2 = Raised OperationalError)).
Proof.
  cbn zeta. unfold bind.
  destruct (latest_recommendations_run 3 s) as [Hc Ho].
  destruct (latest_recommendations fails order_by_desc 3 s) as [s1 o].
  cbn [fst snd] in *.
  destruct Ho as [->|[Hf ->]]; [|split; [done|by right]].
  unfold lift. cbn [fst snd]. split; [done|by left].
Qed.

End with_faults.
End readers.

Section shown.
Import models pandas utils.
Variable order_by_desc : ordering.
Variable isoformat : nat → string.

Lemma NewsArticle_to_dict_fields r row :
  NewsArticle.to_dict isoformat r = Returned row →
  ∃ time,
    NewsArticle.created_at r = Some time
    ∧ row !! "id" = Some (of_int (NewsArticle.id r))
    ∧ row !! "title" = Some (of_str (NewsArticle.title r))
    ∧ row !! "url" = Some (of_str (NewsArticle.url r))
    ∧ row !! "source" = Some (of_str (NewsArticle.source r))
    ∧ row !! "region" = Some (of_str (NewsArticle.region r))
    ∧ row !! "summary" = Some (of_str (NewsArticle.summary r))
    ∧ row !! "category" = Some (of_str (NewsArticle.category r))
    ∧ row !! "threat_type" = Some (of_str (NewsArticle.threat_type r))
    ∧ row !! "created_at" = Some (VStr (isoformat time)).
Proof.
  unfold NewsArticle.to_dict.
  destruct (NewsArticle.created_at r) as [time|]; [|done].
  intros ?; simplify_eq. exists time. by repeat split.
Qed.

Lemma SecurityRecommendation_to_dict_fields r row :
  SecurityRecommendation.to_dict isoformat r = Returned row →
  ∃ time,
    SecurityRecommendation.created_at r = Some time
    ∧ row !! "id" = Some (of_int (SecurityRecommendation.id r))
    ∧ row !! "threat_type" = Some (of_str (SecurityRecommendation.threat_type r))
    ∧ row !! "recommendation"
      = Some (of_str (SecurityRecommendation.recommendation r))
    ∧ row !! "created_at" = Some (VStr (isoformat time)).
Proof.
  unfold SecurityRecommendation.to_dict.
  destruct (SecurityRecommendation.created_at r) as [time|]; [|done].
  intros ?; simplify_eq. exists time. by repeat split.
Qed.

Section with_faults.
Variable fails : nat → bool.

Lemma load_news_from_db_committed now store :
  committed (load_news_from_db fails order_by_desc isoformat now store).1 = store.
Proof.
  unfold load_news_from_db. cbn zeta. rewrite reading_committed; [done|].
  intros s. apply (load_news_body fails order_by_desc isoformat now s).
Qed.

Lemma load_news_from_db_returned now store frame :
  descending order_by_desc →
  (load_news_from_db fails order_by_desc isoformat now store).2 = Returned frame →
  frame = []
  ∨ ∃ rows,
      rows ≡ₚ filter (λ r, not_before (now - hours 24) (NewsArticle.created_at r) = true)
                (news_articles store)
      ∧ StronglySorted (newer_first NewsArticle.created_at) rows
      ∧ Forall2 (λ r row, NewsArticle.to_dict isoformat r = Returned row) rows frame.
Proof.
  intros [Hperm Hsorted] H. unfold load_news_from_db in H. cbn zeta in H.
  apply reading_returned in H as [->|H]; [by left|]. right.
  destruct (load_news_body fails order_by_desc isoformat now (get_db store))
    as [_ [Hbody|[_ Hbody]]]; cbn zeta in Hbody; rewrite Hbody in H; [|done].
  apply comprehension_returned in H. eexists. split; [apply Hperm|].
  split; [apply Hsorted|done].
Qed.

Lemma load_news_from_db_working now store :
  descending order_by_desc → (∀ k, fails k = false) →
  ∃ rows frame,
    (load_news_from_db fails order_by_desc isoformat now store).2 = Returned frame
    ∧ rows ≡ₚ filter (λ r, not_before (now - hours 24) (NewsArticle.created_at r) = true)
                (news_articles store)
    ∧ StronglySorted (newer_first NewsArticle.created_at) rows
    ∧ Forall2 (λ r row, NewsArticle.to_dict isoformat r = Returned row) rows frame.
Proof.
  intros [Hperm Hsorted] Hworks. unfold load_news_from_db. cbn zeta.
  rewrite reading_working by done.
  destruct (load_news_body fails order_by_desc isoformat now (get_db store))
    as [_ [Hbody|[Hf _]]]; [|by rewrite Hworks in Hf].
  cbn zeta in Hbody. rewrite Hbody.
  destruct (comprehension_total (NewsArticle.to_dict isoformat)
              (order_by_desc _ NewsArticle.created_at
                 (filter (λ r, not_before (now - hours 24)
                                 (NewsArticle.created_at r) = true)
                    (news_articles (view (get_db store)))))) as [frame Hframe].
  { apply Forall_forall. intros r Hr. rewrite Hperm in Hr.
    apply list_elem_of_filter in Hr as [Hrecent _].
    unfold NewsArticle.to_dict.
    destruct (NewsArticle.created_at r); [by eexists|done]. }
  rewrite Hframe. eexists _, frame. split; [done|].
  split; [apply Hperm|]. split; [apply Hsorted|].
  by apply comprehension_returned.
Qed.

(** X21. [load_news_from_db] reads and never writes: the store is what it was,
    whatever fails.  A frame it returns is empty (as it is when the query
    fails) or holds the dict of every article created in the last 24
    hours and of no other, each once, no article before a newer one.  On
    a store that works it returns that frame. *)
Theorem load_news_from_db_recent now store :
  descending order_by_desc →
  committed (load_news_from_db fails order_by_desc isoformat now store).1 = store
  ∧ (∀ frame,
       (load_news_from_db fails order_by_desc isoformat now store).2
       = Returned frame →
       frame = []
       ∨ ∃ rows,
           rows ≡ₚ filter (λ r, not_before (now - hours 24)
                                  (NewsArticle.created_at r) = true)
                     (news_articles store)
           ∧ StronglySorted (newer_first NewsArticle.created_at) rows
           ∧ Forall2 (λ r row, NewsArticle.to_dict isoformat r = Returned row)
               rows frame)
  ∧ ((∀ k, fails k = false) →
     ∃ rows frame,
       (load_news_from_db fails order_by_desc isoformat now store).2
       = Returned frame
       ∧ rows ≡ₚ filter (λ r, not_before (now - hours 24)
                                (NewsArticle.created_at r) = true)
                   (news_articles store)
       ∧ StronglySorted (newer_first NewsArticle.created_at) rows
       ∧ Forall2 (λ r row, NewsArticle.to_dict isoformat r = Returned row)
           rows frame).
Proof.
  intros Hdesc. split; [apply load_news_from_db_committed|].
  split; [intros frame; by apply load_news_from_db_returned|].
  by apply load_news_from_db_working.
Qed.

Lemma get_security_recommendations_committed store :
  committed (get_security_recommendations fails order_by_desc isoformat store).1
  = store.
Proof.
  unfold get_security_recommendations. cbn zeta.
  rewrite reading_committed; [done|].
  intros s. apply (get_recommendations_body fails order_by_desc isoformat s).
Qed.

Lemma get_security_recommendations_returned store frame :
  (get_security_recommendations fails order_by_desc isoformat store).2
  = Returned frame →
  frame = []
  ∨ Forall2 (λ r row, SecurityRecommendation.to_dict isoformat r = Returned row)
      (take 3 (order_by_desc _ SecurityRecommendation.created_at
                 (security_recommendations store)))
      frame.
Proof.
  intros H. unfold get_security_recommendations in H. cbn zeta in H.
  apply reading_returned in H as [->|H]; [by left|]. right.
  destruct (get_recommendations_body fails order_by_desc isoformat (get_db store))
    as [_ [Hbody|[_ Hbody]]]; cbn zeta in Hbody; rewrite Hbody in H; [|done].
  by apply comprehension_returned in H.
Qed.

Lemma get_security_recommendations_working store :
  (∀ k, fails k = false) →
  Forall (λ r, is_Some (SecurityRecommendation.created_at r))
    (take 3 (order_by_desc _ SecurityRecommendation.created_at
               (security_recommendations store))) →
  ∃ frame,
    (get_security_recommendations fails order_by_desc isoformat store).2
    = Returned frame
    ∧ Forall2 (λ r row, SecurityRecommendation.to_dict isoformat r = Returned row)
        (take 3 (order_by_desc _ SecurityRecommendation.created_at
                   (security_recommendations store)))
        frame.
Proof.
  intros Hworks Htimes. unfold get_security_recommendations. cbn zeta.
  rewrite reading_working by done.
  destruct (get_recommendations_body fails order_by_desc isoformat (get_db store))
    as [_ [Hbody|[Hf _]]]; [|by rewrite Hworks in Hf].
  cbn zeta in Hbody. rewrite Hbody.
  destruct (comprehension_total (SecurityRecommendation.to_dict isoformat)
              (take 3 (order_by_desc _ SecurityRecommendation.created_at
                         (security_recommendations (view (get_db store))))))
    as [frame Hframe].
  { apply (Forall_impl _ _ _ Htimes). intros r [time Hr].
    unfold SecurityRecommendation.to_dict. rewrite Hr. by eexists. }
  rewrite Hframe. exists frame. split; [done|].
  by apply comprehension_returned.
Qed.

(** The first rows of a descending list and the rest. *)
Lemma newest_split {A} (key : A → option nat) n (rows ordered : list A) :
  ordered ≡ₚ rows →
  StronglySorted (newer_first key) ordered →
  take n ordered ++ drop n ordered ≡ₚ rows
  ∧ StronglySorted (newer_first key) (take n ordered ++ drop n ordered)
  ∧ length (take n ordered) ≤ n
  ∧ (drop n ordered ≠ [] → length (take n ordered) = n).
Proof.
  intros Hperm Hsorted. rewrite take_drop. split; [done|]. split; [done|].
  rewrite length_take. split; [lia|]. intros Hrest.
  destruct (decide (n ≤ length ordered)) as [|Hshort]; [lia|].
  destruct Hrest. apply drop_ge. lia.
Qed.

(** X22. [get_security_recommendations] reads and never writes.  What it
    returns has at most three entries and is empty (as it is when the
    query fails or a row has no time) or holds the dicts of the newest
    recommendations: the table splits into the rows shown and the rows
    hidden, no row comes before a newer one, shown before hidden, and rows
    are hidden only when three are shown. *)
Theorem get_security_recommendations_newest store :
  descending order_by_desc →
  committed (get_security_recommendations fails order_by_desc isoformat store).1
  = store
  ∧ ∀ frame,
      (get_security_recommendations fails order_by_desc isoformat store).2
      = Returned frame →
      length frame ≤ 3
      ∧ (frame = []
         ∨ ∃ shown hidden,
             shown ++ hidden ≡ₚ security_recommendations store
             ∧ StronglySorted (newer_first SecurityRecommendation.created_at)
                 (shown ++ hidden)
             ∧ (hidden ≠ [] → length shown = 3)
             ∧ Forall2 (λ r row, SecurityRecommendation.to_dict isoformat r
                                 = Returned row) shown frame).
Proof.
  intros [Hperm Hsorted]. split; [apply get_security_recommendations_committed|].
  intros frame H.
  apply get_security_recommendations_returned in H as [->|H].
  { split; [simpl; lia|by left]. }
  destruct (newest_split SecurityRecommendation.created_at 3
              (security_recommendations store)
              (order_by_desc _ SecurityRecommendation.created_at
                 (security_recommendations store))
              (Hperm _ _ _) (Hsorted _ _ _)) as (Hp & Hs & Hlen & Hfull).
  split.
  - apply Forall2_length in H. lia.
  - right. eauto 10.
Qed.

End with_faults.
End shown.

(** ** The pipeline: what is written is what is shown *)

Section round_trip.
Import models pandas utils.
Variable order_by_desc : ordering.
Variable isoformat : nat → string.

Lemma of_str_inj s u : of_str s = VStr u → s = Some u.
Proof. destruct s; cbn; congruence. Qed.

(** X23. An article of a stored batch is loaded for 24 hours and no longer: a
    batch as the pipeline builds it is saved at time [saved] on a store
    that works and the news are loaded at time [loaded].  If [saved] is
    within the 24 hours before [loaded], the frame has a row for each item
    whose url was new, with the item's title, url, source and summary, its
    category and threat type or their defaults, its region or "Global",
    and the time of the save.  If it is earlier, no row of the frame has
    a url that was new. *)
Theorem save_to_db_then_load saved loaded items store item u :
  descending order_by_desc →
  Forall is_article items →
  NoDup ((λ item : record, mjoin (item !! "url"))
           <$> unknown (news_articles store) items) →
  item ∈ items → item !! "url" = Some (Some u) →
  Some u ∉ urls (news_articles store) →
  (loaded - hours 24 ≤ saved →
   ∃ frame row,
     (load_news_from_db no_faults order_by_desc isoformat loaded
        (store_after_save no_faults saved items store)).2 = Returned frame
     ∧ row ∈ frame
     ∧ row !! "url" = Some (VStr u)
     ∧ row !! "title" = Some (of_str (mjoin (item !! "title")))
     ∧ row !! "source" = Some (of_str (mjoin (item !! "source")))
     ∧ row !! "summary" = Some (of_str (mjoin (item !! "summary")))
     ∧ row !! "category"
       = Some (of_str (get_default item "category" "Uncategorized"))
     ∧ row !! "threat_type" = Some (of_str (get_default item "threat_type" "Other"))
     ∧ row !! "region"
       = Some (VStr (default "Global" (get_default item "region" "Global")))
     ∧ row !! "created_at" = Some (VStr (isoformat saved)))
  ∧ (saved < loaded - hours 24 →
     ∀ frame row,
       (load_news_from_db no_faults order_by_desc isoformat loaded
          (store_after_save no_faults saved items store)).2 = Returned frame →
       row ∈ frame → row !! "url" ≠ Some (VStr u)).
Proof.
  intros Hdesc Hall Hnodup Hitem Hu Hnew.
  destruct (new_articles_insertable saved items store Hall Hnodup)
    as [stored Hstored].
  rewrite (save_to_db_flushed saved items store stored Hall Hstored).
  apply insert_articles_returned in Hstored as (added & -> & Hadded & _).
  split.
  - intros Hrecent.
    destruct (load_news_from_db_working order_by_desc isoformat no_faults loaded
                (mk_database (news_articles store ++ added)
                   (security_recommendations store)) Hdesc)
      as (rows & frame & Hload & Hperm & _ & Hframe); [done|].
    assert (new_article item
            ∈ new_article <$> unknown (news_articles store) items) as Hin.
    { apply list_elem_of_fmap. exists item. split; [done|].
      apply list_elem_of_filter. by rewrite Hu. }
    apply list_elem_of_lookup in Hin as [i Hi].
    destruct (Forall2_lookup_l _ _ _ _ _ Hadded Hi) as (r & Hr & Hstores).
    destruct Hstores as [_ Ht Hurl Hsrc Hreg Hsm Hcat Htime Hthreat].
    cbn in Ht, Hurl, Hsrc, Hreg, Hsm, Hcat, Htime, Hthreat.
    assert (r ∈ rows) as Hrow.
    { rewrite Hperm. apply list_elem_of_filter. split.
      - rewrite Htime. cbn [default not_before]. by apply Nat.leb_le.
      - cbn [news_articles]. apply elem_of_app. right.
        by eapply list_elem_of_lookup_2. }
    apply list_elem_of_lookup in Hrow as [j Hj].
    destruct (Forall2_lookup_l _ _ _ _ _ Hframe Hj) as (row & Hrow & Hdict).
    apply NewsArticle_to_dict_fields in Hdict
      as (time & Htime' & _ & Dt & Du & Ds & Dr & Dsm & Dc & Dth & Dcr).
    exists frame, row. split; [done|].
    split; [by eapply list_elem_of_lookup_2|].
    rewrite Htime in Htime'. injection Htime' as <-.
    rewrite Hu in Hurl.
    rewrite Ht in Dt. rewrite Hurl in Du. rewrite Hsrc in Ds.
    rewrite Hreg in Dr. rewrite Hsm in Dsm. rewrite Hcat in Dc.
    rewrite Hthreat in Dth.
    by repeat split.
  - intros Hold frame row Hload Hrow Hrowurl.
    destruct (load_news_from_db_returned order_by_desc isoformat no_faults
                loaded _ frame Hdesc Hload)
      as [->|(rows & Hperm & _ & Hframe)].
    { by apply elem_of_nil in Hrow. }
    apply list_elem_of_lookup in Hrow as [j Hj].
    destruct (Forall2_lookup_r _ _ _ _ _ Hframe Hj) as (r & Hr & Hdict).
    apply NewsArticle_to_dict_fields in Hdict
      as (time & _ & _ & _ & Hurl & _).
    rewrite Hurl in Hrowurl. injection Hrowurl as Hrowurl.
    apply of_str_inj in Hrowurl.
    apply list_elem_of_lookup_2 in Hr. rewrite Hperm in Hr.
    apply list_elem_of_filter in Hr as [Hrecent Hr]. cbn [news_articles] in Hr.
    apply elem_of_app in Hr as [Hr|Hr].
    + apply Hnew. rewrite <- Hrowurl. apply list_elem_of_fmap. eauto.
    + apply list_elem_of_lookup in Hr as [i Hi].
      destruct (Forall2_lookup_r _ _ _ _ _ Hadded Hi) as (a & Ha & Hstores).
      apply list_lookup_fmap_Some in Ha as (item' & -> & _).
      destruct Hstores as [_ _ _ _ _ _ _ Htime _]. cbn in Htime.
      rewrite Htime in Hrecent. cbn [default not_before] in Hrecent.
      apply Nat.leb_le in Hrecent. lia.
Qed.

End round_trip.

Section advice.
Import models pandas collections utils classifier.
Variable create : chat_request → outcome (option string).
Variable order_by_desc : ordering.
Variable isoformat : nat → string.

(** X24. After an update that went through, the recommendations shown are
    those of the update: one entry for each of the top threats, with the
    text generated for it and the time of the update.  The order of the
    entries is the store's choice, all rows having the same time. *)
Theorem update_recommendations_then_get now articles_df store :
  descending order_by_desc →
  top_threats articles_df ≠ [] →
  (∀ t, t ∈ top_threats articles_df →
        is_Some (generate_recommendations create t)) →
  ∃ frame,
    (get_security_recommendations no_faults order_by_desc isoformat
       (update_recommendations create no_faults now articles_df store).1).2
    = Returned frame
    ∧ (λ row : gmap string value, row !! "threat_type") <$> frame
      ≡ₚ (λ t, Some (VStr t)) <$> top_threats articles_df
    ∧ ∀ row, row ∈ frame →
        ∃ t, t ∈ top_threats articles_df
             ∧ row !! "threat_type" = Some (VStr t)
             ∧ row !! "recommendation"
               = Some (of_str (generate_recommendations create t))
             ∧ row !! "created_at" = Some (VStr (isoformat now)).
Proof.
  intros [Hperm Hsorted] Htop Htext.
  destruct (new_recs_insertable create now _ Htext) as [recs Hrecs].
  rewrite (update_recommendations_working create now articles_df store recs
             Htop Hrecs).
  destruct (new_recs_stored create now _ _ Hrecs)
    as (Hthreats & Htexts & Htimes & Hlen).
  pose proof (top_threats_length articles_df) as Hthree.
  cbn [fst].
  assert (Hall : take 3 (order_by_desc _ SecurityRecommendation.created_at recs)
                 ≡ₚ recs).
  { rewrite take_ge; [apply Hperm|]. rewrite (Hperm _ _ recs). lia. }
  destruct (get_security_recommendations_working order_by_desc isoformat
              no_faults (mk_database (news_articles store) recs))
    as (frame & Hget & Hframe); [done| |].
  { cbn. apply Forall_forall. intros r Hr. rewrite Hall in Hr.
    rewrite (proj1 (Forall_forall _ _) Htimes r Hr). by eexists. }
  cbn [security_recommendations] in Hframe.
  exists frame. split; [done|].
  assert (Hdict : ∀ r row,
            SecurityRecommendation.to_dict isoformat r = Returned row →
            r ∈ recs →
            row !! "threat_type"
            = Some (of_str (SecurityRecommendation.threat_type r))
            ∧ ∃ t, t ∈ top_threats articles_df
                   ∧ row !! "threat_type" = Some (VStr t)
                   ∧ row !! "recommendation"
                     = Some (of_str (generate_recommendations create t))
                   ∧ row !! "created_at" = Some (VStr (isoformat now))).
  { intros r row Hrow Hr.
    apply SecurityRecommendation_to_dict_fields in Hrow
      as (time & Htime & _ & Ht & Hrec & Hcreated).
    split; [done|].
    rewrite (proj1 (Forall_forall _ _) Htimes r Hr) in Htime.
    injection Htime as <-.
    apply list_elem_of_lookup in Hr as [i Hi].
    assert ((SecurityRecommendation.threat_type <$> recs) !! i
            = Some (SecurityRecommendation.threat_type r)) as H1
      by by rewrite list_lookup_fmap, Hi.
    assert ((SecurityRecommendation.recommendation <$> recs) !! i
            = Some (SecurityRecommendation.recommendation r)) as H2
      by by rewrite list_lookup_fmap, Hi.
    rewrite Hthreats in H1. rewrite Htexts in H2.
    apply list_lookup_fmap_Some in H1 as (t & Ht1 & Hti).
    apply list_lookup_fmap_Some in H2 as (t' & Ht2 & Hti').
    assert (t' = t) as -> by congruence.
    exists t. split; [by eapply list_elem_of_lookup_2|].
    rewrite Ht, Hrec, Ht1, Ht2. done. }
  split.
  - assert ((λ row : gmap string value, row !! "threat_type") <$> frame
            = (λ r, Some (of_str (SecurityRecommendation.threat_type r)))
                <$> take 3 (order_by_desc _ SecurityRecommendation.created_at
                              recs)) as ->.
    { apply list_eq. intros i. rewrite !list_lookup_fmap.
      destruct (frame !! i) as [row|] eqn:Ei.
      * destruct (Forall2_lookup_r _ _ _ _ _ Hframe Ei) as (r & Hr & Hrow).
        rewrite Hr. cbn. f_equal. apply Hdict; [done|].
        rewrite <- Hall. by eapply list_elem_of_lookup_2.
      * apply lookup_ge_None in Ei.
        rewrite <- (Forall2_length _ _ _ Hframe) in Ei.
        apply lookup_ge_None in Ei. by rewrite Ei. }
    rewrite Hall.
    rewrite (list_fmap_compose SecurityRecommendation.threat_type
               (λ t, Some (of_str t))), Hthreats, <- list_fmap_compose.
    done.
  - intros row Hrow. apply list_elem_of_lookup in Hrow as [i Hi].
    destruct (Forall2_lookup_r _ _ _ _ _ Hframe Hi) as (r & Hr & Hrow).
    apply (Hdict r row Hrow). rewrite <- Hall. by eapply list_elem_of_lookup_2.
Qed.

End advice.

Section shown_runs.
Import models pandas utils classifier.

Lemma load_news_from_db_recent_witness :
  ∃ rows frame,
    (load_news_from_db no_faults stable_descending (λ _, "2024-01-01T00:00:00")
       5 (store_after_save no_faults 1 [example_item] empty_store)).2
    = Returned frame
    ∧ rows ≡ₚ filter (λ r, not_before (5 - hours 24) (NewsArticle.created_at r) = true)
                (news_articles (store_after_save no_faults 1 [example_item] empty_store))
    ∧ StronglySorted (newer_first NewsArticle.created_at) rows
    ∧ Forall2 (λ r row, NewsArticle.to_dict (λ _, "2024-01-01T00:00:00") r
                        = Returned row) rows frame.
Proof.
  apply (proj2 (proj2 (load_news_from_db_recent stable_descending
                         (λ _, "2024-01-01T00:00:00") no_faults 5
                         (store_after_save no_faults 1 [example_item] empty_store)
                         stable_descending_descending))).
  done.
Defined.

Lemma get_security_recommendations_newest_witness :
  committed (get_security_recommendations no_faults stable_descending
               (λ _, "2024-01-01T00:00:00") advised_store).1
  = advised_store.
Proof.
  apply (proj1 (get_security_recommendations_newest stable_descending
                  (λ _, "2024-01-01T00:00:00") no_faults advised_store
                  stable_descending_descending)).
Defined.

Lemma save_to_db_then_load_witness :
  ∃ frame row,
    (load_news_from_db no_faults stable_descending (λ _, "2024-01-01T00:00:00")
       5 (store_after_save no_faults 1 [example_item] empty_store)).2
    = Returned frame
    ∧ row ∈ frame
    ∧ row !! "url" = Some (VStr "https://example.test/patch")
    ∧ row !! "title" = Some (of_str (mjoin (example_item !! "title")))
    ∧ row !! "source" = Some (of_str (mjoin (example_item !! "source")))
    ∧ row !! "summary" = Some (of_str (mjoin (example_item !! "summary")))
    ∧ row !! "category"
      = Some (of_str (get_default example_item "category" "Uncategorized"))
    ∧ row !! "threat_type"
      = Some (of_str (get_default example_item "threat_type" "Other"))
    ∧ row !! "region"
      = Some (VStr (default "Global" (get_default example_item "region" "Global")))
    ∧ row !! "created_at" = Some (VStr "2024-01-01T00:00:00").
Proof.
  assert (Forall is_article [example_item]) as Hall
    by apply Forall_singleton, example_item_is_article.
  assert (NoDup ((λ item : record, mjoin (item !! "url"))
                   <$> unknown (news_articles empty_store) [example_item]))
    as Hnodup by by apply (bool_decide_unpack _).
  assert (example_item ∈ [example_item]) as Hin by left.
  apply (proj1 (save_to_db_then_load stable_descending
                  (λ _, "2024-01-01T00:00:00") 1 5 [example_item] empty_store
                  example_item "https://example.test/patch"
                  stable_descending_descending Hall Hnodup Hin
                  eq_refl (not_elem_of_nil _))).
  unfold hours. lia.
Defined.

Lemma update_recommendations_then_get_witness :
  ∃ frame,
    (get_security_recommendations no_faults stable_descending
       (λ _, "2024-01-01T00:00:00")
       (update_recommendations unreachable no_faults 9 example_batch
          advised_store).1).2
    = Returned frame
    ∧ (λ row : gmap string value, row !! "threat_type") <$> frame
      ≡ₚ (λ t, Some (VStr t)) <$> top_threats example_batch
    ∧ ∀ row, row ∈ frame →
        ∃ t, t ∈ top_threats example_batch
             ∧ row !! "threat_type" = Some (VStr t)
             ∧ row !! "recommendation"
               = Some (of_str (generate_recommendations unreachable t))
             ∧ row !! "created_at" = Some (VStr "2024-01-01T00:00:00").
Proof.
  apply (update_recommendations_then_get unreachable stable_descending
           (λ _, "2024-01-01T00:00:00") 9 example_batch advised_store
           stable_descending_descending).
  - done.
  - intros t _. by eexists.
Defined.

End shown_runs.

Section trending_advice.
Import models pandas collections utils classifier.
Variable create : chat_request → outcome (option string).
Variable now : nat.

Lemma get_trending_threats_top articles_df r :
  get_trending_threats articles_df = Returned r →
  threat <$> r = top_threats articles_df.
Proof.
  unfold get_trending_threats, top_threats.
  destruct (empty articles_df) eqn:E.
  - intros ?; simplify_eq. unfold column.
    by rewrite (empty_no_column _ _ E).
  - destruct (column articles_df "threat_type") as [series|e]; [|done].
    intros ?; simplify_eq. apply threat_of_fmap.
Qed.

(** X25. The recommendations follow the trending list: when
    [get_trending_threats] returns a list that is not empty for the batch
    and there is a text for each of its threats, then after the update on a
    store that works the recommendation table has one row for each entry of
    the list, in the order of the list, and nothing else. *)
Theorem update_recommendations_follows_trending articles_df store r :
  get_trending_threats articles_df = Returned r →
  r ≠ [] →
  (∀ e, e ∈ r → is_Some (generate_recommendations create (threat e))) →
  SecurityRecommendation.threat_type
    <$> security_recommendations
          (update_recommendations create no_faults now articles_df store).1
  = (λ e, Some (threat e)) <$> r
  ∧ SecurityRecommendation.recommendation
      <$> security_recommendations
            (update_recommendations create no_faults now articles_df store).1
    = (λ e, generate_recommendations create (threat e)) <$> r.
Proof.
  intros Hr Hne Htext. apply get_trending_threats_top in Hr as Htop.
  assert (top_threats articles_df ≠ []) as Hnonempty.
  { rewrite <- Htop. by destruct r. }
  destruct (new_recs_insertable create now (top_threats articles_df))
    as [recs Hrecs].
  { intros t Ht. rewrite <- Htop in Ht.
    apply list_elem_of_fmap in Ht as (e & -> & He). by apply Htext. }
  rewrite (update_recommendations_working create now articles_df store recs
             Hnonempty Hrecs).
  destruct (new_recs_stored create now _ _ Hrecs) as (Hthreats & Htexts & _).
  cbn [fst security_recommendations].
  rewrite Hthreats, Htexts, <- Htop, <- !list_fmap_compose. done.
Qed.

End trending_advice.

Lemma update_recommendations_follows_trending_witness :
  models.SecurityRecommendation.threat_type
    <$> models.security_recommendations
          (classifier.update_recommendations classifier.unreachable
             utils.no_faults 9 pandas.example_batch models.advised_store).1
  = (λ e, Some (utils.threat e))
      <$> [utils.mk_trending "Phishing" 2; utils.mk_trending "Ransomware" 1]
  ∧ models.SecurityRecommendation.recommendation
      <$> models.security_recommendations
            (classifier.update_recommendations classifier.unreachable
               utils.no_faults 9 pandas.example_batch models.advised_store).1
    = (λ e, classifier.generate_recommendations classifier.unreachable
              (utils.threat e))
        <$> [utils.mk_trending "Phishing" 2; utils.mk_trending "Ransomware" 1].
Proof.
  apply (update_recommendations_follows_trending classifier.unreachable 9
           pandas.example_batch models.advised_store).
  - done.
  - done.
  - intros e _. by eexists.
Defined.
